(** * Receipt bot: batch collection and multi-stage extraction pipeline

    A shallow embedding of the receipt path of the bot:

    - [services/pdf_service.py] : class [PDFExtractor] (amount parsing, the
      regex scan for totals, text recovery, normalisation of the AI JSON
      answer, table rows, and the fallback chain [extract_receipt_data]);
    - [bot.py] : the media group collector ([handle_document],
      [handle_photo_receipt], [_flush_media_group]), the per document worker
      ([_process_single_receipt]), the batch aggregator
      ([_process_media_group_receipts]) and the single document handler
      ([handle_receipt_extraction]).

    Modelling conventions.

    - Python [str] values are Rocq strings of ASCII characters; text outside
      ASCII is outside the model.
    - A Python [float] is its exact rational value (type [Q], kept reduced by
      [Qred]) or one of the special values infinity / NaN; rounding to a
      binary double is not modelled.  [float] of an integer beyond the range
      of a double raises [OverflowError], as in Python.
    - External engines (Gemini, pdfplumber, Tesseract, pdf2image, the JSON
      decoder, the clock, Telegram, Sheets, Drive) are fields of an
      environment record: opaque functions that return a value, return
      nothing, or raise.
    - Exceptions are values of type [exn]; a computation that may raise
      returns [result].  The extraction pipeline additionally logs every
      engine invocation in a trace, so that statements of the form "no later
      stage runs" can be expressed.
    - The asyncio event loop is modelled by a discrete event simulation with
      an explicit clock, the registry of pending media groups and the list
      of armed timers.
    - In the receipt handlers, sending a message is a call of the transport
      like any other: it may raise, and then nothing is sent.  The command
      handlers of the last part (meetings and uploads) are modelled over a
      transport that delivers every reply. *)

From Stdlib Require Import Ascii String DecimalString DecimalNat QArith Lqa.
From stdpp Require Import gmap strings list fin_maps.

Open Scope string_scope.
Set Warnings "-register-all,-clear-no-such-hyp".

(* ===================================================================== *)
(** * Python values                                                       *)
(* ===================================================================== *)

Module Py.

(** ** Characters and strings *)

Definition is_digit (c : ascii) : bool :=
  let n := nat_of_ascii c in (48 <=? n)%nat && (n <=? 57)%nat.

(** ASCII characters for which [str.isspace] holds, which is also the class
    [\s] of the [re] module on [str] patterns: TAB, LF, VT, FF, CR, the four
    separators FS, GS, RS, US and the blank. *)
Definition is_space (c : ascii) : bool :=
  let n := nat_of_ascii c in
  ((9 <=? n)%nat && (n <=? 13)%nat) || ((28 <=? n)%nat && (n <=? 32)%nat).

Definition is_upper (c : ascii) : bool :=
  let n := nat_of_ascii c in (65 <=? n)%nat && (n <=? 90)%nat.

Definition lower_char (c : ascii) : ascii :=
  if is_upper c then ascii_of_nat (nat_of_ascii c + 32) else c.

Definition chars (s : string) : list ascii := list_ascii_of_string s.
Definition str (l : list ascii) : string := string_of_list_ascii l.

(** [s.lower()] *)
Definition lower (s : string) : string := str (map lower_char (chars s)).

Fixpoint lstrip_chars (l : list ascii) : list ascii :=
  match l with
  | c :: t => if is_space c then lstrip_chars t else l
  | [] => []
  end.

Definition strip_chars (l : list ascii) : list ascii :=
  rev (lstrip_chars (rev (lstrip_chars l))).

(** [s.strip()] *)
Definition strip (s : string) : string := str (strip_chars (chars s)).

(** [len(s)] *)
Definition len (s : string) : nat := String.length s.

Definition char_eqb (a b : ascii) : bool := Ascii.eqb a b.

Fixpoint starts_with (p l : list ascii) : bool :=
  match p, l with
  | [], _ => true
  | a :: p', b :: l' => char_eqb a b && starts_with p' l'
  | _ :: _, [] => false
  end.

Fixpoint contains_chars (p l : list ascii) : bool :=
  starts_with p l ||
  match l with
  | [] => false
  | _ :: t => contains_chars p t
  end.

(** [needle in hay] on strings *)
Definition contains (needle hay : string) : bool :=
  contains_chars (chars needle) (chars hay).

(** Truth value of a string: [bool(s)] *)
Definition str_truthy (s : string) : bool :=
  match s with EmptyString => false | _ => true end.

(** [s or d] on strings *)
Definition str_or (s d : string) : string := if str_truthy s then s else d.

(** ** Floats *)

Inductive pyfloat :=
| Fin (q : Q)
| Inf (negative : bool)
| NaN.

Definition fin_of_Z (z : Z) : pyfloat := Fin (z # 1).

Definition float_truthy (f : pyfloat) : bool :=
  match f with
  | Fin q => negb (Qeq_bool q 0)
  | _ => true
  end.

(** [a + b] *)
Definition fadd (a b : pyfloat) : pyfloat :=
  match a, b with
  | Fin x, Fin y => Fin (Qred (x + y))
  | NaN, _ | _, NaN => NaN
  | Inf s, Fin _ => Inf s
  | Fin _, Inf s => Inf s
  | Inf s, Inf s' => if Bool.eqb s s' then Inf s else NaN
  end.

(** [a * b] *)
Definition fmul (a b : pyfloat) : pyfloat :=
  match a, b with
  | Fin x, Fin y => Fin (Qred (x * y))
  | NaN, _ | _, NaN => NaN
  | Inf s, Fin y | Fin y, Inf s =>
      if Qeq_bool y 0 then NaN else Inf (xorb s (Qle_bool y 0))
  | Inf s, Inf s' => Inf (xorb s s')
  end.

(** [a < b] *)
Definition flt (a b : pyfloat) : bool :=
  match a, b with
  | Fin x, Fin y => Qle_bool x y && negb (Qeq_bool x y)
  | NaN, _ | _, NaN => false
  | Inf true, Inf true => false
  | Inf true, _ => true
  | Inf false, _ => false
  | Fin _, Inf s => negb s
  end.

(** *** [float(s)] on a string

    The grammar accepted by the constructor, after stripping white space:
<<
    floatvalue ::= [sign] (floatnumber | "inf" | "infinity" | "nan")
    floatnumber ::= number [exponent]
    number     ::= [digitpart] "." digitpart | digitpart ["."]
    exponent   ::= ("e" | "E") [sign] digitpart
    digitpart  ::= digit (["_"] digit)*
>>
    The value of a float number is computed exactly. *)

Definition digit_val (c : ascii) : Z := Z.of_nat (nat_of_ascii c - 48).

(** The digits of a [digitpart] (underscores dropped) and what follows it;
    [None] when the input does not start with a digit. *)
Fixpoint digits_tail (l : list ascii) : list ascii * list ascii :=
  match l with
  | c :: t =>
      if is_digit c then
        let '(ds, r) := digits_tail t in (c :: ds, r)
      else if char_eqb c "_"%char then
        match t with
        | d :: _ =>
            if is_digit d then digits_tail t else ([], l)
        | [] => ([], l)
        end
      else ([], l)
  | [] => ([], [])
  end.

Definition digitpart (l : list ascii) : option (list ascii * list ascii) :=
  match l with
  | c :: t =>
      if is_digit c then
        let '(ds, r) := digits_tail t in Some (c :: ds, r)
      else None
  | [] => None
  end.

Definition digits_value (ds : list ascii) : Z :=
  fold_left (fun acc c => (acc * 10 + digit_val c)%Z) ds 0%Z.

Definition sign_of (l : list ascii) : bool * list ascii :=
  match l with
  | c :: t =>
      if char_eqb c "-"%char then (true, t)
      else if char_eqb c "+"%char then (false, t)
      else (false, l)
  | [] => (false, [])
  end.

(** [[digitpart] "." digitpart | digitpart ["."]]: integer digits, fraction
    digits and the rest. *)
Definition number (l : list ascii)
  : option (list ascii * list ascii * list ascii) :=
  match digitpart l with
  | Some (ip, r) =>
      match r with
      | c :: r' =>
          if char_eqb c "."%char then
            match digitpart r' with
            | Some (fp, r'') => Some (ip, fp, r'')
            | None => Some (ip, [], r')
            end
          else Some (ip, [], r)
      | [] => Some (ip, [], [])
      end
  | None =>
      match l with
      | c :: r' =>
          if char_eqb c "."%char then
            match digitpart r' with
            | Some (fp, r'') => Some ([], fp, r'')
            | None => None
            end
          else None
      | [] => None
      end
  end.

(** [("e" | "E") [sign] digitpart] at the end of the input; [Some 0] when
    the input is empty, [None] when it is anything else. *)
Definition exponent (l : list ascii) : option Z :=
  match l with
  | [] => Some 0%Z
  | c :: t =>
      if char_eqb (lower_char c) "e"%char then
        let '(neg, t') := sign_of t in
        match digitpart t' with
        | Some (ds, []) =>
            Some (if neg then (- digits_value ds)%Z else digits_value ds)
        | _ => None
        end
      else None
  end.

(** [m * 10 ^ e] as a reduced fraction *)
Definition scale10 (m e : Z) : Q :=
  if (0 <=? e)%Z then Qred ((m * 10 ^ e)%Z # 1)
  else Qred (m # Z.to_pos (10 ^ (- e))).

Definition float_of_chars (l : list ascii) : option pyfloat :=
  let '(neg, body) := sign_of (strip_chars l) in
  let word := str (map lower_char body) in
  if String.eqb word "inf" || String.eqb word "infinity" then Some (Inf neg)
  else if String.eqb word "nan" then Some NaN
  else
    match number body with
    | Some (ip, fp, r) =>
        match exponent r with
        | Some e =>
            let m := digits_value (ip ++ fp) in
            let q := scale10 m (e - Z.of_nat (length fp)) in
            Some (Fin (if neg then Qred (- q) else q))
        | None => None
        end
    | None => None
    end.

(** [float(s)] for a string [s]; [None] stands for [ValueError]. *)
Definition float_of_string (s : string) : option pyfloat :=
  float_of_chars (chars s).

(** ** Exceptions *)

Inductive exn_class :=
| ValueError | TypeError | OverflowError | OSError | TimeoutError
| OtherException.

(** An exception: its class and [str(e)]. *)
Record exn := Exn { exn_cls : exn_class; exn_msg : string }.

Inductive result (A : Type) :=
| Ok (a : A)
| Raise (e : exn).
Arguments Ok {A} a.
Arguments Raise {A} e.

(** ** Dynamically typed values (JSON documents and dictionary fields) *)

Inductive pyval :=
| VNone
| VBool (b : bool)
| VInt (z : Z)
| VFloat (f : pyfloat)
| VStr (s : string)
| VList (l : list pyval)
| VDict (d : list (string * pyval)).

(** [bool(v)] *)
Definition truthy (v : pyval) : bool :=
  match v with
  | VNone => false
  | VBool b => b
  | VInt z => negb (z =? 0)%Z
  | VFloat f => float_truthy f
  | VStr s => str_truthy s
  | VList l => match l with [] => false | _ => true end
  | VDict d => match d with [] => false | _ => true end
  end.

(** The least magnitude of an integer that [float] does not convert: the
    integers below [2^1024 - 2^970] round to a double, at most to the
    largest one, [2^1024 - 2^971]; from there on rounding to nearest, ties
    to even, would give [2^1024]. *)
Definition float_overflow : Z := Eval cbv in (2 ^ 1024 - 2 ^ 970)%Z.

(** [float(v)] *)
Definition float (v : pyval) : result pyfloat :=
  match v with
  | VBool b => Ok (fin_of_Z (if b then 1 else 0))
  | VInt z =>
      if (Z.abs z <? float_overflow)%Z then Ok (fin_of_Z z)
      else Raise (Exn OverflowError "int too large to convert to float")
  | VFloat f => Ok f
  | VStr s =>
      match float_of_string s with
      | Some f => Ok f
      | None => Raise (Exn ValueError "could not convert string to float")
      end
  | VNone | VList _ | VDict _ =>
      Raise (Exn TypeError "float() argument must be a string or a real number")
  end.

(** [d.get(k)] on a dictionary given by its bindings *)
Fixpoint dict_get (d : list (string * pyval)) (k : string) : option pyval :=
  match d with
  | [] => None
  | (k', v) :: t => if String.eqb k' k then Some v else dict_get t k
  end.

(** [d.get(k, default)] *)
Definition dict_get_default (d : list (string * pyval)) (k : string)
  (default : pyval) : pyval :=
  match dict_get d k with Some v => v | None => default end.

(** [except (ValueError, TypeError):] catches the exception *)
Definition value_or_type_error (e : exn) : bool :=
  match exn_cls e with
  | ValueError | TypeError => true
  | _ => false
  end.

End Py.

(* ===================================================================== *)
(** * services/pdf_service.py                                             *)
(* ===================================================================== *)

Module PdfService.
Import Py.

(** ** Line items

    A line item is the dictionary with the keys of [SOA_COLUMNS].  The key
    ["Date"] may be missing (the table stage does not set it); the numeric
    fields hold whatever value the stage left there. *)

Record row := Row {
  Date : option string;
  Item : string;
  Price : pyval;
  Qty : pyval;
  Total : pyval
}.

(** The tuple returned by [extract_receipt_data]:
    [(items, success, error_message, extraction_method)]. *)
Record outcome := Outcome {
  items : list row;
  success : bool;
  error_msg : option string;
  method : string
}.

(** ** Amounts *)

(** The argument of [float] in [_parse_amount]: commas are removed, then
    every character that is neither a digit nor a dot. *)
Definition clean_amount (l : list ascii) : list ascii :=
  List.filter (fun c => is_digit c || char_eqb c "."%char)
    (List.filter (fun c => negb (char_eqb c ","%char)) l).

Definition _parse_amount (value : string) : option pyfloat :=
  if negb (str_truthy value) then None
  else float_of_chars (clean_amount (chars value)).

(** ** The regular expressions of the class

    Every pattern of [TOTAL_PATTERNS] is a label followed by the same tail
    (any run of colons and white space, an optional dollar sign, and the
    captured group: one or more digits or commas, an optional dot, any
    digits), compiled with [re.I].  A label is a sequence of literal words
    and optional white space.  Consecutive pieces of these patterns accept
    disjoint sets of characters and every piece after the digits or commas
    may match the empty string, so the backtracking matcher of [re] finds,
    at a given start position, exactly the match of the greedy left to
    right scan below. *)

Inductive atom :=
| Lit (word : string)   (* literal text, letters compared ignoring case *)
| Spaces.               (* any run of white space, possibly empty *)

Fixpoint span (p : ascii -> bool) (l : list ascii) : list ascii * list ascii :=
  match l with
  | c :: t => if p c then let '(a, r) := span p t in (c :: a, r) else ([], l)
  | [] => ([], [])
  end.

Fixpoint match_lit (w l : list ascii) : option (list ascii) :=
  match w, l with
  | [], _ => Some l
  | a :: w', b :: l' =>
      if char_eqb a (lower_char b) then match_lit w' l' else None
  | _ :: _, [] => None
  end.

Fixpoint match_label (lab : list atom) (l : list ascii) : option (list ascii) :=
  match lab with
  | [] => Some l
  | Lit w :: lab' =>
      match match_lit (chars w) l with
      | Some r => match_label lab' r
      | None => None
      end
  | Spaces :: lab' => match_label lab' (snd (span is_space l))
  end.

Definition is_colon_or_space (c : ascii) : bool :=
  char_eqb c ":"%char || is_space c.
Definition is_digit_or_comma (c : ascii) : bool :=
  is_digit c || char_eqb c ","%char.

Definition optional_char (x : ascii) (l : list ascii)
  : list ascii * list ascii :=
  match l with
  | c :: t => if char_eqb c x then ([c], t) else ([], l)
  | [] => ([], [])
  end.

(** A match of a total pattern at the start of [l]: group 1 and the number
    of characters of the whole match. *)
Definition match_total (lab : list atom) (l : list ascii)
  : option (string * nat) :=
  match match_label lab l with
  | None => None
  | Some r0 =>
      let r1 := snd (span is_colon_or_space r0) in
      let r2 := snd (optional_char "$"%char r1) in
      let '(num, r3) := span is_digit_or_comma r2 in
      match num with
      | [] => None
      | _ :: _ =>
          let '(dot, r4) := optional_char "."%char r3 in
          let '(frac, r5) := span is_digit r4 in
          Some (str (num ++ dot ++ frac), (length l - length r5)%nat)
      end
  end.

(** A match of [DECIMAL_PATTERN] (one or more digits or commas, a dot, two
    digits) at the start of [l]: group 0 and its length. *)
Definition match_decimal (l : list ascii) : option (string * nat) :=
  let '(num, r) := span is_digit_or_comma l in
  match num, r with
  | _ :: _, dot :: d1 :: d2 :: _ =>
      if char_eqb dot "."%char && is_digit d1 && is_digit d2
      then Some (str (num ++ [dot; d1; d2]), (length num + 3)%nat)
      else None
  | _, _ => None
  end.

(** [pattern.finditer(text)]: the matches from left to right, without
    overlap.  [skip] counts the characters of the previous match that are
    still to be passed over. *)
Fixpoint finditer (m : list ascii -> option (string * nat)) (skip : nat)
  (l : list ascii) : list string :=
  match l with
  | [] => []
  | _ :: t =>
      match skip with
      | S k => finditer m k t
      | O =>
          match m l with
          | Some (g, n) => g :: finditer m (n - 1) t
          | None => finditer m 0 t
          end
      end
  end.

Definition TOTAL_PATTERNS : list (list atom) :=
  [ [Lit "total"];
    [Lit "grand"; Spaces; Lit "total"];
    [Lit "amount"; Spaces; Lit "due"];
    [Lit "subtotal"] ].

(** [amt and amt > 0] *)
Definition positive (amt : option pyfloat) : bool :=
  match amt with
  | Some f => float_truthy f && flt (fin_of_Z 0) f
  | None => false
  end.

Definition keep_amounts (ok : pyfloat -> bool) (groups : list string)
  : list pyfloat :=
  flat_map (fun g =>
    match _parse_amount g with
    | Some f => if positive (Some f) && ok f then [f] else []
    | None => []
    end) groups.

Definition _extract_totals_from_text (text : string) : list pyfloat :=
  let amounts :=
    flat_map (fun pattern =>
      keep_amounts (fun _ => true)
        (finditer (match_total pattern) 0 (chars text))) TOTAL_PATTERNS in
  match amounts with
  | [] =>
      keep_amounts (fun f => flt f (fin_of_Z 100000))
        (finditer match_decimal 0 (chars text))
  | _ :: _ => amounts
  end.

(** ** The environment of the extractor

    The engines behind the extractor and the run time primitives that are
    not modelled bit for bit.  All of them are deterministic functions of
    their arguments. *)

Inductive prompt :=
| ParsePrompt        (* "extract EVERY line item ... Return ONLY the JSON array" *)
| TranscribePrompt.  (* "Extract EVERY line of text ... Return only the raw text" *)

Record date := { day : nat; month : nat; year : nat }.

Record env := Env {
  (** [self.ocr_available]: pytesseract, pdf2image and PIL could be imported *)
  ocr_available : bool;
  (** [Path(file_path).exists()] *)
  path_exists : string -> bool;
  (** [datetime.now()] *)
  now : date;
  (** [gemini_service.generate_content_with_image(prompt, image_path)];
      the service catches every exception and answers [None] *)
  generate_content_with_image : prompt -> string -> option string;
  (** [gemini_service.generate_content(prompt)] for the structuring prompt
      built around the given receipt text *)
  generate_content : string -> option string;
  (** [json.loads] applied to the answer once [_parse_gemini_json_response]
      has stripped it, removed Markdown code fences and cut it down to the
      bracketed array; [Ok None] stands for [JSONDecodeError]; any other
      exception of the decoder ([RecursionError] on an answer that is
      nested too deeply, [ValueError] on an integer with too many digits)
      is raised *)
  json_loads : string -> result (option pyval);
  (** [str(v)] for a value that is not a string *)
  py_repr : pyval -> string;
  (** [_extract_text_pdfplumber(pdf_path)]: page texts and table rows joined
      by newlines; opening or reading the PDF may raise *)
  pdfplumber_text : string -> result string;
  (** the tables of all pages, [page.extract_tables()], in page order *)
  pdfplumber_tables : string -> result (list (list (list (option string))));
  (** [convert_from_path] and [pytesseract.image_to_string] on every page,
      joined by newlines *)
  ocr_pdf : string -> result string;
  (** [Image.open] and [pytesseract.image_to_string] on an image file *)
  ocr_image : string -> result string;
  (** [convert_from_path(pdf_path)], each page saved to a temporary PNG:
      the paths of these files *)
  convert_from_path : string -> result (list string);
  (** [convert_from_path(pdf_path, first_page=1, last_page=1)], likewise *)
  convert_first_page : string -> result (list string)
}.

(** [str(v)] *)
Definition py_str (E : env) (v : pyval) : string :=
  match v with
  | VStr s => s
  | _ => py_repr E v
  end.

Definition pad (width : nat) (n : nat) : string :=
  let s := NilZero.string_of_uint (Nat.to_uint n) in
  str (repeat "0"%char (width - String.length s)) ++ s.

(** [d.strftime("%d/%m/%Y")] *)
Definition strftime_dmy (d : date) : string :=
  pad 2 (day d) ++ "/" ++ pad 2 (month d) ++ "/" ++ pad 4 (year d).

(** ** Computations that call engines and may raise

    The trace records the methods of [PDFExtractor] in the order in which
    they are entered. *)

Inductive call :=
| Parse_directly_from_image (image_path : string)
| Parse_directly_from_pdf_image (pdf_path : string)
| Extract_text (file_path : string)
| Text_pdfplumber (pdf_path : string)
| Text_ocr (pdf_path : string)
| Text_from_pdf_via_gemini_vision (pdf_path : string)
| Text_via_gemini_vision (image_path : string)
| Text_from_image (image_path : string)
| Parse_with_gemini (text : string)
| Items_from_tables (pdf_path : string)
| Totals_from_text (text : string).

Definition M (A : Type) : Type := list call -> result A * list call.

Definition ret {A} (a : A) : M A := fun tr => (Ok a, tr).

Definition bind {A B} (m : M A) (f : A -> M B) : M B :=
  fun tr =>
    match m tr with
    | (Ok a, tr') => f a tr'
    | (Raise e, tr') => (Raise e, tr')
    end.

Definition enter (c : call) : M unit := fun tr => (Ok tt, (tr ++ [c])%list).

Definition lift {A} (r : result A) : M A := fun tr => (r, tr).

(** [try: m except Exception: (logged)], after which the method returns
    [a] *)
Definition except_all {A} (m : M A) (a : A) : M A :=
  fun tr =>
    match m tr with
    | (Ok x, tr') => (Ok x, tr')
    | (Raise _, tr') => (Ok a, tr')
    end.

Notation "'let*' x ':=' m 'in' k" := (bind m (fun x => k))
  (at level 10, x name, m at level 200, k at level 200).

Section Extractor.

Variable E : env.

(** ** Text recovery *)

Definition _extract_text_pdfplumber (pdf_path : string) : M string :=
  let* _ := enter (Text_pdfplumber pdf_path) in
  lift (pdfplumber_text E pdf_path).

Definition _extract_text_ocr (pdf_path : string) : M string :=
  let* _ := enter (Text_ocr pdf_path) in
  if negb (ocr_available E) then ret ""
  else match ocr_pdf E pdf_path with
       | Ok t => ret t
       | Raise _ => ret ""
       end.

Definition _extract_text_from_image (image_path : string) : M string :=
  let* _ := enter (Text_from_image image_path) in
  if negb (ocr_available E) then ret ""
  else match ocr_image E image_path with
       | Ok t => ret t
       | Raise _ => ret ""
       end.

Definition _extract_text_via_gemini_vision (image_path : string) : M string :=
  let* _ := enter (Text_via_gemini_vision image_path) in
  match generate_content_with_image E TranscribePrompt image_path with
  | Some t => ret t
  | None => ret ""
  end.

Definition _extract_text_from_pdf_via_gemini_vision (pdf_path : string)
  : M string :=
  let* _ := enter (Text_from_pdf_via_gemini_vision pdf_path) in
  if negb (ocr_available E) then ret ""
  else match convert_first_page E pdf_path with
       | Ok (tmp_path :: _) => _extract_text_via_gemini_vision tmp_path
       | Ok [] => ret ""
       | Raise _ => ret ""
       end.

(** [Path(file_path).name]: the last component of the path.  Components
    are separated by slashes; when [pathlib] parses a path it drops the
    empty components and those that are a single dot, so a slash at the end
    does not change the name.  [name] is the last component kept so far,
    [acc] the one being read. *)
Definition keep_component (name acc : list ascii) : list ascii :=
  match acc with
  | [] => name
  | [c] => if char_eqb c "."%char then name else acc
  | _ :: _ :: _ => acc
  end.

Fixpoint path_name (name acc l : list ascii) : list ascii :=
  match l with
  | [] => keep_component name acc
  | c :: t =>
      if char_eqb c "/"%char then path_name (keep_component name acc) [] t
      else path_name name (acc ++ [c])%list t
  end.

(** [Path(file_path).suffix]: the part of the name from its last dot on,
    provided that dot is neither its first nor its last character. *)

Fixpoint after_last_dot (l : list ascii) : option (list ascii) :=
  match l with
  | [] => None
  | c :: t =>
      match after_last_dot t with
      | Some r => Some r
      | None => if char_eqb c "."%char then Some t else None
      end
  end.

Definition suffix (file_path : string) : string :=
  let name := path_name [] [] (chars file_path) in
  match name with
  | [] => ""
  | c :: t =>
      match after_last_dot t with
      | Some (d :: r) => str ("."%char :: d :: r)
      | _ => ""
      end
  end.

Definition is_image_ext (ext : string) : bool :=
  existsb (String.eqb ext) [".jpg"; ".jpeg"; ".png"; ".webp"].

(** [not text or len(text.strip()) < 20] *)
Definition too_short (text : string) : bool :=
  negb (str_truthy text) || (len (strip text) <? 20)%nat.

Definition quality_error : string :=
  "Unable to extract text. The document may be scanned with poor quality - "
  ++ "please ensure the receipt is clear and legible.".

(** Returns [(text, success, error_message)]. *)
Definition extract_text (file_path : string)
  : M (string * bool * option string) :=
  let* _ := enter (Extract_text file_path) in
  if negb (path_exists E file_path) then ret ("", false, Some "File not found")
  else
    let ext := lower (suffix file_path) in
    let finish (text : string) : M (string * bool * option string) :=
      if too_short text then ret ("", false, Some quality_error)
      else ret (strip text, true, None) in
    if String.eqb ext ".pdf" then
      (* Step 1: pdfplumber *)
      let* text := _extract_text_pdfplumber file_path in
      (* Step 2: OCR when there is little or no text *)
      let* text :=
        (if too_short text && ocr_available E
         then _extract_text_ocr file_path else ret text) in
      (* Step 3: Gemini Vision on the first page *)
      let* text :=
        (if too_short text && ocr_available E then
           let* vision_text :=
             _extract_text_from_pdf_via_gemini_vision file_path in
           ret (if negb (too_short vision_text) then vision_text else text)
         else ret text) in
      finish text
    else if is_image_ext ext then
      (* Images: Gemini Vision first, then OCR *)
      let* vision_text := _extract_text_via_gemini_vision file_path in
      let* text := (if negb (too_short vision_text) then ret vision_text
               else if ocr_available E then _extract_text_from_image file_path
               else ret "") in
      finish text
    else
      ret ("", false,
           Some ("Unsupported file type: " ++ ext ++ ". Use PDF, JPG, PNG, or WEBP.")).

(** ** Normalisation of the AI answer *)

(** [x = float(x) if x else d]; the exception of [float] is passed on. *)
Definition coerce (v default : pyval) : result pyval :=
  if truthy v then
    match float v with
    | Ok f => Ok (VFloat f)
    | Raise e => Raise e
    end
  else Ok default.

(** [except (ValueError, TypeError): pass] with the row as it is when the
    exception arrives; any other exception is passed on. *)
Definition pass_value_or_type_error (e : exn) (r : row) : result row :=
  if value_or_type_error e then Ok r else Raise e.

(** The three assignments of the [try] block, in order; a [ValueError] or
    [TypeError] leaves the block, keeping the assignments already made. *)
Definition coerce_numbers (r : row) : result row :=
  match coerce (Price r) (VInt 0) with
  | Raise e => pass_value_or_type_error e r
  | Ok price =>
      let r1 := Row (Date r) (Item r) price (Qty r) (Total r) in
      match coerce (Qty r1) (VInt 1) with
      | Raise e => pass_value_or_type_error e r1
      | Ok qty =>
          let r2 := Row (Date r1) (Item r1) (Price r1) qty (Total r1) in
          match coerce (Total r2) (VInt 0) with
          | Raise e => pass_value_or_type_error e r2
          | Ok total => Ok (Row (Date r2) (Item r2) (Price r2) (Qty r2) total)
          end
      end
  end.

(** The body of the loop for an entry that is a JSON object. *)
Definition normalize_item (date_str : string) (item : list (string * pyval))
  : result row :=
  coerce_numbers
    {| Date := Some (py_str E (dict_get_default item "Date" (VStr date_str)));
       Item := py_str E (dict_get_default item "Item" (VStr "Unknown"));
       Price := dict_get_default item "Price" (VInt 0);
       Qty := dict_get_default item "Qty" (VInt 1);
       Total := dict_get_default item "Total" (VInt 0) |}.

(** The loop over the decoded array: entries that are not objects are
    passed over.  An exception that the [try] block of an entry passes on
    ends the loop, and the rows made so far are lost with it. *)
Fixpoint normalize_items (date_str : string) (entries : list pyval)
  : result (list row) :=
  match entries with
  | [] => Ok []
  | VDict item :: rest =>
      match normalize_item date_str item with
      | Raise e => Raise e
      | Ok r =>
          match normalize_items date_str rest with
          | Raise e => Raise e
          | Ok normalized => Ok (r :: normalized)
          end
      end
  | _ :: rest => normalize_items date_str rest
  end.

(** The outer [try] catches [json.JSONDecodeError] only: any other
    exception of [json.loads] and every exception of the loop leave the
    method. *)
Definition _parse_gemini_json_response (response : string)
  : result (option (list row)) :=
  if negb (str_truthy response) || negb (str_truthy (strip response))
  then Ok None
  else
    match json_loads E response with
    | Ok (Some (VList entries)) =>
        let date_str := strftime_dmy (now E) in
        match normalize_items date_str entries with
        | Raise e => Raise e
        | Ok [] => Ok None
        | Ok normalized => Ok (Some normalized)
        end
    | Ok (Some _) => Ok None      (* not a list *)
    | Ok None => Ok None          (* JSONDecodeError *)
    | Raise e => Raise e
    end.

(** ** Stages that produce line items *)

(** [if items:] for a value that is [None] or a list *)
Definition has_items (its : option (list row)) : bool :=
  match its with
  | Some (_ :: _) => true
  | _ => false
  end.

Definition _parse_receipt_directly_from_image (image_path : string)
  : M (option (list row)) :=
  let* _ := enter (Parse_directly_from_image image_path) in
  match generate_content_with_image E ParsePrompt image_path with
  | None => ret None
  | Some response =>
      if negb (str_truthy response) then ret None
      else lift (_parse_gemini_json_response response)
  end.

(** The loop over the page images of
    [_parse_receipt_directly_from_pdf_image]; an exception of a page ends
    it. *)
Fixpoint parse_pages (pages : list string) (all_items : list row)
  : M (list row) :=
  match pages with
  | [] => ret all_items
  | tmp_path :: rest =>
      let* page_items := _parse_receipt_directly_from_image tmp_path in
      parse_pages rest
        (if has_items page_items
         then (all_items ++ default [] page_items)%list else all_items)
  end.

Definition _parse_receipt_directly_from_pdf_image (pdf_path : string)
  : M (option (list row)) :=
  let* _ := enter (Parse_directly_from_pdf_image pdf_path) in
  if negb (ocr_available E) then ret None
  else
    match convert_from_path E pdf_path with
    | Raise _ => ret None
    | Ok [] => ret None
    | Ok images =>
        (* [except Exception:] around the loop *)
        except_all
          (let* all_items := parse_pages images [] in
           ret (match all_items with [] => None | _ => Some all_items end))
          None
    end.

Definition _parse_receipt_with_gemini (text : string)
  : M (option (list row)) :=
  let* _ := enter (Parse_with_gemini text) in
  match generate_content E text with
  | None => ret None
  | Some response =>
      if negb (str_truthy response) then ret None
      else lift (_parse_gemini_json_response response)
  end.

(** *** Tables *)

(** [str(c or "")] for a cell that is [None] or a string *)
Definition cell_str (c : option string) : string :=
  match c with Some s => s | None => "" end.

(** [dict(zip(headers, cells)).get(key)]: the last column with that header
    wins. *)
Fixpoint zip_get (headers cells : list string) (key : string)
  : option string :=
  match headers, cells with
  | h :: hs, c :: cs =>
      match zip_get hs cs key with
      | Some v => Some v
      | None => if String.eqb h key then Some c else None
      end
  | _, _ => None
  end.

Definition get_or (v : option string) (default : string) : string :=
  match v with Some s => s | None => default end.

Definition opt_truthy (o : option pyfloat) : bool :=
  match o with Some f => float_truthy f | None => false end.

(** [x or d] for [x] a float or [None] *)
Definition float_or (o : option pyfloat) (d : pyval) : pyval :=
  match o with
  | Some f => if float_truthy f then VFloat f else d
  | None => d
  end.

(** [price * qty], where [qty] is a float or the integer 1 *)
Definition times (price : pyfloat) (qty : pyval) : pyval :=
  match qty with
  | VFloat q => VFloat (fmul price q)
  | _ => VFloat (fmul price (fin_of_Z 1))
  end.

(** The body of the loop over the rows below the header. *)
Definition table_row (headers : list string) (cells : list (option string))
  : list row :=
  let get := zip_get headers (map (fun c => strip (cell_str c)) cells) in
  let item :=
    get_or (get "item") (get_or (get "description") (get_or (get "name") "")) in
  let price :=
    _parse_amount (get_or (get "price") (get_or (get "unit price") "")) in
  let qty :=
    float_or (_parse_amount (get_or (get "qty") (get_or (get "quantity") "1")))
             (VInt 1) in
  let total :=
    _parse_amount (get_or (get "total") (get_or (get "amount") "")) in
  if str_truthy item || opt_truthy total then
    [ {| Date := None;
         Item := str_or item "Unknown";
         Price := float_or price (VInt 0);
         Qty := qty;
         Total :=
           float_or total
             (match price with
              | Some p => if float_truthy p then times p qty else VInt 0
              | None => VInt 0
              end) |} ]
  else [].

Definition table_items (table : list (list (option string))) : list row :=
  match table with
  | header :: first :: others =>
      let headers := map (fun h => lower (strip (cell_str h))) header in
      flat_map (table_row headers) (first :: others)
  | _ => []       (* [not table or len(table) < 2] *)
  end.

Definition _extract_items_from_tables (pdf_path : string) : M (list row) :=
  let* _ := enter (Items_from_tables pdf_path) in
  let* tables := lift (pdfplumber_tables E pdf_path) in
  ret (flat_map table_items tables).

(** *** The fallback chain *)

Definition amounts_error : string :=
  "Unable to extract amounts from the receipt due to quality or format issues. "
  ++ "Please ensure the receipt is clear and contains recognizable price/total information.".

(** [if "Date" not in item or not item["Date"]: item["Date"] = date_str] *)
Definition ensure_date (date_str : string) (r : row) : row :=
  match Date r with
  | Some d =>
      if str_truthy d then r
      else Row (Some date_str) (Item r) (Price r) (Qty r) (Total r)
  | None => Row (Some date_str) (Item r) (Price r) (Qty r) (Total r)
  end.

(** The first block of [extract_receipt_data]: direct Gemini Vision to
    JSON, on the image or on the page images of the PDF. *)
Definition direct_parse (file_path : string) : M (option (list row)) :=
  let ext := lower (suffix file_path) in
  if is_image_ext ext then _parse_receipt_directly_from_image file_path
  else if String.eqb ext ".pdf" && ocr_available E
       then _parse_receipt_directly_from_pdf_image file_path
       else ret None.

(** Where the fallback chain ends: one of the two early [return]s, or the
    items and the method with which control reaches the last block. *)
Inductive staged :=
| Returned (o : outcome)
| Produced (its : list row) (method : string).

(** The blocks from the table stage on, with the local variables [items],
    [method] and [text] as they are after the text stage. *)
Definition tables_and_regex (file_path : string) (its : option (list row))
  (method text : string) : M staged :=
  let ext := lower (suffix file_path) in
  (* table extraction for PDFs *)
  let* st :=
    (if negb (has_items its) && String.eqb ext ".pdf" then
       let* tbl := _extract_items_from_tables file_path in
       ret (Some tbl,
            if has_items (Some tbl) then "pdfplumber_tables" else method)
     else ret (its, method)) in
  (* last resort: regex on the extracted text *)
  if negb (has_items (fst st)) then
    let* _ := enter (Totals_from_text text) in
    match _extract_totals_from_text text with
    | amount :: _ =>
        ret (Produced
               [ {| Date := Some (strftime_dmy (now E));
                    Item := "Receipt Total";
                    Price := VFloat amount;
                    Qty := VInt 1;
                    Total := VFloat amount |} ] "regex_fallback")
    | [] => ret (Returned (Outcome [] false (Some amounts_error) "failed"))
    end
  else ret (Produced (default [] (fst st)) (snd st)).

Definition stages (file_path : string) : M staged :=
  let* its := direct_parse file_path in
  let method := if has_items its then "gemini_vision" else "regex_fallback" in
  (* text extraction, then Gemini on the text *)
  if negb (has_items its) then
    let* t := extract_text file_path in
    if negb (snd (fst t)) then
      ret (Returned (Outcome [] false (snd t) "text_extraction_failed"))
    else
      let text := fst (fst t) in
      let* its := _parse_receipt_with_gemini text in
      tables_and_regex file_path its
        (if has_items its then "gemini_text" else method) text
  else tables_and_regex file_path its method "".

Definition extract_receipt_data (file_path : string) : M outcome :=
  let* s := stages file_path in
  match s with
  | Returned o => ret o
  | Produced its method =>
      (* Ensure Date on all items *)
      ret (Outcome (map (ensure_date (strftime_dmy (now E))) its)
             true None method)
  end.

End Extractor.

End PdfService.

(* ===================================================================== *)
(** * services/sheets_service.py                                          *)
(* ===================================================================== *)

Module SheetsService.
Import Py PdfService.

(** ** [update_soa] *)

(** The amount written for a line item: [float(total_val) if total_val
    else 0], and [0] when [float] raises [ValueError] or [TypeError]; any
    other exception leaves the method. *)
Definition soa_amount (item : row) : result pyval :=
  let total_val := Total item in
  if truthy total_val then
    match float total_val with
    | Ok f => Ok (VFloat f)
    | Raise e => if value_or_type_error e then Ok (VInt 0) else Raise e
    end
  else Ok (VInt 0).

(** A row of the sheet: [[item.get("Date", ""), item.get("Item", ""),
    total_val]] *)
Definition soa_row (item : row) : result (list pyval) :=
  match soa_amount item with
  | Raise e => Raise e
  | Ok total_val =>
      Ok [VStr (match Date item with Some d => d | None => "" end);
          VStr (Item item); total_val]
  end.

(** The loop [for item in data] that builds [rows] *)
Fixpoint soa_rows (data : list row) : result (list (list pyval)) :=
  match data with
  | [] => Ok []
  | item :: rest =>
      match soa_row item with
      | Raise e => Raise e
      | Ok r =>
          match soa_rows rest with
          | Raise e => Raise e
          | Ok rows => Ok (r :: rows)
          end
      end
  end.

(** ** Dates *)

(** [s.replace(a, b)] for single characters *)
Definition replace_char (a b : ascii) (l : list ascii) : list ascii :=
  map (fun c => if char_eqb c a then b else c) l.

(** [s.split(sep)] for a single character: the pieces between the
    separators, at least one. *)
Fixpoint split_on (sep : ascii) (l : list ascii) : list (list ascii) :=
  match l with
  | [] => [[]]
  | c :: t =>
      if char_eqb c sep then [] :: split_on sep t
      else
        match split_on sep t with
        | part :: parts => (c :: part) :: parts
        | [] => [[c]]
        end
  end.

(** [int(s)] on a string: white space around it is dropped, a sign may
    come first, then digits, with single underscores between them;
    [None] stands for [ValueError]. *)
Definition int_of_chars (l : list ascii) : option Z :=
  let '(neg, body) := sign_of (strip_chars l) in
  match digitpart body with
  | Some (ds, []) =>
      Some (if neg then (- digits_value ds)%Z else digits_value ds)
  | _ => None
  end.

(** The format [{n:02d}] *)
Definition format_02d (n : Z) : string :=
  if (n <? 0)%Z then "-" ++ pad 1 (Z.to_nat (- n)) else pad 2 (Z.to_nat n).

(** The format [{n}] *)
Definition format_d (n : Z) : string :=
  if (n <? 0)%Z then "-" ++ pad 1 (Z.to_nat (- n)) else pad 1 (Z.to_nat n).

Definition _normalize_date (d : string) : string :=
  if negb (str_truthy d) then ""
  else
    let d := strip d in
    match map int_of_chars
            (split_on "/"%char (replace_char "-"%char "/"%char (chars d)))
    with
    | [Some day; Some month; Some year] =>
        format_02d day ++ "/" ++ format_02d month ++ "/" ++ format_d year
    | _ => d
    end.

Definition _looks_like_date (s : string) : bool :=
  if negb (str_truthy s) || (len s <? 8)%nat then false
  else
    match map int_of_chars
            (split_on "/"%char
               (replace_char "."%char "/"%char
                  (replace_char "-"%char "/"%char (chars s))))
    with
    | [Some d; Some m; Some y] =>
        (1 <=? d)%Z && (d <=? 31)%Z && (1 <=? m)%Z && (m <=? 12)%Z
        && (1900 <=? y)%Z && (y <=? 2100)%Z
    | _ => false
    end.

(** A list of characters that is a number written with digits. *)
Definition digits (l : list ascii) : Prop :=
  l <> [] /\ List.Forall (fun c => is_digit c = true) l.

(** ** [get_user_times_for_date] *)

Definition USER_TO_SHEET : list (string * string) :=
  [ ("Andrew", "Andrew_Time"); ("Anna", "Anna_Time");
    ("Audrey", "Audrey_Time"); ("Jonathan", "Jonathan_Time");
    ("Nathaniel", "Nathaniel_Time") ].

(** The header that [record_meeting] writes into an empty sheet. *)
Definition time_header : list string :=
  ["Date"; "Time Start"; "Time End"; "Duration (mins)"; "Notes"].

(** The loop [for i, h in enumerate(headers)] that looks for the columns
    of the date and of the duration; the last header that fits wins. *)
Fixpoint find_columns (i : nat) (headers : list string) (cols : nat * nat)
  : nat * nat :=
  match headers with
  | [] => cols
  | h :: rest =>
      let date_col :=
        if str_truthy h && contains "date" h then i else fst cols in
      let duration_col :=
        if str_truthy h
           && (contains "duration" h || contains "mins" h || contains "min" h)
        then i else snd cols in
      find_columns (S i) rest (date_col, duration_col)
  end.

(** The body of the loop over the rows: rows that are too short or of
    another date are passed over, and so is a duration that [float] does
    not accept; an empty duration counts as 0. *)
Definition add_row (target_date : string) (cols : nat * nat)
  (total : pyfloat) (row : list string) : pyfloat :=
  let '(date_col, duration_col) := cols in
  if (length row <=? Nat.max date_col duration_col)%nat then total
  else if negb (String.eqb (_normalize_date (nth date_col row "")) target_date)
  then total
  else
    let dur_val := nth duration_col row "" in
    if str_truthy dur_val then
      match float_of_string dur_val with
      | Some f => fadd total f
      | None => total
      end
    else total.

(** The total of one sheet, given by the values of its cells;
    [values[0][0]] raises [IndexError] when the first row is empty. *)
Definition sheet_total (values : list (list string)) (target_date : string)
  : result pyfloat :=
  match values with
  | [] => Ok (fin_of_Z 0)
  | first :: others =>
      let headers := map (fun h => lower (strip h)) first in
      match first with
      | [] => Raise (Exn OtherException "list index out of range")
      | cell :: _ =>
          let first_cell := strip cell in
          let has_header_row :=
            existsb (contains "date") headers
            || negb (_looks_like_date first_cell) in
          let cols :=
            if has_header_row then find_columns 0 headers (0, 3)%nat
            else (0, 3)%nat in
          Ok (fold_left (add_row target_date cols)
                (if has_header_row then others else values) (fin_of_Z 0))
      end
  end.

(** The columns that [sheet_total] uses. *)
Definition columns_of (values : list (list string)) : nat * nat :=
  match values with
  | first :: _ =>
      let headers := map (fun h => lower (strip h)) first in
      if existsb (contains "date") headers
         || negb (_looks_like_date (strip (hd "" first)))
      then find_columns 0 headers (0, 3)%nat
      else (0, 3)%nat
  | [] => (0, 3)%nat
  end.

(** The loop over [USER_TO_SHEET]; [worksheet] gives the values of the
    sheet of a user, if the user has one (no values also when reading them
    fails).  The exception of one sheet ends the loop. *)
Fixpoint user_times (users : list (string * string))
  (worksheet : string -> option (list (list string))) (target_date : string)
  : result (list (string * pyfloat)) :=
  match users with
  | [] => Ok []
  | (user_name, _) :: rest =>
      let total :=
        match worksheet user_name with
        | None => Ok (fin_of_Z 0)
        | Some values => sheet_total values target_date
        end in
      match total with
      | Raise e => Raise e
      | Ok t =>
          match user_times rest worksheet target_date with
          | Raise e => Raise e
          | Ok times => Ok ((user_name, t) :: times)
          end
      end
  end.

Definition get_user_times_for_date
  (worksheet : string -> option (list (list string))) (date_str : string)
  : result (list (string * pyfloat)) :=
  user_times USER_TO_SHEET worksheet (_normalize_date date_str).

End SheetsService.

(* ===================================================================== *)
(** * bot.py                                                              *)
(* ===================================================================== *)

Module Bot.
Import Py PdfService.

(** ** Messages *)

Record document := {
  doc_file_id : string;
  (** [Path(doc.file_name or "").suffix.lower()] is computed by
      [PdfService.suffix] *)
  file_name : option string;
  mime_type : option string
}.

Record photo_size := { photo_file_id : string }.

Record reply_to := { reply_text : option string; reply_caption : option string }.

(** [update.message], with [update.effective_chat.id] *)
Record message := {
  chat_id : Z;
  media_group_id : option string;
  caption : option string;
  reply_to_message : option reply_to;
  msg_document : option document;
  msg_photo : list photo_size
}.

(** [x or ""] for an optional string *)
Definition or_empty (o : option string) : string :=
  match o with Some s => s | None => "" end.

(** [a or b] for optional strings *)
Definition opt_or (a b : option string) : option string :=
  match a with
  | Some s => if str_truthy s then a else b
  | None => b
  end.

Definition _infer_suffix_from_mime (mime_type : string) : string :=
  if negb (str_truthy mime_type) then ""
  else
    let m := lower mime_type in
    if contains "image/jpeg" m || contains "image/jpg" m then ".jpg"
    else if contains "image/png" m then ".png"
    else if contains "image/webp" m then ".webp"
    else if contains "application/pdf" m then ".pdf"
    else "".

Definition is_for_receipt_extraction (msg : message) : bool :=
  if contains "/pdf" (lower (or_empty (caption msg))) then true
  else
    match reply_to_message msg with
    | Some r =>
        contains "/pdf"
          (lower (or_empty (opt_or (reply_text r) (reply_caption r))))
    | None => false
    end.

(** ** The media group collector *)

(** An element of ["items"]: [(file_id, doc, photo, suffix)] *)
Record item := {
  it_file_id : string;
  it_doc : option document;
  it_photo : option photo_size;
  it_suffix : string
}.

(** An entry of [_pending_media_groups]; the ["context"] entry is the
    callback context of the application and is left out. *)
Record group := { g_chat_id : Z; g_items : list item }.

Definition _MEDIA_GROUP_DELAY : Q := 2.5.

(** What leaves the collector. *)
Inductive effect :=
| Aggregate (time : Q) (mg_id : string) (chat : Z) (batch : list item)
    (* [_process_media_group_receipts(context, chat_id, items)] is called *)
| Extract_single (time : Q) (chat : Z) (it : item)
    (* [handle_receipt_extraction] is called *)
| Upload_document (time : Q) (chat : Z)
    (* [handle_document_upload] is called *)
| Reject (time : Q) (chat : Z)
    (* "I only accept PDF, images ... and Word documents." *)
| Processing (time : Q) (chat : Z) (count : nat).
    (* "Processing n receipt(s)..." has been sent *)

(** The event loop as far as the collector is concerned: the clock, the
    registry, the sleeping [_flush_media_group] tasks (wake-up time and
    media group id, in the order in which they were created), what has
    been handed on so far, and the transport. *)
Record world := {
  clock : Q;
  _pending_media_groups : gmap string group;
  timers : list (Q * string);
  effects : list effect;
  (** [context.bot.send_message(chat_id, "Processing n receipt(s)...")] as
      the transport answers it at a given time: the note is sent, or the
      call raises *)
  progress_note : Q -> Z -> nat -> result unit
}.

(** [if mg_id:] *)
Definition mg_truthy (mg : option string) : option string :=
  match mg with
  | Some s => if str_truthy s then Some s else None
  | None => None
  end.

(** The block under [async with _media_group_lock] of both handlers.  The
    lock is never held across a suspension point, so the block is atomic.
    The task created for a new media group starts its sleep at the time of
    the enqueue. *)
Definition enqueue (mg_id : string) (chat : Z) (it : item) (w : world) : world :=
  let '(reg, tms) :=
    match _pending_media_groups w !! mg_id with
    | Some _ => (_pending_media_groups w, timers w)
    | None =>
        (<[mg_id := {| g_chat_id := chat; g_items := [] |}]>
           (_pending_media_groups w),
         (timers w ++ [((clock w + _MEDIA_GROUP_DELAY)%Q, mg_id)])%list)
    end in
  {| clock := clock w;
     _pending_media_groups :=
       alter (fun g => {| g_chat_id := g_chat_id g;
                          g_items := (g_items g ++ [it])%list |}) mg_id reg;
     timers := tms;
     effects := effects w;
     progress_note := progress_note w |}.

Definition emit (e : effect) (w : world) : world :=
  {| clock := clock w;
     _pending_media_groups := _pending_media_groups w;
     timers := timers w;
     effects := (effects w ++ [e])%list;
     progress_note := progress_note w |}.

Definition receipt_exts : list string := [".pdf"; ".jpg"; ".jpeg"; ".png"; ".webp"].

Definition document_ext (doc : document) : string :=
  let ext := lower (suffix (or_empty (file_name doc))) in
  if negb (str_truthy ext) then
    match mime_type doc with
    | Some m => if str_truthy m then _infer_suffix_from_mime m else ext
    | None => ext
    end
  else ext.

Definition handle_document (msg : message) (w : world) : world :=
  match msg_document msg with
  | None => w
  | Some doc =>
      let ext := document_ext doc in
      let mg_id := media_group_id msg in
      let is_receipt :=
        existsb (String.eqb ext) receipt_exts &&
        (is_for_receipt_extraction msg ||
         match mg_truthy mg_id with
         | Some mg => bool_decide (is_Some (_pending_media_groups w !! mg))
         | None => false
         end) in
      let it := {| it_file_id := doc_file_id doc; it_doc := Some doc;
                   it_photo := None; it_suffix := str_or ext ".jpg" |} in
      if is_receipt then
        match mg_truthy mg_id with
        | Some mg => enqueue mg (chat_id msg) it w
        | None => emit (Extract_single (clock w) (chat_id msg) it) w
        end
      else if existsb (String.eqb ext) [".pdf"; ".doc"; ".docx"] then
        emit (Upload_document (clock w) (chat_id msg)) w
      else emit (Reject (clock w) (chat_id msg)) w
  end.

Definition handle_photo_receipt (msg : message) (w : world) : world :=
  match last (msg_photo msg) with
  | None => w
  | Some photo =>
      if negb (is_for_receipt_extraction msg) then w
      else
        let it := {| it_file_id := photo_file_id photo; it_doc := None;
                     it_photo := Some photo; it_suffix := ".jpg" |} in
        match mg_truthy (media_group_id msg) with
        | Some mg => enqueue mg (chat_id msg) it w
        | None => emit (Extract_single (clock w) (chat_id msg) it) w
        end
  end.

(** [_flush_media_group] once its sleep is over, at time [t].  The task
    is not awaited by anybody: when sending the progress note raises, the
    task ends there, after the pop and before the aggregation. *)
Definition _flush_media_group (t : Q) (mg_id : string) (w : world) : world :=
  let data := _pending_media_groups w !! mg_id in
  let w' := {| clock := t;
               _pending_media_groups := delete mg_id (_pending_media_groups w);
               timers := timers w;
               effects := effects w;
               progress_note := progress_note w |} in
  match data with
  | Some g =>
      match g_items g with
      | [] => w'
      | _ :: _ =>
          let n := length (g_items g) in
          match progress_note w t (g_chat_id g) n with
          | Ok _ =>
              emit (Aggregate t mg_id (g_chat_id g) (g_items g))
                (emit (Processing t (g_chat_id g) n) w')
          | Raise _ => w'
          end
      end
  | None => w'
  end.

(** ** The event loop

    A run is driven by the arrival times of the messages.  Before a message
    that arrives at time [t] is handled, every task whose sleep ends at or
    before [t] is resumed, earliest first (all sleeps have the same length,
    so this is the order of [timers]). *)

Definition due (t : Q) (tm : Q * string) : bool := Qle_bool (fst tm) t.

(** The given tasks are resumed, first to last. *)
Definition flush_all (l : list (Q * string)) (w : world) : world :=
  fold_left (fun w tm => _flush_media_group (fst tm) (snd tm) w) l w.

Definition advance (t : Q) (w : world) : world :=
  let w' :=
    flush_all (List.filter (due t) (timers w))
      {| clock := clock w;
         _pending_media_groups := _pending_media_groups w;
         timers := List.filter (fun tm => negb (due t tm)) (timers w);
         effects := effects w;
         progress_note := progress_note w |} in
  {| clock := t;
     _pending_media_groups := _pending_media_groups w';
     timers := timers w';
     effects := effects w';
     progress_note := progress_note w' |}.

(** The dispatcher: [filters.Document.ALL] goes to [handle_document],
    [filters.PHOTO] to [handle_photo_receipt]. *)
Definition dispatch (msg : message) (w : world) : world :=
  match msg_document msg with
  | Some _ => handle_document msg w
  | None => handle_photo_receipt msg w
  end.

Definition deliver (w : world) (ev : Q * message) : world :=
  dispatch (snd ev) (advance (fst ev) w).

Definition run (evs : list (Q * message)) (w : world) : world :=
  fold_left deliver evs w.

(** Let every sleeping task wake up. *)
Definition quiesce (w : world) : world :=
  flush_all (timers w)
    {| clock := clock w;
       _pending_media_groups := _pending_media_groups w;
       timers := [];
       effects := effects w;
       progress_note := progress_note w |}.

(** ** Processing of receipts *)

Definition show_nat (n : nat) : string := NilZero.string_of_uint (Nat.to_uint n).

(** A line of the summary, [date | name | amount]; no amount stands for the
    dash written when the total is not a number. *)
Record summary_line := {
  date_bought : string;
  name : string;
  amount : option pyfloat
}.

Inductive drive_note :=
| Uploaded
| Upload_failed (error : string)
| No_note.

Inductive reply :=
| Not_configured
| Processed (count : nat) (summary : list summary_line) (total : pyfloat)
    (drive : drive_note) (methods : list string) (some_failed : list string)
| All_failed (errors : list string)
| No_data
| Error_reply (msg : string)
| Please_send
| Received
| Timed_out_reply
| Failure_reply (error : option string)
| Extracted (summary : list summary_line) (total : pyfloat)
    (drive : drive_note) (method : string)
| Extracted_plain.

(** The collaborators of the two receipt handlers. *)
Record services := {
  extractor : PdfService.env;
  (** [spreadsheet_id] is set and the credentials file exists *)
  sheets_configured : bool;
  (** the constructor [SheetsService(...)] *)
  sheets_service : result unit;
  (** [context.bot.get_file(file_id)] *)
  get_file : string -> result unit;
  (** [file.download_to_drive(custom_path=tmp.name)] for the file id *)
  download_to_drive : string -> result unit;
  (** the name of the [NamedTemporaryFile(delete=False, suffix=suffix)]
      created for the download of a file id *)
  tmp_name : string -> string -> string;
  (** [asyncio.wait_for(..., timeout=120)] gives up on the extraction of
      this file *)
  timed_out : string -> bool;
  (** the worksheet that [sheets.update_soa] writes to:
      [soa_spreadsheet.sheet1], or the sheet SOA of the main spreadsheet,
      which is created when it is missing *)
  soa_worksheet : result unit;
  (** [worksheet.append_rows(rows, value_input_option="USER_ENTERED")] *)
  worksheet_append_rows : list (list pyval) -> result unit;
  (** [config.get("drive_folder_id")] *)
  drive_folder_id : option string;
  (** [DriveService(...).upload_file(path)] *)
  upload_file : string -> result unit;
  (** [context.bot.send_message(chat_id, text)] and
      [update.message.reply_text(text)]: the message is sent, or the call
      raises *)
  telegram_send : Z -> reply -> result unit
}.

(** [sheets.update_soa(data)]: the worksheet is looked up, the rows are
    built, and they are appended when there are any. *)
Definition update_soa (S : services) (data : list row) : result unit :=
  match soa_worksheet S with
  | Raise e => Raise e
  | Ok _ =>
      match SheetsService.soa_rows data with
      | Raise e => Raise e
      | Ok [] => Ok tt
      | Ok rows => worksheet_append_rows S rows
      end
  end.

(** The part of the outside world the handlers act on: the temporary files
    on disk, the line items of which [update_soa] appended the rows to the
    sheet, the files uploaded to Drive and the messages sent. *)
Record store := {
  tmp_files : gset string;
  sheet : list row;
  drive : list string;
  sent : list (Z * reply)
}.

Definition B (A : Type) : Type := store -> result A * store.

Definition bret {A} (a : A) : B A := fun st => (Ok a, st).
Definition bbind {A C} (m : B A) (f : A -> B C) : B C :=
  fun st =>
    match m st with
    | (Ok a, st') => f a st'
    | (Raise e, st') => (Raise e, st')
    end.
Definition braise {A} (e : exn) : B A := fun st => (Raise e, st).
Definition blift {A} (r : result A) : B A := fun st => (r, st).

Notation "'let!' x ':=' m 'in' k" := (bbind m (fun x => k))
  (at level 10, x name, m at level 200, k at level 200).

(** [tempfile.NamedTemporaryFile(delete=False, ...)] *)
Definition create_tmp (path : string) : B unit :=
  fun st => (Ok tt, {| tmp_files := {[path]} ∪ tmp_files st; sheet := sheet st;
                       drive := drive st; sent := sent st |}).

(** [try: os.unlink(path) except OSError: pass] *)
Definition unlink (path : string) : B unit :=
  fun st => (Ok tt, {| tmp_files := tmp_files st ∖ {[path]}; sheet := sheet st;
                       drive := drive st; sent := sent st |}).

(** What a call of [update_soa] that returns leaves in the sheet. *)
Definition append_rows (rows : list row) : B unit :=
  fun st => (Ok tt, {| tmp_files := tmp_files st; sheet := (sheet st ++ rows)%list;
                       drive := drive st; sent := sent st |}).

Definition uploaded (path : string) : B unit :=
  fun st => (Ok tt, {| tmp_files := tmp_files st; sheet := sheet st;
                       drive := (drive st ++ [path])%list; sent := sent st |}).

Section Handlers.

Variable S : services.

(** [await context.bot.send_message(chat_id, text)] and
    [await update.message.reply_text(text)] *)
Definition send_message (chat : Z) (r : reply) : B unit :=
  fun st =>
    match telegram_send S chat r with
    | Ok _ =>
        (Ok tt, {| tmp_files := tmp_files st; sheet := sheet st;
                   drive := drive st;
                   sent := (sent st ++ [(chat, r)])%list |})
    | Raise e => (Raise e, st)
    end.

(** The file id used for the download: [doc.file_id if doc else
    photo.file_id].  The handlers only build items with a document or a
    photo; for an item with neither the id stored in the item stands in. *)
Definition source_file_id (it : item) : string :=
  match it_doc it, it_photo it with
  | Some d, _ => doc_file_id d
  | None, Some p => photo_file_id p
  | None, None => it_file_id it
  end.

(** The extraction awaited under [asyncio.wait_for]. *)
Definition await_extraction (tmp_path : string) : B outcome :=
  if timed_out S tmp_path then braise (Exn TimeoutError "")
  else blift (fst (extract_receipt_data (extractor S) tmp_path [])).

(** Returns [(items, success, error_msg, extraction_method, tmp_path)]. *)
Definition _process_single_receipt (it : item) : B (outcome * string) :=
  let! _ := blift (get_file S (source_file_id it)) in
  let tmp_path := tmp_name S (source_file_id it) (it_suffix it) in
  let! _ := create_tmp tmp_path in
  let! _ := blift (download_to_drive S (source_file_id it)) in
  fun st =>
    match await_extraction tmp_path st with
    | (Ok o, st') => (Ok (o, tmp_path), st')
    | (Raise e, st') =>
        let '(_, st'') := unlink tmp_path st' in (Raise e, st'')
    end.

(** One turn of the loop that builds the summary: [amt = float(total)] in
    a [try] that catches [TypeError] and [ValueError], for which the line
    shows a dash; any other exception leaves the loop. *)
Definition summary_of (r : row) : result summary_line :=
  let line (amt : option pyfloat) :=
    {| date_bought :=
         strip (match Date r with Some d => d | None => "" end);
       name := strip (Item r);
       amount := amt |} in
  match float (Total r) with
  | Ok f => Ok (line (Some f))
  | Raise e => if value_or_type_error e then Ok (line None) else Raise e
  end.

(** [total_amount += amt], which is not reached for a line with a dash *)
Definition add_amount (total : pyfloat) (l : summary_line) : pyfloat :=
  match amount l with
  | Some amt => fadd total amt
  | None => total
  end.

(** The loop [for it in items] of [handle_receipt_extraction], which builds
    [summary_lines]. *)
Fixpoint summary_lines (its : list row) : result (list summary_line) :=
  match its with
  | [] => Ok []
  | it :: rest =>
      match summary_of it with
      | Raise e => Raise e
      | Ok l =>
          match summary_lines rest with
          | Raise e => Raise e
          | Ok lines => Ok (l :: lines)
          end
      end
  end.

(** The local variables of [_process_media_group_receipts]. *)
Record locals := {
  all_items : list row;
  all_summary_lines : list summary_line;
  total_amount : pyfloat;
  methods_used : list string;
  errors : list string;
  drive_uploaded : bool;
  drive_error : option string
}.

Definition initial : locals :=
  {| all_items := []; all_summary_lines := []; total_amount := fin_of_Z 0;
     methods_used := []; errors := []; drive_uploaded := false;
     drive_error := None |}.

Definition add_error (msg : string) (a : locals) : locals :=
  {| all_items := all_items a; all_summary_lines := all_summary_lines a;
     total_amount := total_amount a; methods_used := methods_used a;
     errors := (errors a ++ [msg])%list; drive_uploaded := drive_uploaded a;
     drive_error := drive_error a |}.

(** [methods_used.add(m)] *)
Definition set_add (m : string) (l : list string) : list string :=
  if existsb (String.eqb m) l then l else (l ++ [m])%list.

(** [all_items.extend(items_data)] and
    [methods_used.add(extraction_method)] *)
Definition add_items (o : outcome) (a : locals) : locals :=
  {| all_items := (all_items a ++ items o)%list;
     all_summary_lines := all_summary_lines a;
     total_amount := total_amount a;
     methods_used := set_add (method o) (methods_used a);
     errors := errors a; drive_uploaded := drive_uploaded a;
     drive_error := drive_error a |}.

(** [total_amount += amt] and [all_summary_lines.append(...)] *)
Definition add_line (l : summary_line) (a : locals) : locals :=
  {| all_items := all_items a;
     all_summary_lines := (all_summary_lines a ++ [l])%list;
     total_amount := add_amount (total_amount a) l;
     methods_used := methods_used a;
     errors := errors a; drive_uploaded := drive_uploaded a;
     drive_error := drive_error a |}.

(** The loop [for it in items_data] of the batch.  An exception that its
    [try] does not catch leaves the loop with the local variables as they
    are then. *)
Fixpoint summarise (its : list row) (a : locals) : locals * option exn :=
  match its with
  | [] => (a, None)
  | it :: rest =>
      match summary_of it with
      | Raise e => (a, Some e)
      | Ok l => summarise rest (add_line l a)
      end
  end.

(** The upload of the receipt to Drive with its own [try ... except]. *)
Definition try_upload (tmp_path : string) (a : locals) : B locals :=
  fun st =>
    match drive_folder_id S with
    | Some folder =>
        if str_truthy folder && str_truthy tmp_path
           && bool_decide (tmp_path ∈ tmp_files st) then
          match upload_file S tmp_path with
          | Ok _ =>
              let '(_, st') := uploaded tmp_path st in
              (Ok {| all_items := all_items a;
                     all_summary_lines := all_summary_lines a;
                     total_amount := total_amount a;
                     methods_used := methods_used a; errors := errors a;
                     drive_uploaded := true; drive_error := drive_error a |},
               st')
          | Raise e =>
              (Ok {| all_items := all_items a;
                     all_summary_lines := all_summary_lines a;
                     total_amount := total_amount a;
                     methods_used := methods_used a; errors := errors a;
                     drive_uploaded := drive_uploaded a;
                     drive_error :=
                       opt_or (drive_error a) (Some (exn_msg e)) |},
               st)
          end
        else (Ok a, st)
    | None => (Ok a, st)
    end.

Definition receipt_tag (i : nat) : string := "Receipt " ++ show_nat (i + 1) ++ ": ".

(** The [try] block of the loop body, entered once
    [_process_single_receipt] has returned: the local variables as the
    block leaves them, and the exception with which it is left, if any. *)
Definition record_outcome (i : nat) (o : outcome) (tmp_path : string)
  (a : locals) (st : store) : locals * option exn * store :=
  if success o && match items o with [] => false | _ => true end then
    match update_soa S (items o) with
    | Raise e => (a, Some e, st)
    | Ok _ =>
        let st1 := snd (append_rows (items o) st) in
        match summarise (items o) (add_items o a) with
        | (a1, Some e) => (a1, Some e, st1)
        | (a1, None) =>
            match try_upload tmp_path a1 st1 with
            | (Ok a2, st2) => (a2, None, st2)
            | (Raise e, st2) => (a1, Some e, st2)
            end
        end
    end
  else
    (add_error
       (receipt_tag i ++
          or_empty (opt_or (error_msg o) (Some "No data extracted"))) a,
     None, st).

(** The two [except] clauses of the loop body. *)
Definition record_exception (i : nat) (e : exn) (a : locals) : locals :=
  match exn_cls e with
  | TimeoutError => add_error (receipt_tag i ++ "Timed out") a
  | _ => add_error (receipt_tag i ++ exn_msg e) a
  end.

(** One turn of the loop [for i, (file_id, doc, photo, suffix) in
    enumerate(items)], with its [try], [except] and [finally] clauses. *)
Definition process_receipt (i : nat) (it : item) (a : locals) : B locals :=
  fun st =>
    match _process_single_receipt it st with
    | (Raise e, st1) =>
        (* [tmp_path] is still [None]: nothing to unlink *)
        (Ok (record_exception i e a), st1)
    | (Ok (o, tmp_path), st1) =>
        let '(a', raised, st2) := record_outcome i o tmp_path a st1 in
        let st3 := if str_truthy tmp_path then snd (unlink tmp_path st2) else st2 in
        match raised with
        | None => (Ok a', st3)
        | Some e => (Ok (record_exception i e a'), st3)
        end
    end.

Fixpoint process_receipts (i : nat) (its : list item) (a : locals) : B locals :=
  match its with
  | [] => bret a
  | it :: rest =>
      let! a' := process_receipt i it a in
      process_receipts (Datatypes.S i) rest a'
  end.

Definition drive_note_of (a : locals) : drive_note :=
  if drive_uploaded a then Uploaded
  else match drive_error a with
       | Some e => if str_truthy e then Upload_failed e else No_note
       | None => No_note
       end.

(** The message sent after the loop. *)
Definition report (count : nat) (a : locals) : reply :=
  match all_summary_lines a with
  | _ :: _ =>
      Processed count (all_summary_lines a) (total_amount a) (drive_note_of a)
        (methods_used a) (errors a)
  | [] =>
      match errors a with
      | _ :: _ => All_failed (errors a)
      | [] => No_data
      end
  end.

Definition _process_media_group_receipts (chat : Z) (its : list item)
  : B unit :=
  fun st =>
    let body : B unit :=
      if negb (sheets_configured S) then send_message chat Not_configured
      else
        let! _ := blift (sheets_service S) in
        let! a := process_receipts 0 its initial in
        send_message chat (report (length its) a) in
    match body st with
    | (Ok _, st') => (Ok tt, st')
    | (Raise e, st') => send_message chat (Error_reply (exn_msg e)) st'
    end.

(** *** A single document *)

(** The upload to Drive of [handle_receipt_extraction]. *)
Definition upload_single (tmp_path : string) : B drive_note :=
  fun st =>
    match drive_folder_id S with
    | Some folder =>
        if str_truthy folder then
          if bool_decide (tmp_path ∈ tmp_files st) then
            match upload_file S tmp_path with
            | Ok _ => let '(_, st') := uploaded tmp_path st in (Ok Uploaded, st')
            | Raise e =>
                (Ok (if str_truthy (exn_msg e)
                     then Upload_failed (exn_msg e) else No_note), st)
            end
          else (Ok No_note, st)
        else (Ok (Upload_failed "drive_folder_id not set in api_keys.json"), st)
    | None => (Ok (Upload_failed "drive_folder_id not set in api_keys.json"), st)
    end.

(** The [try] block of [handle_receipt_extraction], whose [finally]
    clause unlinks the temporary file. *)
Definition extract_and_store (chat : Z) (tmp_path : string) : B unit :=
  fun st =>
    match await_extraction tmp_path st with
    | (Raise e, st1) =>
        match exn_cls e with
        | TimeoutError => send_message chat Timed_out_reply st1
        | _ => (Raise e, st1)
        end
    | (Ok o, st1) =>
        if negb (success o) then
          send_message chat (Failure_reply (error_msg o)) st1
        else
          (let! _ := blift (sheets_service S) in
           let! _ := blift (update_soa S (items o)) in
           let! _ := append_rows (items o) in
           let! note := upload_single tmp_path in
           let! lines := blift (summary_lines (items o)) in
           match lines with
           | _ :: _ =>
               send_message chat
                 (Extracted lines (fold_left add_amount lines (fin_of_Z 0))
                    note (method o))
           | [] => send_message chat Extracted_plain
           end) st1
    end.

Definition handle_receipt_extraction (chat : Z) (doc : option document)
  (photo : option photo_size) (suffix : string) : B unit :=
  fun st =>
    let body : B unit :=
      if negb (sheets_configured S) then send_message chat Not_configured
      else
        match
          match doc, photo with
          | Some d, _ => Some (doc_file_id d)
          | None, Some p => Some (photo_file_id p)
          | None, None => None
          end
        with
        | None => send_message chat Please_send
        | Some fid =>
            let! _ := blift (get_file S fid) in
            let! _ := send_message chat Received in
            let tmp_path := tmp_name S fid suffix in
            let! _ := create_tmp tmp_path in
            let! _ := blift (download_to_drive S fid) in
            fun st =>
              let '(r, st') := extract_and_store chat tmp_path st in
              let '(_, st'') := unlink tmp_path st' in
              (r, st'')
        end in
    match body st with
    | (Ok _, st') => (Ok tt, st')
    | (Raise e, st') => send_message chat (Error_reply (exn_msg e)) st'
    end.

End Handlers.

End Bot.

(* ===================================================================== *)
(** * Stub collaborators                                                  *)
(* ===================================================================== *)

(** Deterministic stand-ins for the engines, used to run the model on
    concrete inputs. *)

Module Stubs.
Import Py PdfService Bot.

Definition repr (v : pyval) : string :=
  match v with
  | VNone => "None"
  | VBool true => "True"
  | VBool false => "False"
  | VInt z => if (z <? 0)%Z then "-" ++ show_nat (Z.abs_nat z) else show_nat (Z.to_nat z)
  | VList [] => "[]"
  | VDict [] => "{}"
  | _ => "<value>"
  end.

(** Every engine answers nothing; OCR tooling is installed. *)
Definition silent : env :=
  {| ocr_available := true;
     path_exists := fun _ => true;
     now := {| day := 3; month := 11; year := 2026 |};
     generate_content_with_image := fun _ _ => None;
     generate_content := fun _ => None;
     json_loads := fun _ => Ok None;
     py_repr := repr;
     pdfplumber_text := fun _ => Ok "";
     pdfplumber_tables := fun _ => Ok [];
     ocr_pdf := fun _ => Ok "";
     ocr_image := fun _ => Ok "";
     convert_from_path := fun _ => Ok [];
     convert_first_page := fun _ => Ok [] |}.

(** [silent] with other answers of Gemini Vision, of Tesseract on images
    and of the JSON decoder. *)
Definition with_vision (vision : prompt -> string -> option string)
  (ocr : string -> result string) (loads : string -> option pyval) : env :=
  {| ocr_available := true;
     path_exists := fun _ => true;
     now := now silent;
     generate_content_with_image := vision;
     generate_content := fun _ => None;
     json_loads := fun r => Ok (loads r);
     py_repr := repr;
     pdfplumber_text := fun _ => Ok "";
     pdfplumber_tables := fun _ => Ok [];
     ocr_pdf := fun _ => Ok "";
     ocr_image := ocr;
     convert_from_path := fun _ => Ok [];
     convert_first_page := fun _ => Ok [] |}.

(** The answer of the vision stub of the end to end scenario, and its
    decoding by [json.loads]. *)
Definition dq : string := String (ascii_of_nat 34) "".

Definition coffee_response : string :=
  "[{" ++ dq ++ "Item" ++ dq ++ ":" ++ dq ++ "Coffee" ++ dq ++ ","
       ++ dq ++ "Price" ++ dq ++ ":4.5,"
       ++ dq ++ "Qty" ++ dq ++ ":1,"
       ++ dq ++ "Total" ++ dq ++ ":4.5}]".

Definition coffee_json : pyval :=
  VList [VDict [("Item", VStr "Coffee"); ("Price", VFloat (Fin 4.5));
                ("Qty", VInt 1); ("Total", VFloat (Fin 4.5))]].

Definition coffee_env : env :=
  with_vision
    (fun p _ => match p with ParsePrompt => Some coffee_response | _ => None end)
    (fun _ => Ok "")
    (fun r => if String.eqb r coffee_response then Some coffee_json else None).

(** Gemini Vision transcribes the receipt but finds no line item. *)
Definition label_text : string := "Total: 42.50 paid in cash, thank you".



Definition label_env : env :=
  with_vision
    (fun p _ => match p with TranscribePrompt => Some label_text | _ => None end)
    (fun _ => Ok "")
    (fun _ => None).

(** Both Gemini Vision and Tesseract can read the image. *)
Definition vision_reading : string := "VISION Coffee 4.50 Total 4.50".
Definition ocr_reading : string := "OCR Coffee 4.50 Total 4.50".

Definition two_readers : env :=
  with_vision
    (fun p _ => match p with TranscribePrompt => Some vision_reading | _ => None end)
    (fun _ => Ok ocr_reading)
    (fun _ => None).

(** Collaborators of the handlers: everything is configured and works;
    the extractor is [coffee_env]. *)
Definition working : services :=
  {| extractor := coffee_env;
     sheets_configured := true;
     sheets_service := Ok tt;
     get_file := fun _ => Ok tt;
     download_to_drive := fun _ => Ok tt;
     tmp_name := fun file_id suffix => "/tmp/tmp_" ++ file_id ++ suffix;
     timed_out := fun _ => false;
     soa_worksheet := Ok tt;
     worksheet_append_rows := fun _ => Ok tt;
     drive_folder_id := Some "folder";
     upload_file := fun _ => Ok tt;
     telegram_send := fun _ _ => Ok tt |}.

(** [working], except that the extraction of the file with id [slow] is
    not finished within the time allowed. *)
Definition one_slow : services :=
  {| extractor := coffee_env;
     sheets_configured := true;
     sheets_service := Ok tt;
     get_file := fun _ => Ok tt;
     download_to_drive := fun _ => Ok tt;
     tmp_name := fun file_id suffix => "/tmp/tmp_" ++ file_id ++ suffix;
     timed_out := fun path => String.eqb path "/tmp/tmp_slow.jpg";
     soa_worksheet := Ok tt;
     worksheet_append_rows := fun _ => Ok tt;
     drive_folder_id := Some "folder";
     upload_file := fun _ => Ok tt;
     telegram_send := fun _ _ => Ok tt |}.

(** [working], except that every download fails. *)
Definition offline : services :=
  {| extractor := coffee_env;
     sheets_configured := true;
     sheets_service := Ok tt;
     get_file := fun _ => Ok tt;
     download_to_drive := fun _ => Raise (Exn OSError "Timed out downloading");
     tmp_name := fun file_id suffix => "/tmp/tmp_" ++ file_id ++ suffix;
     timed_out := fun _ => false;
     soa_worksheet := Ok tt;
     worksheet_append_rows := fun _ => Ok tt;
     drive_folder_id := Some "folder";
     upload_file := fun _ => Ok tt;
     telegram_send := fun _ _ => Ok tt |}.

Definition jpg (file_id : string) : item :=
  {| it_file_id := file_id;
     it_doc := Some {| doc_file_id := file_id;
                       file_name := Some (file_id ++ ".jpg");
                       mime_type := Some "image/jpeg" |};
     it_photo := None;
     it_suffix := ".jpg" |}.

(** A document of an album; the caption carries the trigger or not. *)
Definition album_doc (mg file_id : string) (cap : option string) : message :=
  {| chat_id := 7;
     media_group_id := Some mg;
     caption := cap;
     reply_to_message := None;
     msg_document := Some {| doc_file_id := file_id;
                             file_name := Some (file_id ++ ".jpg");
                             mime_type := Some "image/jpeg" |};
     msg_photo := [] |}.

(** The bot as it starts, with a transport that works. *)
Definition start : world :=
  {| clock := 0; _pending_media_groups := ∅; timers := []; effects := [];
     progress_note := fun _ _ _ => Ok tt |}.

(** The bot as it starts, with a transport that cannot be reached. *)
Definition unreachable : world :=
  {| clock := 0; _pending_media_groups := ∅; timers := []; effects := [];
     progress_note := fun _ _ _ => Raise (Exn OSError "Timed out") |}.

Definition empty_store : store :=
  {| tmp_files := ∅; sheet := []; drive := []; sent := [] |}.


End Stubs.

(* ===================================================================== *)
(** * Vocabulary of the statements                                        *)
(* ===================================================================== *)

Module Vocabulary.
Import Py PdfService Bot.

(** The entries of a decoded array that are JSON objects. *)
Fixpoint objects (entries : list pyval) : list (list (string * pyval)) :=
  match entries with
  | [] => []
  | VDict d :: rest => d :: objects rest
  | _ :: rest => objects rest
  end.

(** An integer that [float] does not convert. *)
Definition overflows (v : pyval) : bool :=
  match v with
  | VInt z => negb (Z.abs z <? float_overflow)%Z
  | _ => false
  end.

(** [float] takes the value: it is falsy, so that the default is used, or
    it is converted. *)
Definition accepted (v : pyval) : bool :=
  negb (truthy v) || match float v with Ok _ => true | Raise _ => false end.

(** The exception of [float] on such an integer. *)
Definition overflow_error : exn :=
  Exn OverflowError "int too large to convert to float".

(** The digits and dots of a value, in their order. *)
Definition digits_and_dots (l : list ascii) : list ascii :=
  List.filter (fun c => is_digit c || char_eqb c "."%char) l.

(** The cell of a table row that [row_dict.get(a, row_dict.get(b, d))]
    finds, where [row_dict] maps the headers to the stripped cells. *)
Definition cell_under (headers : list string) (cells : list (option string))
  (a b d : string) : string :=
  let get := zip_get headers (map (fun c => strip (cell_str c)) cells) in
  get_or (get a) (get_or (get b) d).

(** The name of a table row: the cell under the header item, else under
    description, else under name. *)
Definition name_under (headers : list string) (cells : list (option string))
  : string :=
  let get := zip_get headers (map (fun c => strip (cell_str c)) cells) in
  get_or (get "item") (get_or (get "description") (get_or (get "name") "")).

(** The names of the extraction methods of a success. *)
Definition methods : list string :=
  ["gemini_vision"; "gemini_text"; "pdfplumber_tables"; "regex_fallback"].

(** The sum of the totals as the handlers compute it for their summary. *)
Definition total_sum (its : list row) : result pyfloat :=
  match summary_lines its with
  | Ok lines => Ok (fold_left add_amount lines (fin_of_Z 0))
  | Raise e => Raise e
  end.

(** The item that the regex stage makes of an amount. *)
Definition receipt_total (date : string) (amount : pyfloat) : row :=
  {| Date := Some date; Item := "Receipt Total"; Price := VFloat amount;
     Qty := VInt 1; Total := VFloat amount |}.


(** *** Text recovery as a list of sub-stages

    A sub-stage is given by the methods it enters and the text it yields.
    [first_usable] tries sub-stages in order and stops at the first whose
    text passes the test of [extract_text]. *)

Fixpoint first_usable (plan : list (list call * string))
  : list call * option string :=
  match plan with
  | [] => ([], None)
  | (calls, text) :: rest =>
      if too_short text then
        let '(calls', found) := first_usable rest in
        ((calls ++ calls')%list, found)
      else (calls, Some text)
  end.

Definition text_layer (E : env) (p : string) : list call * string :=
  ([Text_pdfplumber p],
   match pdfplumber_text E p with Ok t => t | Raise _ => "" end).

Definition ocr_of_pdf (E : env) (p : string) : list call * string :=
  ([Text_ocr p], match ocr_pdf E p with Ok t => t | Raise _ => "" end).

Definition ocr_of_image (E : env) (p : string) : list call * string :=
  ([Text_from_image p], match ocr_image E p with Ok t => t | Raise _ => "" end).

Definition transcription (E : env) (image_path : string) : string :=
  match generate_content_with_image E TranscribePrompt image_path with
  | Some t => t
  | None => ""
  end.

Definition vision_of_pdf (E : env) (p : string) : list call * string :=
  match convert_first_page E p with
  | Ok (tmp_path :: _) =>
      ([Text_from_pdf_via_gemini_vision p; Text_via_gemini_vision tmp_path],
       transcription E tmp_path)
  | _ => ([Text_from_pdf_via_gemini_vision p], "")
  end.

Definition vision_of_image (E : env) (p : string) : list call * string :=
  ([Text_via_gemini_vision p], transcription E p).

(** The sub-stages in the order of the code: for a PDF the text layer,
    then OCR, then Gemini Vision; for an image Gemini Vision, then OCR.
    OCR and, for a PDF, Gemini Vision need the OCR tooling. *)
Definition substages (E : env) (p : string) : list (list call * string) :=
  if String.eqb (lower (suffix p)) ".pdf" then
    text_layer E p ::
      (if ocr_available E then [ocr_of_pdf E p; vision_of_pdf E p] else [])
  else
    vision_of_image E p ::
      (if ocr_available E then [ocr_of_image E p] else []).



(** *** The fate of a document in a batch

    What becomes of one element of a batch, read off the collaborators:
    its items are stored, or it fails with a reason. *)

Inductive fate :=
| Stored (o : outcome)
| Failed (reason : string).

(** The text recorded for an exception by the two [except] clauses. *)
Definition reason_of (e : exn) : string :=
  match exn_cls e with
  | TimeoutError => "Timed out"
  | _ => exn_msg e
  end.

Definition fate_of (S : services) (it : item) : fate :=
  let fid := source_file_id it in
  let tmp_path := tmp_name S fid (it_suffix it) in
  match get_file S fid with
  | Raise e => Failed (reason_of e)
  | Ok _ =>
      match download_to_drive S fid with
      | Raise e => Failed (reason_of e)
      | Ok _ =>
          if timed_out S tmp_path then Failed "Timed out"
          else
            match fst (extract_receipt_data (extractor S) tmp_path []) with
            | Raise e => Failed (reason_of e)
            | Ok o =>
                if success o && match items o with [] => false | _ => true end
                then match update_soa S (items o) with
                     | Raise e => Failed (reason_of e)
                     | Ok _ => Stored o
                     end
                else Failed (or_empty (opt_or (error_msg o)
                                         (Some "No data extracted")))
            end
      end
  end.

(** The items of the documents of a batch that succeeded, in the order of
    the batch. *)
Definition batch_items (S : services) (its : list item) : list row :=
  flat_map (fun it => match fate_of S it with
                      | Stored o => items o
                      | Failed _ => []
                      end) its.

(** The error entries of a batch whose first element has position [i]
    (counted from 0): one entry for every document that failed, tagged with
    its position counted from 1. *)
Fixpoint batch_errors (S : services) (i : nat) (its : list item)
  : list string :=
  match its with
  | [] => []
  | it :: rest =>
      match fate_of S it with
      | Stored _ => batch_errors S (Datatypes.S i) rest
      | Failed reason =>
          (receipt_tag i ++ reason) :: batch_errors S (Datatypes.S i) rest
      end
  end.

Definition failed (S : services) (it : item) : bool :=
  match fate_of S it with Failed _ => true | Stored _ => false end.

(** *** The collector seen from one media group *)

(** The tuple that [handle_document] appends for a message. *)
Definition item_of (msg : message) : list item :=
  match msg_document msg with
  | Some doc =>
      [ {| it_file_id := doc_file_id doc; it_doc := Some doc;
           it_photo := None; it_suffix := str_or (document_ext doc) ".jpg" |} ]
  | None => []
  end.

Definition in_group (mg : string) (msg : message) : bool :=
  match media_group_id msg with
  | Some s => String.eqb s mg
  | None => false
  end.

(** The message carries a document with one of the receipt extensions. *)
Definition receipt_document (msg : message) : bool :=
  match msg_document msg with
  | Some doc => existsb (String.eqb (document_ext doc)) receipt_exts
  | None => false
  end.

(** The aggregations started for a media group: time, chat and batch. *)
Definition aggregates_of (mg : string) (effs : list effect)
  : list (Q * Z * list item) :=
  flat_map (fun e =>
    match e with
    | Aggregate t g c b => if String.eqb g mg then [(t, c, b)] else []
    | _ => []
    end) effs.

(** The sleeping tasks of a media group. *)
Definition timers_of (mg : string) (tms : list (Q * string))
  : list (Q * string) :=
  List.filter (fun tm => String.eqb (snd tm) mg) tms.

(** The media group is neither registered nor awaited. *)
Definition idle (mg : string) (w : world) : Prop :=
  _pending_media_groups w !! mg = None /\ timers_of mg (timers w) = [].

(** Arrival times do not decrease. *)
Fixpoint in_order (t : Q) (evs : list (Q * message)) : Prop :=
  match evs with
  | [] => True
  | ev :: rest => (t <= fst ev)%Q /\ in_order (fst ev) rest
  end.

(** The entries of the answer of the end to end scenario. *)
Definition coffee : list pyval :=
  [VDict [("Item", VStr "Coffee"); ("Price", VFloat (Fin 4.5));
          ("Qty", VInt 1); ("Total", VFloat (Fin 4.5))]].

End Vocabulary.

(* ===================================================================== *)
(** * The collector as a machine                                          *)
(* ===================================================================== *)

Module Machine.
Import Py PdfService Bot Vocabulary.

(** The registry and the sleeping tasks agree on a media group: a
    registered group has collected something and has exactly one task, a
    group that is not registered has none. *)
Definition registered_ok (w : world) (mg : string) : Prop :=
  match _pending_media_groups w !! mg with
  | Some g => g_items g <> [] /\ exists t, timers_of mg (timers w) = [(t, mg)]
  | None => timers_of mg (timers w) = []
  end.

Definition consistent (w : world) : Prop := forall mg, registered_ok w mg.

(** The tuple that [handle_photo_receipt] appends for a message. *)
Definition photo_item_of (msg : message) : list item :=
  match last (msg_photo msg) with
  | Some photo =>
      [ {| it_file_id := photo_file_id photo; it_doc := None;
           it_photo := Some photo; it_suffix := ".jpg" |} ]
  | None => []
  end.

(** What a message adds to its media group while the group is registered:
    a document with a receipt extension, or a photo with the trigger. *)
Definition joining (msg : message) : list item :=
  match msg_document msg with
  | Some _ => if receipt_document msg then item_of msg else []
  | None => if is_for_receipt_extraction msg then photo_item_of msg else []
  end.

(** What a message adds to its media group while the group is not
    registered: nothing without the trigger. *)
Definition opening (msg : message) : list item :=
  if is_for_receipt_extraction msg then joining msg else [].

(** What is collected for a media group from the arrivals while it is
    registered, in arrival order. *)
Definition collected (mg : string) (evs : list (Q * message)) : list item :=
  flat_map (fun ev => if in_group mg (snd ev) then joining (snd ev) else [])
    evs.

(** A batch with the time at which it is handed on and its chat. *)
Definition batch : Type := Q * Z * list item.

(** The transport, as the collector uses it: what becomes of the progress
    note for a chat and a number of receipts at a given time. *)
Definition transport : Type := Q -> Z -> nat -> result unit.

(** A batch whose time has come is handed on when its progress note can be
    sent, and is lost otherwise. *)
Definition handed (note : transport) (b : batch) : list batch :=
  let '(tf, c, acc) := b in
  match note tf c (length acc) with
  | Ok _ => [b]
  | Raise _ => []
  end.

(** One media group as a machine of its own.  Its state is the batch in the
    making, if any.  When a message of the group arrives, a batch whose
    time has come is handed on first ([settle]); then the message joins the
    batch in the making or opens a new one ([arrive]).  At the end the batch
    in the making is handed on. *)
Definition settle (note : transport) (t : Q) (s : option batch)
  : option batch * list batch :=
  match s with
  | Some (tf, c, acc) =>
      if Qle_bool tf t then (None, handed note (tf, c, acc)) else (s, [])
  | None => (None, [])
  end.

Definition arrive (t : Q) (msg : message) (s : option batch) : option batch :=
  match s with
  | Some (tf, c, acc) => Some (tf, c, (acc ++ joining msg)%list)
  | None =>
      match opening msg with
      | [] => None
      | its => Some ((t + _MEDIA_GROUP_DELAY)%Q, chat_id msg, its)
      end
  end.

Fixpoint batches (note : transport) (mg : string) (s : option batch)
  (evs : list (Q * message)) : list batch :=
  match evs with
  | [] => match s with Some b => handed note b | None => [] end
  | ev :: rest =>
      if in_group mg (snd ev) then
        let '(s1, out) := settle note (fst ev) s in
        (out ++ batches note mg (arrive (fst ev) (snd ev) s1) rest)%list
      else batches note mg s rest
  end.

(** How a state of the event loop stands for a state of the machine of a
    media group at time [t], with [out] handed on before: the batch is
    registered with its task, or its task has already run. *)
Definition stands_for (mg : string) (w : world) (s : option batch) (t : Q)
  (out : list batch) : Prop :=
  match s with
  | None =>
      _pending_media_groups w !! mg = None /\
      timers_of mg (timers w) = [] /\
      aggregates_of mg (effects w) = out
  | Some (tf, c, acc) =>
      acc <> [] /\
      ((_pending_media_groups w !! mg
          = Some {| g_chat_id := c; g_items := acc |} /\
        timers_of mg (timers w) = [(tf, mg)] /\
        aggregates_of mg (effects w) = out) \/
       ((tf <= t)%Q /\
        _pending_media_groups w !! mg = None /\
        timers_of mg (timers w) = [] /\
        aggregates_of mg (effects w)
          = (out ++ handed (progress_note w) (tf, c, acc))%list))
  end.

(** A photo message without the trigger. *)
Definition untriggered_photo (msg : message) : bool :=
  match msg_document msg with
  | Some _ => false
  | None => negb (is_for_receipt_extraction msg)
  end.

(** A photo of an album; the caption carries the trigger or not. *)
Definition album_photo (mg file_id : string) (cap : option string) : message :=
  {| chat_id := 7;
     media_group_id := Some mg;
     caption := cap;
     reply_to_message := None;
     msg_document := None;
     msg_photo := [ {| photo_file_id := file_id |} ] |}.

End Machine.

(* ===================================================================== *)
(** * The ledger of a batch                                               *)
(* ===================================================================== *)

Module Ledger.
Import Py PdfService Bot Vocabulary.

(** The files that the loop of [_process_media_group_receipts] uploads to
    Drive for one element of the batch: the temporary file of a document
    whose items were stored, when a folder is configured and the upload
    does not raise. *)
Definition uploads (S : services) (it : item) : list string :=
  let tmp_path := tmp_name S (source_file_id it) (it_suffix it) in
  match fate_of S it with
  | Stored _ =>
      match drive_folder_id S with
      | Some folder =>
          if str_truthy folder && str_truthy tmp_path then
            match upload_file S tmp_path with
            | Ok _ => [tmp_path]
            | Raise _ => []
            end
          else []
      | None => []
      end
  | Failed _ => []
  end.

(** The reply of a batch of which nothing was stored. *)
Definition nothing_stored (S : services) (its : list item) : reply :=
  match its with
  | [] => No_data
  | _ :: _ => All_failed (batch_errors S 0 its)
  end.

End Ledger.

(* ===================================================================== *)
(** * The stages of the extractor, seen from outside                      *)
(* ===================================================================== *)

Module Stages.
Import Py PdfService Bot Vocabulary.

(** No character of the text is a digit. *)
Definition no_digit (l : list ascii) : Prop :=
  List.Forall (fun c => is_digit c = false) l.




(** What [_parse_receipt_directly_from_image] returns for an image, or the
    exception that it raises. *)
Definition page_answer (E : env) (image_path : string)
  : result (option (list row)) :=
  match generate_content_with_image E ParsePrompt image_path with
  | None => Ok None
  | Some response =>
      if negb (str_truthy response) then Ok None
      else _parse_gemini_json_response E response
  end.

(** What a page adds to the items of a PDF: [if page_items:
    all_items.extend(page_items)]. *)
Definition page_items (E : env) (image_path : string) : list row :=
  match page_answer E image_path with
  | Ok its => if has_items its then default [] its else []
  | Raise _ => []
  end.

(** The page can be parsed: the parser of its answer does not raise. *)
Definition page_parses (E : env) (image_path : string) : Prop :=
  exists its, page_answer E image_path = Ok its.

(** [all_items if all_items else None] *)
Definition or_none (l : list row) : option (list row) :=
  match l with [] => None | _ :: _ => Some l end.

(** Where the items of a successful outcome come from. *)
Inductive origin (E : env) (file_path : string) (o : outcome) : Prop :=
| From_vision (its : list row) (tr tr1 : list call) :
    method o = "gemini_vision" ->
    direct_parse E file_path tr = (Ok (Some its), tr1) ->
    items o = map (ensure_date (strftime_dmy (now E))) its ->
    origin E file_path o
| From_text (text : string) (its : list row) (tr1 tr2 tr3 : list call) :
    method o = "gemini_text" ->
    extract_text E file_path tr1 = (Ok (text, true, None), tr2) ->
    _parse_receipt_with_gemini E text tr2 = (Ok (Some its), tr3) ->
    items o = map (ensure_date (strftime_dmy (now E))) its ->
    origin E file_path o
| From_tables (tables : list (list (list (option string)))) :
    method o = "pdfplumber_tables" ->
    lower (suffix file_path) = ".pdf" ->
    pdfplumber_tables E file_path = Ok tables ->
    items o = map (ensure_date (strftime_dmy (now E)))
                (flat_map table_items tables) ->
    origin E file_path o
| From_regex (text : string) (amount : pyfloat) (others : list pyfloat)
    (tr1 tr2 : list call) :
    method o = "regex_fallback" ->
    extract_text E file_path tr1 = (Ok (text, true, None), tr2) ->
    _extract_totals_from_text text = amount :: others ->
    flt (fin_of_Z 0) amount = true ->
    items o = [receipt_total (strftime_dmy (now E)) amount] ->
    origin E file_path o.

(** The list is empty or does not start with white space. *)
Definition clean_head (l : list ascii) : Prop :=
  match l with
  | c :: _ => is_space c = false
  | [] => True
  end.

(** [coffee_env] for a PDF of two pages, of which the second one shows the
    receipt. *)
Definition two_pages : env :=
  {| ocr_available := true;
     path_exists := fun _ => true;
     now := now Stubs.silent;
     generate_content_with_image := fun p path =>
       match p with
       | ParsePrompt =>
           if String.eqb path "/tmp/page2.png"
           then Some Stubs.coffee_response else None
       | TranscribePrompt => None
       end;
     generate_content := fun _ => None;
     json_loads := fun r =>
       if String.eqb r Stubs.coffee_response
       then Ok (Some Stubs.coffee_json) else Ok None;
     py_repr := Stubs.repr;
     pdfplumber_text := fun _ => Ok "";
     pdfplumber_tables := fun _ => Ok [];
     ocr_pdf := fun _ => Ok "";
     ocr_image := fun _ => Ok "";
     convert_from_path := fun _ => Ok ["/tmp/page1.png"; "/tmp/page2.png"];
     convert_first_page := fun _ => Ok ["/tmp/page1.png"] |}.

(** The answer of the vision stub for a receipt whose price is an integer
    beyond the range of a float, and its decoding by [json.loads]. *)
Definition huge_response : string := "[huge]".

(** An answer that is nested too deeply for the decoder. *)
Definition nested_response : string := "[[[[nested]]]]".

Definition huge_json : pyval :=
  VList [VDict [("Item", VStr "Gadget"); ("Price", VInt (2 ^ 1024));
                ("Total", VStr "N/A")]].

(** A PDF of three pages, of which the first and the third show the
    coffee receipt and the second one the receipt with the huge price. *)
Definition huge_second_page : env :=
  {| ocr_available := true;
     path_exists := fun _ => true;
     now := now Stubs.silent;
     generate_content_with_image := fun p path =>
       match p with
       | ParsePrompt =>
           if String.eqb path "/tmp/page2.png" then Some huge_response
           else Some Stubs.coffee_response
       | TranscribePrompt => None
       end;
     generate_content := fun _ => None;
     json_loads := fun r =>
       if String.eqb r Stubs.coffee_response then Ok (Some Stubs.coffee_json)
       else if String.eqb r huge_response then Ok (Some huge_json)
       else if String.eqb r nested_response
            then Raise (Exn OtherException "maximum recursion depth exceeded")
       else Ok None;
     py_repr := Stubs.repr;
     pdfplumber_text := fun _ => Ok "";
     pdfplumber_tables := fun _ => Ok [];
     ocr_pdf := fun _ => Ok "";
     ocr_image := fun _ => Ok "";
     convert_from_path := fun _ =>
       Ok ["/tmp/page1.png"; "/tmp/page2.png"; "/tmp/page3.png"];
     convert_first_page := fun _ => Ok ["/tmp/page1.png"] |}.

(** [silent], except that pdfplumber cannot open the file. *)
Definition unreadable : env :=
  {| ocr_available := true;
     path_exists := fun _ => true;
     now := now Stubs.silent;
     generate_content_with_image := fun _ _ => None;
     generate_content := fun _ => None;
     json_loads := fun _ => Ok None;
     py_repr := Stubs.repr;
     pdfplumber_text := fun _ => Raise (Exn OtherException "No /Root object!");
     pdfplumber_tables := fun _ => Ok [];
     ocr_pdf := fun _ => Ok "";
     ocr_image := fun _ => Ok "";
     convert_from_path := fun _ => Ok [];
     convert_first_page := fun _ => Ok [] |}.

End Stages.

(* ===================================================================== *)
(** * bot.py: meetings and uploads                                        *)
(* ===================================================================== *)

Module Commands.
Import Py PdfService Bot.

(** The replies of these handlers are recorded as sent: what a handler
    does when [reply_text] itself raises is not part of this model. *)

(** ** /start_meeting and /end_meeting *)

(** A point in time, [datetime.now()], in seconds. *)
Definition datetime : Type := Q.

(** How the [try] block of [end_meeting] ends: the branch taken and the
    message sent there. *)
Inductive recorded :=
| Sheets_not_configured
| Meeting_ended (duration_mins : Q)
| Api_not_enabled
| Permission_denied (email : string)
| Error_updating (err_msg : string).

Inductive meeting_reply :=
| Already_active (user_name : string)
| Meeting_started (user_name : string) (at_time : datetime)
| Not_active (user_name : string)
| After_recording (r : recorded).

(** The global [active_meetings], [{chat_id: {user_id: start_time}}], and
    the replies sent. *)
Record meetings := {
  active_meetings : gmap Z (gmap Z datetime);
  replied : list (Z * meeting_reply)
}.

Definition send_reply (chat : Z) (r : meeting_reply) (s : meetings) : meetings :=
  {| active_meetings := active_meetings s;
     replied := (replied s ++ [(chat, r)])%list |}.

(** [now] is the value of [datetime.now()] in the handler, [user_name] that
    of [get_user_display_name(update)]. *)
Definition start_meeting (chat_id user_id : Z) (user_name : string)
  (now : datetime) (s : meetings) : meetings :=
  (* if chat_id not in active_meetings: active_meetings[chat_id] = {} *)
  let am :=
    match active_meetings s !! chat_id with
    | Some _ => active_meetings s
    | None => <[chat_id := ∅]> (active_meetings s)
    end in
  let of_chat := default ∅ (am !! chat_id) in
  match of_chat !! user_id with
  | Some _ =>
      send_reply chat_id (Already_active user_name)
        {| active_meetings := am; replied := replied s |}
  | None =>
      send_reply chat_id (Meeting_started user_name now)
        {| active_meetings := <[chat_id := <[user_id := now]> of_chat]> am;
           replied := replied s |}
  end.

(** [record] stands for the [try] block, which is given the start and the
    end of the meeting and does not touch [active_meetings]. *)
Definition end_meeting (record : datetime -> datetime -> recorded)
  (chat_id user_id : Z) (user_name : string) (now : datetime) (s : meetings)
  : meetings :=
  match active_meetings s !! chat_id with
  | None => send_reply chat_id (Not_active user_name) s
  | Some of_chat =>
      match of_chat !! user_id with
      | None => send_reply chat_id (Not_active user_name) s
      | Some time_start =>
          (* time_start = active_meetings[chat_id].pop(user_id) *)
          let rest := delete user_id of_chat in
          (* if not active_meetings[chat_id]: del active_meetings[chat_id] *)
          let am :=
            if bool_decide (rest = ∅) then delete chat_id (active_meetings s)
            else <[chat_id := rest]> (active_meetings s) in
          send_reply chat_id (After_recording (record time_start now))
            {| active_meetings := am; replied := replied s |}
      end
  end.

(** The start time of the meeting of a user in a chat, if one is active. *)
Definition active (s : meetings) (chat_id user_id : Z) : option datetime :=
  match active_meetings s !! chat_id with
  | Some of_chat => of_chat !! user_id
  | None => None
  end.

(** No chat is registered without a meeting. *)
Definition no_empty_chat (s : meetings) : Prop :=
  forall chat_id of_chat,
    active_meetings s !! chat_id = Some of_chat -> of_chat <> ∅.

(** ** [handle_document_upload] *)

Inductive upload_reply :=
| Only_pdf_and_word
| Drive_not_configured
| File_uploaded (folder_name : string)
| Error_uploading_reply (msg : string).

(** The collaborators of [handle_document_upload]. *)
Record uploader := {
  (** [load_config()], and whether [drive_folder_id] is set and the
      credentials file exists *)
  drive_configured : result bool;
  (** [context.bot.get_file(doc.file_id)] *)
  up_get_file : string -> result unit;
  (** [file.download_to_drive(custom_path=tmp.name)] *)
  up_download : string -> result unit;
  (** the name of the [NamedTemporaryFile(delete=False, suffix=ext)] *)
  up_tmp_name : string -> string -> string;
  (** [DriveService(creds_path, drive_folder_id).upload_file(tmp_path)] *)
  up_upload_file : string -> result unit;
  (** [datetime.now()] *)
  up_now : date
}.

(** The temporary files on disk, the files uploaded to Drive and the
    replies sent. *)
Record disk := {
  files : gset string;
  in_drive : list string;
  answers : list (Z * upload_reply)
}.

Definition answer (chat : Z) (r : upload_reply) (d : disk) : disk :=
  {| files := files d; in_drive := in_drive d;
     answers := (answers d ++ [(chat, r)])%list |}.

(** [Path(doc.file_name or "document").suffix.lower()] *)
Definition upload_ext (doc : document) : string :=
  lower (suffix (str_or (or_empty (file_name doc)) "document")).

Definition upload_exts : list string := [".pdf"; ".doc"; ".docx"].

(** The handler with its [try], [finally] and [except] clauses; the file
    created by [NamedTemporaryFile] exists when [os.unlink] is reached. *)
Definition handle_document_upload (U : uploader) (chat : Z)
  (doc : option document) (d : disk) : disk :=
  match doc with
  | None => d
  | Some doc =>
      let ext := upload_ext doc in
      if negb (existsb (String.eqb ext) upload_exts) then
        answer chat Only_pdf_and_word d
      else
        match drive_configured U with
        | Raise e => answer chat (Error_uploading_reply (exn_msg e)) d
        | Ok false => answer chat Drive_not_configured d
        | Ok true =>
            match up_get_file U (doc_file_id doc) with
            | Raise e => answer chat (Error_uploading_reply (exn_msg e)) d
            | Ok _ =>
                let tmp_path := up_tmp_name U (doc_file_id doc) ext in
                let created :=
                  {| files := {[tmp_path]} ∪ files d; in_drive := in_drive d;
                     answers := answers d |} in
                match up_download U (doc_file_id doc) with
                | Raise e =>
                    answer chat (Error_uploading_reply (exn_msg e)) created
                | Ok _ =>
                    match up_upload_file U tmp_path with
                    | Ok _ =>
                        {| files := files created ∖ {[tmp_path]};
                           in_drive := (in_drive d ++ [tmp_path])%list;
                           answers :=
                             (answers d
                                ++ [(chat, File_uploaded (strftime_dmy (up_now U)))])%list |}
                    | Raise e =>
                        answer chat (Error_uploading_reply (exn_msg e))
                          {| files := files created ∖ {[tmp_path]};
                             in_drive := in_drive d; answers := answers d |}
                    end
                end
            end
        end
  end.

(** ** [_parse_user_name] *)

(** [config.USER_MAPPING], in the order of the dictionary *)
Definition USER_MAPPING : list (string * string) :=
  [ ("andrew", "Andrew"); ("anna", "Anna"); ("audrey", "Audrey");
    ("jonathan", "Jonathan"); ("nathaniel", "Nathaniel") ].

(** [s.lstrip(x)] for a single character *)
Fixpoint lstrip_char (x : ascii) (l : list ascii) : list ascii :=
  match l with
  | c :: t => if char_eqb c x then lstrip_char x t else l
  | [] => []
  end.

(** The loop [for key, display in USER_MAPPING.items()] with its test
    [key in s or s in key]. *)
Fixpoint first_match (s : string) (mapping : list (string * string))
  : option string :=
  match mapping with
  | [] => None
  | (key, display) :: rest =>
      if contains key s || contains s key then Some display
      else first_match s rest
  end.

(** [str(s).strip().lstrip("@").lower()] *)
Definition user_key (s : string) : string :=
  lower (str (lstrip_char "@"%char (chars (strip s)))).

Definition _parse_user_name (s : string) : option string :=
  if negb (str_truthy s) then None
  else
    let s := user_key s in
    match first_match s USER_MAPPING with
    | Some display => Some display
    | None =>
        (* Direct match *)
        if String.eqb s "andrew" then Some "Andrew"
        else if String.eqb s "anna" then Some "Anna"
        else if String.eqb s "audrey" then Some "Audrey"
        else if String.eqb s "jonathan" then Some "Jonathan"
        else if String.eqb s "nathaniel" then Some "Nathaniel"
        else None
    end.

(** Collaborators that work. *)
Definition uploads_work : uploader :=
  {| drive_configured := Ok true;
     up_get_file := fun _ => Ok tt;
     up_download := fun _ => Ok tt;
     up_tmp_name := fun file_id ext => "/tmp/tmp_" ++ file_id ++ ext;
     up_upload_file := fun _ => Ok tt;
     up_now := now Stubs.silent |}.

Definition empty_disk : disk := {| files := ∅; in_drive := []; answers := [] |}.

Definition no_meetings : meetings := {| active_meetings := ∅; replied := [] |}.

End Commands.

(* ===================================================================== *)
(** * Properties                                                          *)
(* ===================================================================== *)

Import Py PdfService Bot Vocabulary.
Import Machine Stages.

(** ** Amounts *)

(** A character that [_parse_amount] keeps. *)
Lemma amount_char c :
  is_digit c || char_eqb c "."%char = true ->
  char_eqb c "-"%char = false /\ char_eqb c "+"%char = false /\
  Ascii.eqb (lower_char c) "i"%char = false /\
  Ascii.eqb (lower_char c) "n"%char = false.
Proof.
  destruct c as [b0 b1 b2 b3 b4 b5 b6 b7].
  destruct b0, b1, b2, b3, b4, b5, b6, b7; vm_compute; intros H;
    try discriminate H; repeat split.
Qed.

Lemma clean_amount_chars l :
  List.Forall (fun c => is_digit c || char_eqb c "."%char = true)
    (clean_amount l).
Proof.
  apply List.Forall_forall. intros c Hin. unfold clean_amount in Hin.
  apply List.filter_In in Hin. apply Hin.
Qed.

Lemma lstrip_chars_suffix l : exists pre, l = (pre ++ lstrip_chars l)%list.
Proof.
  induction l as [|c t [pre IH]]; [exists []; reflexivity|].
  cbn [lstrip_chars]. destruct (is_space c).
  - exists (c :: pre). cbn. rewrite <- IH. reflexivity.
  - exists []. reflexivity.
Qed.

Lemma lstrip_chars_Forall (P : ascii -> Prop) l :
  List.Forall P l -> List.Forall P (lstrip_chars l).
Proof.
  intros H. destruct (lstrip_chars_suffix l) as [pre Hl].
  rewrite Hl in H. apply List.Forall_app in H. apply H.
Qed.

Lemma strip_chars_Forall (P : ascii -> Prop) l :
  List.Forall P l -> List.Forall P (strip_chars l).
Proof.
  intros H. unfold strip_chars.
  apply List.Forall_rev, lstrip_chars_Forall, List.Forall_rev,
    lstrip_chars_Forall, H.
Qed.

Lemma digits_value_nonneg ds : (0 <= digits_value ds)%Z.
Proof.
  unfold digits_value.
  assert (H : forall acc, (0 <= acc)%Z ->
            (0 <= fold_left (fun acc c => acc * 10 + digit_val c) ds acc)%Z).
  { induction ds as [|c t IH]; intros acc Hacc; [exact Hacc|].
    cbn [fold_left]. apply IH. unfold digit_val. lia. }
  apply H. lia.
Qed.

Lemma scale10_nonneg m e : (0 <= m)%Z -> (0 <= scale10 m e)%Q.
Proof.
  intros Hm. unfold scale10. destruct (0 <=? e)%Z eqn:He.
  - rewrite Qred_correct. unfold Qle. cbn.
    assert (0 <= 10 ^ e)%Z by (apply Z.pow_nonneg; lia). nia.
  - rewrite Qred_correct. unfold Qle. cbn. lia.
Qed.

(** The amount that [_parse_amount] finds is a number that is not
    negative. *)
Lemma _parse_amount_value value f :
  _parse_amount value = Some f -> exists q, f = Fin q /\ (0 <= q)%Q.
Proof.
  unfold _parse_amount. destruct (negb (str_truthy value)); [discriminate|].
  pose proof (clean_amount_chars (chars value)) as Hc.
  apply (strip_chars_Forall _ _) in Hc.
  unfold float_of_chars.
  destruct (strip_chars (clean_amount (chars value))) as [|c body].
  - cbn. discriminate.
  - inversion Hc as [|? ? Hhead Hbody]; subst.
    destruct (amount_char c Hhead) as (Hminus & Hplus & Hi & Hn).
    cbn [sign_of]. rewrite Hminus, Hplus.
    cbn [map str string_of_list_ascii String.eqb].
    rewrite Hi, Hn. cbn [orb].
    destruct (number (c :: body)) as [[[ip fp] r]|]; [|discriminate].
    destruct (exponent r) as [e|]; [|discriminate].
    intros [= <-]. eexists. split; [reflexivity|].
    apply scale10_nonneg, digits_value_nonneg.
Qed.

Lemma fin_nonneg_flt q : (0 <= q)%Q -> flt (Fin q) (fin_of_Z 0) = false.
Proof.
  intros Hq. unfold flt, fin_of_Z.
  destruct (Qle_bool q (0 # 1)) eqn:Hle; [|reflexivity].
  apply Qle_bool_iff in Hle.
  assert (Heq : (q == 0 # 1)%Q) by (apply Qle_antisym; assumption).
  apply Qeq_bool_iff in Heq. rewrite Heq. reflexivity.
Qed.

(** X12.  [_parse_amount] never yields a negative amount, nor NaN: every
    character other than a digit or a dot is dropped, a minus sign like a
    currency symbol, so a value with a minus sign in front is read like
    the value without it. *)
Theorem parse_amount_never_negative value :
  (forall f, _parse_amount value = Some f ->
             flt f (fin_of_Z 0) = false /\ f <> NaN) /\
  (value <> "" -> _parse_amount ("-" ++ value) = _parse_amount value).
Proof.
  split.
  - intros f Hf. destruct (_parse_amount_value value f Hf) as (q & -> & Hq).
    split; [apply fin_nonneg_flt; exact Hq | discriminate].
  - intros Hne. unfold _parse_amount.
    destruct value as [|c v]; [congruence|]. reflexivity.
Qed.

Lemma parse_amount_never_negative_witness :
  _parse_amount "-5.00" = _parse_amount "5.00" /\
  _parse_amount "-5.00" = Some (Fin (Qred 5)).
Proof.
  destruct (parse_amount_never_negative "5.00") as [_ Hsign].
  split; [apply Hsign; discriminate | reflexivity].
Defined.

(** ** The table stage *)

Lemma float_or_number o d :
  d = VInt 0 \/ d = VInt 1 ->
  (forall f, o = Some f -> exists q, f = Fin q /\ (0 <= q)%Q) ->
  exists q, float (float_or o d) = Ok (Fin q) /\ (0 <= q)%Q.
Proof.
  intros Hd Ho.
  assert (Hfd : exists q, float d = Ok (Fin q) /\ (0 <= q)%Q).
  { destruct Hd as [-> | ->]; eexists; (split; [reflexivity|]);
      unfold Qle; cbn; lia. }
  unfold float_or.
  destruct o as [f|]; [|exact Hfd].
  destruct (Ho f eq_refl) as (q & -> & Hq).
  destruct (float_truthy (Fin q)); [|exact Hfd].
  exists q. auto.
Qed.

(** X13.  Every line item of the table stage is well formed: it has a
    name, no date yet, a quantity that is not zero, and price, quantity
    and total are numbers that are not negative, so its total counts in
    the summary. *)
Theorem table_items_wellformed table r :
  In r (table_items table) ->
  Date r = None /\
  Item r <> "" /\
  truthy (Qty r) = true /\
  (exists p q t,
     float (Price r) = Ok p /\ float (Qty r) = Ok q /\ float (Total r) = Ok t /\
     flt p (fin_of_Z 0) = false /\ flt q (fin_of_Z 0) = false /\
     flt t (fin_of_Z 0) = false /\
     exists line, summary_of r = Ok line /\ amount line = Some t).
Proof.
  unfold table_items. destruct table as [|header [|first others]]; try contradiction.
  intros Hin. apply in_flat_map in Hin. destruct Hin as (cells & _ & Hin).
  unfold table_row in Hin.
  set (get := zip_get _ _) in Hin.
  set (item := get_or (get "item") _) in Hin.
  set (price := _parse_amount (get_or (get "price") _)) in Hin.
  set (qtyp := _parse_amount (get_or (get "qty") _)) in Hin.
  set (total := _parse_amount (get_or (get "total") _)) in Hin.
  destruct (str_truthy item || opt_truthy total); [|contradiction].
  destruct Hin as [<- | []]. cbn [Date Item Price Qty Total].
  split; [reflexivity|].
  split; [unfold str_or; destruct item; cbn; discriminate|].
  assert (Hprice : forall f, price = Some f -> exists q, f = Fin q /\ (0 <= q)%Q)
    by (intros f; apply _parse_amount_value).
  assert (Hqty : forall f, qtyp = Some f -> exists q, f = Fin q /\ (0 <= q)%Q)
    by (intros f; apply _parse_amount_value).
  assert (Htotal : forall f, total = Some f -> exists q, f = Fin q /\ (0 <= q)%Q)
    by (intros f; apply _parse_amount_value).
  clearbody price qtyp total item.
  split.
  { unfold float_or. destruct qtyp as [f|]; [|reflexivity].
    destruct (float_truthy f) eqn:Hf; [exact Hf | reflexivity]. }
  destruct (float_or_number price (VInt 0)) as (p & Hp & Hp0);
    [left; reflexivity | exact Hprice |].
  destruct (float_or_number qtyp (VInt 1)) as (q & Hq & Hq0);
    [right; reflexivity | exact Hqty |].
  assert (Ht : exists t, float (float_or total
                 match price with
                 | Some p0 => if float_truthy p0
                              then times p0 (float_or qtyp (VInt 1)) else VInt 0
                 | None => VInt 0
                 end) = Ok (Fin t) /\ (0 <= t)%Q).
  { unfold float_or at 1. destruct total as [f|].
    2:{ destruct price as [p0|]; [|exists 0%Q; split; [reflexivity|apply Qle_refl]].
        destruct (float_truthy p0); [|exists 0%Q; split; [reflexivity|apply Qle_refl]].
        destruct (Hprice p0 eq_refl) as (x & -> & Hx).
        unfold times, float_or. destruct qtyp as [g|].
        - destruct (Hqty g eq_refl) as (y & -> & Hy).
          destruct (float_truthy (Fin y)); cbn [float fmul fin_of_Z];
            eexists; (split; [reflexivity|]); rewrite Qred_correct.
          + apply Qmult_le_0_compat; assumption.
          + apply Qmult_le_0_compat; [assumption|]. unfold Qle. cbn. lia.
        - cbn [float fmul fin_of_Z]. eexists. split; [reflexivity|].
          rewrite Qred_correct. apply Qmult_le_0_compat; [assumption|].
          unfold Qle. cbn. lia. }
    destruct (Htotal f eq_refl) as (x & -> & Hx).
    destruct (float_truthy (Fin x)); [exists x; auto|].
    destruct price as [p0|]; [|exists 0%Q; split; [reflexivity|apply Qle_refl]].
    destruct (float_truthy p0); [|exists 0%Q; split; [reflexivity|apply Qle_refl]].
    destruct (Hprice p0 eq_refl) as (x' & -> & Hx').
    unfold times, float_or. destruct qtyp as [g|].
    - destruct (Hqty g eq_refl) as (y & -> & Hy).
      destruct (float_truthy (Fin y)); cbn [float fmul fin_of_Z];
        eexists; (split; [reflexivity|]); rewrite Qred_correct.
      + apply Qmult_le_0_compat; assumption.
      + apply Qmult_le_0_compat; [assumption|]. unfold Qle. cbn. lia.
    - cbn [float fmul fin_of_Z]. eexists. split; [reflexivity|].
      rewrite Qred_correct. apply Qmult_le_0_compat; [assumption|].
      unfold Qle. cbn. lia. }
  destruct Ht as (t & Ht & Ht0).
  exists (Fin p), (Fin q), (Fin t).
  split; [exact Hp|]. split; [exact Hq|]. split; [exact Ht|].
  split; [apply fin_nonneg_flt; exact Hp0|].
  split; [apply fin_nonneg_flt; exact Hq0|].
  split; [apply fin_nonneg_flt; exact Ht0|].
  unfold summary_of. cbn [Total]. rewrite Ht.
  eexists. split; reflexivity.
Qed.

Lemma table_items_wellformed_witness :
  let table := [[Some "Item"; Some " Unit Price "; Some "QTY"];
                [Some "Milk"; Some "-1"; Some "0"]] in
  let r := {| Date := None; Item := "Milk"; Price := VFloat (Fin 1);
              Qty := VInt 1; Total := VFloat (Fin 1) |} in
  In r (table_items table) /\
  exists line, summary_of r = Ok line /\ amount line = Some (Fin 1).
Proof.
  intros table r.
  assert (Hin : In r (table_items table)) by (left; reflexivity).
  split; [exact Hin|].
  destruct (table_items_wellformed table r Hin)
    as (_ & _ & _ & p & q & t & _ & _ & Ht & _ & _ & _ & line & Hl & Ha).
  exists line. split; [exact Hl|]. rewrite Ha. f_equal.
  cbn in Ht. congruence.
Defined.

(** ** Texts without amounts *)

Lemma span_parts p l :
  l = (fst (span p l) ++ snd (span p l))%list /\
  List.Forall (fun c => p c = true) (fst (span p l)).
Proof.
  induction l as [|c t [IH1 IH2]]; [split; [reflexivity|constructor]|].
  cbn [span]. destruct (p c) eqn:Hp.
  - destruct (span p t) as [a r]. cbn [fst snd] in *. split.
    + cbn. rewrite <- IH1. reflexivity.
    + constructor; assumption.
  - split; [reflexivity|constructor].
Qed.

Lemma span_rest_Forall (P : ascii -> Prop) p l :
  List.Forall P l ->
  List.Forall P (fst (span p l)) /\ List.Forall P (snd (span p l)).
Proof.
  intros H. destruct (span_parts p l) as [Hl _].
  rewrite Hl in H. apply List.Forall_app in H. exact H.
Qed.

Lemma match_lit_Forall (P : ascii -> Prop) w : forall l r,
  List.Forall P l -> match_lit w l = Some r -> List.Forall P r.
Proof.
  induction w as [|a w IH]; intros l r Hl H.
  - cbn in H. injection H as <-. exact Hl.
  - destruct l as [|b l']; [discriminate|]. cbn [match_lit] in H.
    destruct (char_eqb a (lower_char b)); [|discriminate].
    inversion Hl; subst. eapply IH; eassumption.
Qed.

Lemma match_label_Forall (P : ascii -> Prop) lab : forall l r,
  List.Forall P l -> match_label lab l = Some r -> List.Forall P r.
Proof.
  induction lab as [|a lab IH]; intros l r Hl H.
  - cbn in H. injection H as <-. exact Hl.
  - destruct a as [w|]; cbn [match_label] in H.
    + destruct (match_lit (chars w) l) as [r1|] eqn:Hw; [|discriminate].
      eapply IH; [|exact H]. eapply match_lit_Forall; eassumption.
    + eapply IH; [|exact H]. apply span_rest_Forall. exact Hl.
Qed.

Lemma optional_char_Forall (P : ascii -> Prop) x l :
  List.Forall P l ->
  List.Forall P (snd (optional_char x l)) /\
  (fst (optional_char x l) = [] \/ fst (optional_char x l) = [x]).
Proof.
  intros H. destruct l as [|c t]; [cbn; auto|].
  cbn [optional_char]. destruct (char_eqb c x) eqn:Hc; cbn [fst snd].
  - inversion H; subst. split; [assumption|]. right.
    apply Ascii.eqb_eq in Hc. subst. reflexivity.
  - auto.
Qed.

Lemma chars_str l : chars (str l) = l.
Proof. apply list_ascii_of_string_of_list_ascii. Qed.

Lemma clean_amount_commas num rest :
  List.Forall (fun c => is_digit_or_comma c = true) num ->
  no_digit num ->
  clean_amount (num ++ rest) = clean_amount rest.
Proof.
  unfold clean_amount. induction num as [|c t IH]; intros Hc Hd; [reflexivity|].
  inversion Hc as [|? ? Hc1 Hc2]; inversion Hd as [|? ? Hd1 Hd2]; subst.
  unfold is_digit_or_comma in Hc1. rewrite Hd1 in Hc1. cbn [orb] in Hc1.
  cbn [app List.filter]. rewrite Hc1. cbn [negb]. apply IH; assumption.
Qed.

Lemma match_total_no_digit lab l g n :
  no_digit l -> match_total lab l = Some (g, n) -> _parse_amount g = None.
Proof.
  intros Hl. unfold match_total.
  destruct (match_label lab l) as [r0|] eqn:Hlab; [|discriminate].
  pose proof (match_label_Forall _ lab l r0 Hl Hlab) as H0.
  pose proof (proj2 (span_rest_Forall _ is_colon_or_space r0 H0)) as H1.
  destruct (optional_char_Forall _ "$"%char _ H1) as [H2 _].
  set (r2 := snd (optional_char "$"%char _)) in *.
  destruct (span_parts is_digit_or_comma r2) as [_ Hnum].
  destruct (span_rest_Forall _ is_digit_or_comma r2 H2) as [Hnum' H3].
  destruct (span is_digit_or_comma r2) as [num r3]. cbn [fst snd] in *.
  destruct num as [|c num']; [discriminate|].
  destruct (optional_char_Forall _ "."%char r3 H3) as [H4 Hdot].
  destruct (optional_char "."%char r3) as [dot r4]. cbn [fst snd] in *.
  destruct (span_parts is_digit r4) as [_ Hfrac].
  destruct (span_rest_Forall _ is_digit r4 H4) as [Hfrac' _].
  destruct (span is_digit r4) as [frac r5]. cbn [fst snd] in *.
  assert (Hnil : frac = []).
  { destruct frac as [|d frac']; [reflexivity|].
    inversion Hfrac; inversion Hfrac'; subst. congruence. }
  subst frac. rewrite app_nil_r.
  intros [= <- _]. unfold _parse_amount.
  destruct (negb (str_truthy _)); [reflexivity|].
  change (String c (str (num' ++ dot))) with (str ((c :: num') ++ dot)).
  rewrite chars_str, (clean_amount_commas _ _ Hnum Hnum').
  destruct Hdot as [-> | ->]; reflexivity.
Qed.

Lemma match_decimal_no_digit l : no_digit l -> match_decimal l = None.
Proof.
  intros Hl. unfold match_decimal.
  destruct (span_rest_Forall _ is_digit_or_comma l Hl) as [_ Hr].
  destruct (span is_digit_or_comma l) as [num r]. cbn [snd] in Hr.
  destruct r as [|dot [|d1 [|d2 r']]];
    try (destruct num as [|c num']; reflexivity).
  inversion Hr as [|? ? _ Hr1]; subst.
  inversion Hr1 as [|? ? Hd1 _]; subst.
  destruct num as [|c num']; [reflexivity|].
  rewrite Hd1, andb_false_r. reflexivity.
Qed.

Lemma finditer_no_digit m (Qp : string -> Prop) :
  (forall l g n, no_digit l -> m l = Some (g, n) -> Qp g) ->
  forall l skip, no_digit l -> List.Forall Qp (finditer m skip l).
Proof.
  intros Hm. induction l as [|c t IH]; intros skip Hl; [constructor|].
  assert (Ht : no_digit t) by (inversion Hl; assumption).
  cbn [finditer]. destruct skip as [|k]; [|apply IH; exact Ht].
  destruct (m (c :: t)) as [[g n]|] eqn:Hmatch.
  - constructor; [exact (Hm _ _ _ Hl Hmatch) | apply IH; exact Ht].
  - apply IH. exact Ht.
Qed.

Lemma keep_amounts_none ok groups :
  List.Forall (fun g => _parse_amount g = None) groups ->
  keep_amounts ok groups = [].
Proof.
  unfold keep_amounts. induction groups as [|g t IH]; intros H; [reflexivity|].
  inversion H as [|? ? Hg Ht]; subst. cbn [flat_map]. rewrite Hg, IH by exact Ht.
  reflexivity.
Qed.

(** Neither a labelled total nor a decimal amount is found in a text
    without a digit. *)
Lemma totals_none_without_digit text :
  no_digit (chars text) -> _extract_totals_from_text text = [].
Proof.
  intros Hl. unfold _extract_totals_from_text.
  assert (Hlab : forall pattern,
            keep_amounts (fun _ => true)
              (finditer (match_total pattern) 0 (chars text)) = []).
  { intros pattern. apply keep_amounts_none.
    apply (finditer_no_digit _ _ (match_total_no_digit pattern)). exact Hl. }
  unfold TOTAL_PATTERNS. cbn [flat_map]. rewrite !Hlab. cbn [app].
  apply keep_amounts_none.
  apply (finditer_no_digit match_decimal).
  - intros l g n Hd Hm. rewrite (match_decimal_no_digit l Hd) in Hm.
    discriminate.
  - exact Hl.
Qed.

(** X14.  A text without a single digit holds no amount: neither a
    labelled total nor a decimal amount is found in it, whatever labels
    and punctuation it has. *)
Theorem no_digit_no_amount text :
  no_digit (chars text) -> _extract_totals_from_text text = [].
Proof. exact (totals_none_without_digit text). Qed.

Lemma no_digit_no_amount_witness :
  _extract_totals_from_text "Total: $,,. thank you, amount due: n/a" = [].
Proof.
  apply no_digit_no_amount. unfold no_digit.
  repeat (constructor; [reflexivity|]). constructor.
Defined.

(** ** Normalisation of numeric fields *)

Lemma float_raises v e :
  float v = Raise e ->
  value_or_type_error e = true \/ (overflows v = true /\ e = overflow_error).
Proof.
  destruct v as [ |b|z|f|s|l|d]; cbn [float overflows];
    try (intros [= <-]; left; reflexivity); try discriminate.
  - destruct (Z.abs z <? float_overflow)%Z; [discriminate|].
    intros [= <-]. right. split; reflexivity.
  - destruct (float_of_string s); [discriminate|].
    intros [= <-]. left. reflexivity.
Qed.

Lemma float_in_range v :
  overflows v = false ->
  (exists f, float v = Ok f) \/
  (exists e, float v = Raise e /\ value_or_type_error e = true).
Proof.
  intros Hv. destruct (float v) as [f|e] eqn:Hf; [left; eauto|].
  right. exists e. split; [reflexivity|].
  destruct (float_raises v e Hf) as [H | [H _]]; [exact H | congruence].
Qed.

Lemma overflows_truthy v : overflows v = true -> truthy v = true.
Proof.
  destruct v as [ |b|z|f|s|l|d]; cbn [overflows truthy]; try discriminate.
  destruct z; [discriminate|reflexivity..].
Qed.

Lemma float_overflows v :
  overflows v = true -> float v = Raise overflow_error.
Proof.
  destruct v as [ |b|z|f|s|l|d]; cbn [overflows float]; try discriminate.
  destruct (Z.abs z <? float_overflow)%Z; [discriminate|reflexivity].
Qed.

Lemma coerce_falsy v d : truthy v = false -> coerce v d = Ok d.
Proof. unfold coerce. intros ->. reflexivity. Qed.

Lemma coerce_raises v d e :
  coerce v d = Raise e ->
  value_or_type_error e = true \/ (overflows v = true /\ e = overflow_error).
Proof.
  unfold coerce. destruct (truthy v); [|discriminate].
  destruct (float v) as [f|e'] eqn:Hf; [discriminate|].
  intros [= <-]. exact (float_raises v e' Hf).
Qed.

Lemma coerce_overflows v d :
  overflows v = true -> coerce v d = Raise overflow_error.
Proof.
  intros Hv. unfold coerce.
  rewrite (overflows_truthy v Hv), (float_overflows v Hv). reflexivity.
Qed.

Lemma coerce_in_range v d :
  overflows v = false ->
  (exists x, coerce v d = Ok x) \/
  (exists e, coerce v d = Raise e /\ value_or_type_error e = true).
Proof.
  intros Hv. destruct (coerce v d) as [x|e] eqn:Hc; [left; eauto|].
  right. exists e. split; [reflexivity|].
  destruct (coerce_raises v d e Hc) as [H | [H _]]; [exact H | congruence].
Qed.

Lemma coerce_string_rejected s d :
  float_of_string s = None -> s <> "" ->
  exists e, coerce (VStr s) d = Raise e /\ value_or_type_error e = true.
Proof.
  intros Hs Hne. unfold coerce. simpl.
  destruct s as [|c s']; [congruence|]. simpl.
  rewrite Hs. eexists. split; reflexivity.
Qed.

Lemma overflow_error_passes r :
  pass_value_or_type_error overflow_error r = Raise overflow_error.
Proof. reflexivity. Qed.

Ltac coerce_cases v d :=
  let e := fresh "e" in
  let He := fresh "He" in
  let Hv := fresh "Hv" in
  destruct (coerce v d) as [?|e] eqn:He;
  [|unfold pass_value_or_type_error;
    destruct (coerce_raises v d e He) as [Hv | [Hv ->]];
    [rewrite Hv | cbn [value_or_type_error overflow_error exn_cls]]].

(** The [try] block raises nothing but the [OverflowError] of an integer
    that is too large. *)
Lemma coerce_numbers_raises r e :
  coerce_numbers r = Raise e ->
  e = overflow_error /\
  overflows (Price r) || overflows (Qty r) || overflows (Total r) = true.
Proof.
  unfold coerce_numbers.
  coerce_cases (Price r) (VInt 0); cbn [Qty Total Price Date Item];
    try discriminate.
  2:{ intros [= <-]. rewrite Hv. auto. }
  coerce_cases (Qty r) (VInt 1); cbn [Qty Total Price Date Item];
    try discriminate.
  2:{ intros [= <-]. rewrite Hv, orb_true_r. auto. }
  coerce_cases (Total r) (VInt 0); try discriminate.
  intros [= <-]. rewrite Hv, orb_true_r. auto.
Qed.

(** Whatever happens in the [try] block, the date and the name of the row
    are those set before it. *)
Lemma coerce_numbers_keeps r r' :
  coerce_numbers r = Ok r' -> Date r' = Date r /\ Item r' = Item r.
Proof.
  unfold coerce_numbers, pass_value_or_type_error.
  destruct (coerce (Price r) _) as [x|e]; cbn [Qty Total Price Date Item].
  2:{ destruct (value_or_type_error e); [|discriminate].
      intros [= <-]. auto. }
  destruct (coerce (Qty r) _) as [y|e]; cbn [Qty Total Price Date Item].
  2:{ destruct (value_or_type_error e); [|discriminate].
      intros [= <-]. auto. }
  destruct (coerce (Total r) _) as [z|e].
  2:{ destruct (value_or_type_error e); [|discriminate].
      intros [= <-]. auto. }
  intros [= <-]. auto.
Qed.

(** A total that [float] rejects stays what it was. *)
Lemma coerce_numbers_total_rejected r s r' :
  Total r = VStr s -> s <> "" -> float_of_string s = None ->
  coerce_numbers r = Ok r' ->
  Total r' = VStr s.
Proof.
  intros Ht Hne Hs. unfold coerce_numbers, pass_value_or_type_error.
  destruct (coerce (Price r) _) as [x|e]; cbn [Qty Total Price Date Item].
  2:{ destruct (value_or_type_error e); [|discriminate].
      intros [= <-]. exact Ht. }
  destruct (coerce (Qty r) _) as [y|e]; cbn [Qty Total Price Date Item].
  2:{ destruct (value_or_type_error e); [|discriminate].
      intros [= <-]. exact Ht. }
  rewrite Ht.
  destruct (coerce_string_rejected s (VInt 0) Hs Hne) as (e & -> & ->).
  intros [= <-]. reflexivity.
Qed.

(** With a total that [float] rejects, the block returns unless the price
    or the quantity is an integer that is too large. *)
Lemma coerce_numbers_returns r s :
  Total r = VStr s -> s <> "" -> float_of_string s = None ->
  overflows (Price r) = false ->
  overflows (Qty r) = false ->
  exists r', coerce_numbers r = Ok r'.
Proof.
  intros Ht Hne Hs Hp Hq. unfold coerce_numbers, pass_value_or_type_error.
  destruct (coerce_in_range (Price r) (VInt 0) Hp) as [[x ->] | (e & -> & ->)];
    cbn [Qty Total Price Date Item]; [|eauto].
  destruct (coerce_in_range (Qty r) (VInt 1) Hq) as [[y ->] | (e & -> & ->)];
    cbn [Qty Total Price Date Item]; [|eauto].
  rewrite Ht.
  destruct (coerce_string_rejected s (VInt 0) Hs Hne) as (e & -> & ->).
  eauto.
Qed.

(** Without an integer that is too large the block returns. *)
Lemma coerce_numbers_in_range r :
  overflows (Price r) || overflows (Qty r) || overflows (Total r) = false ->
  exists r', coerce_numbers r = Ok r'.
Proof.
  intros H. destruct (coerce_numbers r) as [r'|e] eqn:Hr; [eauto|].
  destruct (coerce_numbers_raises r e Hr) as [_ Ho]. congruence.
Qed.

Section Normalisation.

Variable E : env.

(** The rows of an answer whose normalisation returns are those of its
    objects, one each and in their order. *)
Lemma normalize_items_objects date entries rows :
  normalize_items E date entries = Ok rows ->
  Forall2 (fun item r => normalize_item E date item = Ok r)
    (objects entries) rows.
Proof.
  revert rows. induction entries as [|v rest IH]; intros rows.
  - intros [= <-]. constructor.
  - destruct v; cbn [normalize_items objects]; try (apply IH).
    destruct (normalize_item E date d) as [r|e] eqn:Hr; [|discriminate].
    destruct (normalize_items E date rest) as [rows'|e]; [|discriminate].
    intros [= <-]. constructor; [exact Hr | apply IH; reflexivity].
Qed.

Lemma normalize_items_length date entries rows :
  normalize_items E date entries = Ok rows ->
  length rows = length (objects entries).
Proof.
  intros H. apply normalize_items_objects in H.
  symmetry. exact (Forall2_length _ _ _ H).
Qed.

Lemma normalize_item_in date item entries rows :
  normalize_items E date entries = Ok rows ->
  In (VDict item) entries ->
  exists r, normalize_item E date item = Ok r /\ In r rows.
Proof.
  revert rows. induction entries as [|v rest IH]; intros rows; [intros _ []|].
  intros H [Hv | Hin].
  - subst v. cbn [normalize_items] in H.
    destruct (normalize_item E date item) as [r|e]; [|discriminate].
    destruct (normalize_items E date rest) as [rows'|e]; [|discriminate].
    injection H as <-. exists r. split; [reflexivity | left; reflexivity].
  - destruct v; cbn [normalize_items] in H; try (apply (IH _ H Hin)).
    destruct (normalize_item E date d) as [r0|e]; [|discriminate].
    destruct (normalize_items E date rest) as [rows'|e]; [|discriminate].
    injection H as <-.
    destruct (IH rows' eq_refl Hin) as (r & Hr & Hin').
    exists r. split; [exact Hr | right; exact Hin'].
Qed.

(** The normalisation of an answer raises only when that of one of its
    objects does. *)
Lemma normalize_items_raises date entries e :
  normalize_items E date entries = Raise e ->
  exists item, In (VDict item) entries /\ normalize_item E date item = Raise e.
Proof.
  induction entries as [|v rest IH]; [discriminate|].
  destruct v; cbn [normalize_items];
    try (intros H; destruct (IH H) as (item & Hin & Hr);
         exists item; split; [right; exact Hin | exact Hr]).
  destruct (normalize_item E date d) as [r|e1] eqn:Hr.
  - destruct (normalize_items E date rest) as [rows|e2]; [discriminate|].
    intros [= <-]. destruct (IH eq_refl) as (item & Hin & Hi).
    exists item. split; [right; exact Hin | exact Hi].
  - intros [= <-]. exists d. split; [left; reflexivity | exact Hr].
Qed.

Lemma normalize_items_returns date entries :
  (forall item, In (VDict item) entries ->
     exists r, normalize_item E date item = Ok r) ->
  exists rows, normalize_items E date entries = Ok rows.
Proof.
  intros H. destruct (normalize_items E date entries) as [rows|e] eqn:Hn;
    [eauto|].
  destruct (normalize_items_raises date entries e Hn) as (item & Hin & Hr).
  destruct (H item Hin) as [r Hok]. congruence.
Qed.

End Normalisation.

(** C2, as the code refutes it.  In the stage that normalises the AI answer
    a total given as the string 1,234.56 is not turned into the number
    1234.56, and the total N/A is not turned into 0; both stay strings.
    And the coercion can raise: with a price that is an integer beyond the
    range of a float, [float] raises [OverflowError], which no [except]
    clause of the method catches, so the whole answer is lost with its
    other items. *)
Lemma C2_counterexample :
  let with_total t :=
    normalize_item Stubs.silent "03/11/2026"
      [("Item", VStr "Widget"); ("Price", VInt 2); ("Qty", VInt 1);
       ("Total", VStr t)] in
  let huge := [("Item", VStr "Gadget"); ("Price", VInt (2 ^ 1024));
               ("Total", VStr "N/A")] in
  (exists r, with_total "1,234.56" = Ok r /\
             Total r = VStr "1,234.56" /\
             Total r <> VFloat (Fin (Qred 1234.56))) /\
  (exists r, with_total "N/A" = Ok r /\
             Total r = VStr "N/A" /\
             Total r <> VInt 0 /\ Total r <> VFloat (fin_of_Z 0)) /\
  normalize_item Stubs.silent "03/11/2026" huge = Raise overflow_error /\
  normalize_items Stubs.silent "03/11/2026"
    [VDict [("Item", VStr "Widget"); ("Total", VInt 3)]; VDict huge]
  = Raise overflow_error.
Proof.
  cbv zeta. split; [|split; [|split]].
  - eexists. split; [vm_compute; reflexivity|].
    split; [reflexivity | discriminate].
  - eexists. split; [vm_compute; reflexivity|].
    split; [reflexivity|]. split; discriminate.
  - vm_compute. reflexivity.
  - vm_compute. reflexivity.
Qed.

(** The amount that [_parse_amount] reads depends on the digits and dots
    of the value only. *)
Lemma clean_amount_digits_and_dots l : clean_amount l = digits_and_dots l.
Proof.
  unfold clean_amount, digits_and_dots.
  induction l as [|c t IH]; [reflexivity|]. cbn [List.filter].
  destruct (char_eqb c ","%char) eqn:Hc; cbn [negb List.filter].
  - apply Ascii.eqb_eq in Hc. subst c. exact IH.
  - rewrite IH. reflexivity.
Qed.

Lemma parse_amount_decoration v v' :
  v <> "" -> v' <> "" ->
  digits_and_dots (chars v) = digits_and_dots (chars v') ->
  _parse_amount v = _parse_amount v'.
Proof.
  intros Hv Hv' H. unfold _parse_amount.
  destruct v; [congruence|]. destruct v'; [congruence|].
  cbn [str_truthy negb]. rewrite !clean_amount_digits_and_dots, H. reflexivity.
Qed.

(** A list of dots is no number. *)
Lemma float_of_dots l :
  List.Forall (fun c => c = "."%char) l -> float_of_chars l = None.
Proof.
  intros H. unfold float_of_chars.
  assert (Hs : List.Forall (fun c => c = "."%char) (strip_chars l))
    by (apply strip_chars_Forall; exact H).
  destruct (strip_chars l) as [|c t]; [reflexivity|].
  inversion Hs as [|? ? -> Ht]; subst. cbn [sign_of char_eqb Ascii.eqb].
  change (sign_of ("."%char :: t)) with (false, "."%char :: t).
  cbn [map str string_of_list_ascii].
  change (lower_char ".") with "."%char.
  cbn [String.eqb Ascii.eqb orb]. cbn [number digitpart is_digit].
  change (is_digit ".") with false. cbn iota.
  change (char_eqb "." ".") with true. cbn iota.
  destruct t as [|c' t']; [reflexivity|].
  inversion Ht as [|? ? -> _]; subst. reflexivity.
Qed.

(** A value without a digit gives no amount. *)
Lemma parse_amount_no_digit v : no_digit (chars v) -> _parse_amount v = None.
Proof.
  intros H. unfold _parse_amount.
  destruct (negb (str_truthy v)); [reflexivity|].
  apply float_of_dots. rewrite clean_amount_digits_and_dots.
  unfold digits_and_dots. apply List.Forall_forall. intros c Hc.
  apply List.filter_In in Hc. destruct Hc as [Hin Hc].
  unfold no_digit in H. rewrite List.Forall_forall in H.
  rewrite (H c Hin) in Hc. cbn [orb] in Hc.
  apply Ascii.eqb_eq in Hc. exact Hc.
Qed.

(** C2, amended.  Amounts read by [_parse_amount] (table and regex stages)
    are coerced tolerantly: whatever stands between the digits and dots of
    a value is passed over, so 1,234.56 gives 1234.56, and a value without
    a digit, such as N/A, gives no amount; a table row that has a name, no
    price and such a total is kept with the total 0.  In the stage that
    normalises the AI answer the numeric fields go through [float]: a total
    that is a non-empty string rejected by [float], such as 1,234.56 or
    N/A, stays in the line item as that string.  The coercion of such an
    item raises only when its price or its quantity is an integer beyond
    the range of a float; otherwise the line item is in the output of every
    answer that is normalised, which has one row for each of its
    objects. *)
Theorem C2_numeric_coercion (E : env) (date : string)
  (item : list (string * pyval)) (s : string) :
  dict_get item "Total" = Some (VStr s) ->
  s <> "" ->
  float_of_string s = None ->
  let price := dict_get_default item "Price" (VInt 0) in
  let qty := dict_get_default item "Qty" (VInt 1) in
  (* amounts of the table and regex stages *)
  ((forall v v', v <> "" -> v' <> "" ->
      digits_and_dots (chars v) = digits_and_dots (chars v') ->
      _parse_amount v = _parse_amount v') /\
   _parse_amount "1,234.56" = Some (Fin (Qred 1234.56)) /\
   (forall v, no_digit (chars v) -> _parse_amount v = None) /\
   (forall headers cells,
      name_under headers cells <> "" ->
      no_digit (chars (cell_under headers cells "price" "unit price" "")) ->
      no_digit (chars (cell_under headers cells "total" "amount" "")) ->
      exists q,
        truthy q = true /\
        table_row headers cells
        = [ {| Date := None;
               Item := name_under headers cells;
               Price := VInt 0; Qty := q; Total := VInt 0 |} ])) /\
  (* the normalisation of the AI answer *)
  (float_of_string "1,234.56" = None /\ float_of_string "N/A" = None) /\
  (forall r, normalize_item E date item = Ok r -> Total r = VStr s) /\
  (forall e, normalize_item E date item = Raise e ->
     e = overflow_error /\ overflows price || overflows qty = true) /\
  (overflows price = false -> overflows qty = false ->
   exists r, normalize_item E date item = Ok r) /\
  (forall entries rows,
     normalize_items E date entries = Ok rows ->
     In (VDict item) entries ->
     length rows = length (objects entries) /\
     exists r, normalize_item E date item = Ok r /\ In r rows /\
               Total r = VStr s).
Proof.
  intros Hget Hne Hrej price qty.
  assert (Htotal : dict_get_default item "Total" (VInt 0) = VStr s).
  { unfold dict_get_default. rewrite Hget. reflexivity. }
  assert (Hkeep : forall r, normalize_item E date item = Ok r ->
                            Total r = VStr s).
  { intros r Hr. unfold normalize_item in Hr.
    eapply coerce_numbers_total_rejected; [|exact Hne|exact Hrej|exact Hr].
    exact Htotal. }
  split.
  { split; [exact parse_amount_decoration|].
    split; [vm_compute; reflexivity|].
    split; [exact parse_amount_no_digit|].
    intros headers cells Hname Hprice Htot.
    unfold table_row. unfold cell_under, name_under in *.
    set (get := zip_get headers _) in *.
    rewrite (parse_amount_no_digit _ Hprice), (parse_amount_no_digit _ Htot).
    cbn [opt_truthy orb float_or].
    set (nm := get_or (get "item") _) in *.
    assert (Ht : str_truthy nm = true) by (destruct nm; [congruence|reflexivity]).
    rewrite Ht. cbn [orb]. unfold str_or. rewrite Ht.
    eexists. split; [|reflexivity].
    unfold float_or. destruct (_parse_amount _) as [f|]; [|reflexivity].
    destruct (float_truthy f) eqn:Hf; [exact Hf | reflexivity]. }
  split; [split; vm_compute; reflexivity|].
  split; [exact Hkeep|].
  split.
  { intros e He. unfold normalize_item in He.
    destruct (coerce_numbers_raises _ e He) as [-> Ho].
    split; [reflexivity|]. cbn [Price Qty Total] in Ho.
    rewrite Htotal in Ho. cbn [overflows] in Ho.
    rewrite orb_false_r in Ho. exact Ho. }
  split.
  { intros Hp Hq. unfold normalize_item.
    apply (coerce_numbers_returns _ s); cbn [Price Qty Total]; assumption. }
  intros entries rows Hrows Hin.
  split; [apply (normalize_items_length E date); exact Hrows|].
  destruct (normalize_item_in E date item entries rows Hrows Hin)
    as (r & Hr & Hinr).
  exists r. split; [exact Hr|]. split; [exact Hinr | apply Hkeep; exact Hr].
Qed.

(** C2 at the total N/A in an array that also holds a number. *)
Lemma C2_numeric_coercion_witness :
  let item := [("Item", VStr "Widget"); ("Total", VStr "N/A")] in
  exists r,
    normalize_items Stubs.silent "03/11/2026" [VInt 7; VDict item] = Ok [r] /\
    Total r = VStr "N/A".
Proof.
  intros item.
  pose proof (C2_numeric_coercion Stubs.silent "03/11/2026" item "N/A") as H.
  destruct H as (_ & _ & _ & _ & _ & Hall).
  - reflexivity.
  - discriminate.
  - vm_compute. reflexivity.
  - destruct (normalize_items Stubs.silent "03/11/2026" [VInt 7; VDict item])
      as [rows|e] eqn:Hrows; [|vm_compute in Hrows; discriminate].
    destruct (Hall [VInt 7; VDict item] rows Hrows) as (Hlen & r & _ & Hin & Ht).
    { right. left. reflexivity. }
    destruct rows as [|r0 [|r1 rows]]; try discriminate Hlen.
    destruct Hin as [-> | []]. exists r. split; [reflexivity | exact Ht].
Defined.

(** C10, at the input on which the code departs from it: the price N/A
    makes [float] raise, the [try] block is left, and the quantity 0 and
    the missing total stay as they are instead of becoming 1 and 0. *)
Theorem C10_zero_quantity_kept (E : env) (date : string) :
  normalize_item E date
    [("Item", VStr "Tea"); ("Price", VStr "N/A"); ("Qty", VInt 0);
     ("Total", VNone)]
  = Ok {| Date := Some date; Item := "Tea"; Price := VStr "N/A";
          Qty := VInt 0; Total := VNone |}.
Proof. reflexivity. Qed.

(** What does hold of the normalisation behind C10: when the price is
    falsy or convertible, a falsy quantity becomes 1. *)
Lemma normalize_item_quantity (E : env) date item r :
  (truthy (dict_get_default item "Price" (VInt 0)) = false \/
   exists f, float (dict_get_default item "Price" (VInt 0)) = Ok f) ->
  truthy (dict_get_default item "Qty" (VInt 1)) = false ->
  normalize_item E date item = Ok r ->
  Qty r = VInt 1.
Proof.
  intros Hp Hq. unfold normalize_item, coerce_numbers. simpl.
  assert (Hc : exists p, coerce (dict_get_default item "Price" (VInt 0)) (VInt 0) = Ok p).
  { destruct Hp as [Hp | [f Hf]].
    - exists (VInt 0). apply coerce_falsy. exact Hp.
    - unfold coerce. rewrite Hf.
      destruct (truthy (dict_get_default item "Price" (VInt 0))); eexists; reflexivity. }
  destruct Hc as [p ->]. simpl.
  rewrite (coerce_falsy _ _ Hq). simpl.
  unfold pass_value_or_type_error.
  destruct (coerce _ _) as [t|e]; [intros [= <-]; reflexivity|].
  destruct (value_or_type_error e); [intros [= <-]; reflexivity|discriminate].
Qed.

(** Entries that are not objects are passed over, and an answer without
    any object gives no result. *)
Lemma parse_response_no_objects (E : env) response entries :
  json_loads E response = Ok (Some (VList entries)) ->
  objects entries = [] ->
  _parse_gemini_json_response E response = Ok None.
Proof.
  intros Hl Ho. unfold _parse_gemini_json_response.
  destruct (negb (str_truthy response) || negb (str_truthy (strip response)));
    [reflexivity|].
  rewrite Hl.
  assert (Hn : normalize_items E (strftime_dmy (now E)) entries = Ok []).
  { clear Hl. induction entries as [|v rest IH]; [reflexivity|].
    destruct v; cbn [objects normalize_items] in *; try (apply IH; exact Ho).
    discriminate. }
  rewrite Hn. reflexivity.
Qed.

(** ** The fallback chain *)

Section Pipeline.

Variable E : env.

Ltac unbind :=
  unfold bind, ret, enter, lift in *; simpl in *.

Ltac unbind_in H :=
  unfold bind, ret, enter, lift in H; simpl in H.

Lemma quality_error_nonempty : quality_error <> "".
Proof. discriminate. Qed.

Lemma amounts_error_nonempty : amounts_error <> "".
Proof. discriminate. Qed.

(** [extract_text] either succeeds with no error message or fails with an
    empty text and an error message. *)
Lemma extract_text_shape file_path tr t ok err tr' :
  extract_text E file_path tr = (Ok (t, ok, err), tr') ->
  (ok = true /\ err = None) \/
  (ok = false /\ t = "" /\ exists e, err = Some e /\ e <> "").
Proof.
  assert (Hbad : forall e : string, e <> "" ->
            (false = true /\ Some e = @None string) \/
            (false = false /\ "" = "" /\ exists e', Some e = Some e' /\ e' <> "")).
  { intros e He. right. split; [reflexivity|]. split; [reflexivity|].
    exists e. split; [reflexivity|exact He]. }
  unfold extract_text. unbind.
  destruct (path_exists E file_path); simpl.
  2:{ intros [= <- <- <- _]. apply Hbad. discriminate. }
  destruct (String.eqb _ ".pdf").
  - unfold _extract_text_pdfplumber. unbind.
    destruct (pdfplumber_text E file_path) as [t1|e1]; [|discriminate].
    set (m2 := if too_short t1 && ocr_available E then _ else _).
    destruct (m2 _) as [[t2|e2] tr2]; [|discriminate].
    set (m3 := if too_short t2 && ocr_available E then _ else _).
    destruct (m3 _) as [[t3|e3] tr3]; [|discriminate].
    destruct (too_short t3); intros [= <- <- <- _].
    + apply Hbad, quality_error_nonempty.
    + left. auto.
  - destruct (is_image_ext _).
    + destruct (_extract_text_via_gemini_vision E file_path _) as [[v|e] trv];
        [|discriminate].
      set (m2 := if negb (too_short v) then _ else _).
      destruct (m2 _) as [[t2|e2] tr2]; [|discriminate].
      destruct (too_short t2); intros [= <- <- <- _].
      * apply Hbad, quality_error_nonempty.
      * left. auto.
    + intros [= <- <- <- _]. apply Hbad. discriminate.
Qed.

Lemma has_items_some its :
  has_items its = true -> exists r l, its = Some (r :: l).
Proof. destruct its as [[|r l]|]; simpl; try discriminate; eauto. Qed.

(** The blocks from the table stage on end in the second early return or
    with at least one item and one of the four method names. *)
Lemma tables_and_regex_shape file_path its m text tr s tr' :
  tables_and_regex E file_path its m text tr = (Ok s, tr') ->
  In m methods ->
  match s with
  | Returned o => o = Outcome [] false (Some amounts_error) "failed"
  | Produced l m' => l <> [] /\ In m' methods
  end.
Proof.
  unfold tables_and_regex. unbind. intros H Hm.
  set (m1 := if negb (has_items its) && _ then _ else _) in H.
  destruct (m1 tr) as [[[its1 meth1]|e1] tr1] eqn:H1; [|discriminate].
  assert (Hmeth : In meth1 methods).
  { subst m1. destruct (negb (has_items its) && _).
    - unfold _extract_items_from_tables in H1. unbind_in H1.
      destruct (pdfplumber_tables E file_path); [|discriminate].
      injection H1 as <- <- _.
      destruct (match flat_map table_items _ with [] => _ | _ => _ end);
        [|exact Hm]. simpl. auto.
    - injection H1 as <- <- _. exact Hm. }
  simpl in H.
  destruct (has_items its1) eqn:Hi; simpl in H.
  - injection H as <- _.
    destruct (has_items_some _ Hi) as (r & l & ->). simpl. split; [discriminate|auto].
  - destruct (_extract_totals_from_text text); injection H as <- _.
    + reflexivity.
    + split; [discriminate|]. simpl. auto.
Qed.

Lemma stages_shape file_path tr s tr' :
  stages E file_path tr = (Ok s, tr') ->
  match s with
  | Returned o =>
      items o = [] /\ success o = false /\
      (exists e, error_msg o = Some e /\ e <> "") /\
      (method o = "failed" \/ method o = "text_extraction_failed")
  | Produced l m => l <> [] /\ In m methods
  end.
Proof.
  unfold stages. unbind.
  destruct (direct_parse E file_path tr) as [[its|e] tr1]; [|discriminate].
  assert (Hfail : forall o : outcome,
            o = Outcome [] false (Some amounts_error) "failed" ->
            items o = [] /\ success o = false /\
            (exists e, error_msg o = Some e /\ e <> "") /\
            (method o = "failed" \/ method o = "text_extraction_failed")).
  { intros o ->. simpl. repeat split; auto.
    exists amounts_error. split; [reflexivity|apply amounts_error_nonempty]. }
  destruct (has_items its) eqn:Hi; simpl.
  - intros H. apply tables_and_regex_shape in H; [|simpl; auto].
    destruct s; auto.
  - destruct (extract_text E file_path tr1) as [[[[t ok] err]|e] tr2] eqn:Ht;
      [|discriminate].
    simpl. destruct ok; simpl.
    + destruct (_parse_receipt_with_gemini E t tr2) as [[its2|e2] tr3];
        [|discriminate].
      intros H. apply tables_and_regex_shape in H.
      * destruct s; auto.
      * destruct (has_items its2); simpl; auto.
    + intros [= <- _]. simpl.
      apply extract_text_shape in Ht.
      destruct Ht as [[? _]|(_ & _ & He)]; [discriminate|].
      repeat split; auto.
Qed.

Lemma append_nonempty (a b : string) : b <> "" -> a ++ b <> "".
Proof.
  intros Hb. destruct a; simpl; [exact Hb | discriminate].
Qed.

Lemma strftime_dmy_sample :
  strftime_dmy {| day := 3; month := 11; year := 2026 |} = "03/11/2026".
Proof. reflexivity. Qed.

Lemma strftime_dmy_nonempty d : strftime_dmy d <> "".
Proof.
  unfold strftime_dmy. apply append_nonempty. discriminate.
Qed.


(** A date that the stage left out or left empty becomes the given one;
    any other date is kept. *)
Lemma ensure_date_default date r :
  (Date r = None \/ Date r = Some "" -> Date (ensure_date date r) = Some date) /\
  (forall d, Date r = Some d -> d <> "" -> ensure_date date r = r).
Proof.
  unfold ensure_date. split.
  - intros [-> | ->]; reflexivity.
  - intros d -> Hd. destruct d; [congruence|reflexivity].
Qed.

(** C7.  Every outcome returned by [extract_receipt_data] is of exactly
    one of two kinds: a success with at least one item and a method other
    than the failure marker, or a failure with no item and an error
    message. *)
Theorem C7_outcome_invariant file_path tr o tr' :
  extract_receipt_data E file_path tr = (Ok o, tr') ->
  let succeeded :=
    success o = true /\ items o <> [] /\ method o <> "failed" in
  let failed :=
    success o = false /\ items o = [] /\ exists e, error_msg o = Some e in
  (succeeded \/ failed) /\ ~ (succeeded /\ failed).
Proof.
  unfold extract_receipt_data. unfold bind at 1.
  destruct (stages E file_path tr) as [[s|e] tr1] eqn:Hs; [|discriminate].
  apply stages_shape in Hs.
  destruct s as [o1|l m]; unfold ret; intros [= <- _]; simpl.
  - destruct Hs as (Hi & Hsucc & (e & He & _) & _).
    split.
    + right. eauto.
    + intros [[Ht _] _]. congruence.
  - destruct Hs as [Hl Hm]. split.
    + left. split; [reflexivity|]. split.
      * destruct l; [congruence|discriminate].
      * intros ->. simpl in Hm. intuition discriminate.
    + intros [_ [Hf _]]. discriminate.
Qed.


(** C6.  When the direct vision stage returns at least one item,
    [extract_receipt_data] returns those items (with the date filled in
    where it is empty) with success, no error and the method
    gemini_vision, and the trace is the one of the vision stage: no later
    stage is entered.  When the stage returned the single Coffee item, the
    outcome has that one item and the sum of the totals is 4.5. *)
Theorem C6_vision_terminates file_path tr its tr1 :
  direct_parse E file_path tr = (Ok (Some its), tr1) ->
  its <> [] ->
  let today := strftime_dmy (now E) in
  extract_receipt_data E file_path tr
    = (Ok (Outcome (map (ensure_date today) its) true None "gemini_vision"),
       tr1) /\
  (Forall (fun r => exists d, Date r = Some d /\ d <> "") its ->
   map (ensure_date today) its = its) /\
  (normalize_items E today coffee = Ok its ->
   map (ensure_date today) its
     = [ {| Date := Some today; Item := "Coffee"; Price := VFloat (Fin 4.5);
            Qty := VFloat (fin_of_Z 1); Total := VFloat (Fin 4.5) |} ] /\
   total_sum (map (ensure_date today) its) = Ok (Fin (Qred 4.5))).
Proof.
  intros Hd Hne today. split; [|split].
  - unfold extract_receipt_data, stages. unfold bind at 1 2.
    rewrite Hd. destruct its as [|r l]; [congruence|]. simpl.
    unfold tables_and_regex. unbind. reflexivity.
  - intros Hall. clear Hd Hne. induction its as [|r l IH]; [reflexivity|].
    inversion Hall as [|? ? (d & HD & Hdne) Hl]; subst. simpl.
    rewrite IH by assumption. f_equal.
    apply (proj2 (ensure_date_default today r) d HD Hdne).
  - intros [= <-]. simpl.
    assert (Ht : str_truthy today = true).
    { pose proof (strftime_dmy_nonempty (now E)) as Hn. fold today in Hn.
      destruct today; [congruence|reflexivity]. }
    unfold ensure_date; simpl. rewrite Ht. split; reflexivity.
Qed.




Lemma chars_append (a b : string) : chars (a ++ b) = (chars a ++ chars b)%list.
Proof.
  unfold chars. induction a as [|c a IH]; [reflexivity|].
  simpl. f_equal. exact IH.
Qed.

























Ltac run :=
  unfold bind, ret, enter, lift;
  cbn -[too_short strip quality_error first_usable substages is_image_ext].






End Pipeline.

(** C7 on the image of the Coffee scenario. *)
Lemma C7_outcome_invariant_witness :
  exists o,
    fst (extract_receipt_data Stubs.coffee_env "receipt.jpg" []) = Ok o /\
    success o = true /\ items o <> [] /\ method o <> "failed".
Proof.
  destruct (extract_receipt_data Stubs.coffee_env "receipt.jpg" [])
    as [[o|e] tr'] eqn:Hrun; [|vm_compute in Hrun; discriminate].
  exists o. split; [reflexivity|].
  destruct (C7_outcome_invariant _ _ _ _ _ Hrun) as [[Hs | Hf] _].
  - exact Hs.
  - exfalso. vm_compute in Hrun. injection Hrun as <- _.
    destruct Hf as [Hf _]. discriminate.
Defined.


(** C6 on the image of the Coffee scenario. *)
Lemma C6_vision_terminates_witness :
  let run := extract_receipt_data Stubs.coffee_env "receipt.jpg" [] in
  exists o,
    run = (Ok o, [Parse_directly_from_image "receipt.jpg"]) /\
    method o = "gemini_vision" /\ success o = true /\
    length (items o) = 1%nat /\ total_sum (items o) = Ok (Fin (Qred 4.5)).
Proof.
  pose proof (C6_vision_terminates Stubs.coffee_env "receipt.jpg" []
                [ {| Date := Some "03/11/2026"; Item := "Coffee";
                     Price := VFloat (Fin 4.5); Qty := VFloat (fin_of_Z 1);
                     Total := VFloat (Fin 4.5) |} ]
                [Parse_directly_from_image "receipt.jpg"]) as H.
  destruct H as (Hrun & _ & Hcoffee).
  - vm_compute. reflexivity.
  - discriminate.
  - destruct (Hcoffee eq_refl) as [Hitems Hsum].
    eexists. split; [exact Hrun|]. simpl.
    split; [reflexivity|]. split; [reflexivity|].
    split; [vm_compute; reflexivity | exact Hsum].
Defined.





(** ** The batch aggregator and the temporary files *)

Section Batch.
Variable S : services.

(** A message touches neither the temporary files, nor the sheet, nor
    Drive. *)
Lemma send_message_store chat r st :
  tmp_files (snd (send_message S chat r st)) = tmp_files st /\
  sheet (snd (send_message S chat r st)) = sheet st /\
  drive (snd (send_message S chat r st)) = drive st.
Proof. unfold send_message. destruct (telegram_send S chat r); cbn; auto. Qed.

Lemma send_message_tmp chat r st :
  tmp_files (snd (send_message S chat r st)) = tmp_files st.
Proof. apply send_message_store. Qed.

(** A message is sent, or the call raises and nothing is sent. *)
Lemma send_message_sent chat r st :
  match send_message S chat r st with
  | (Ok _, st') =>
      telegram_send S chat r = Ok tt /\
      sent st' = (sent st ++ [(chat, r)])%list
  | (Raise e, st') => telegram_send S chat r = Raise e /\ st' = st
  end.
Proof.
  unfold send_message. destruct (telegram_send S chat r) as [[]|e]; cbn; auto.
Qed.

(** The summary raises nothing but the [OverflowError] of a total that is
    an integer beyond the range of a float. *)
Lemma summary_of_raises r e :
  summary_of r = Raise e -> overflows (Total r) = true /\ e = overflow_error.
Proof.
  unfold summary_of. destruct (float (Total r)) as [f|e'] eqn:Hf; [discriminate|].
  destruct (float_raises (Total r) e' Hf) as [Hv | [Ho ->]].
  - rewrite Hv. discriminate.
  - cbn. intros [= <-]. auto.
Qed.

(** [update_soa] converts every total before the summary does: when it
    returns, the summary does not raise. *)
Lemma soa_amount_summary r x :
  SheetsService.soa_amount r = Ok x -> exists l, summary_of r = Ok l.
Proof.
  intros Hx. destruct (summary_of r) as [l|e] eqn:Hs; [eauto|].
  destruct (summary_of_raises r e Hs) as [Ho _].
  unfold SheetsService.soa_amount in Hx.
  rewrite (overflows_truthy _ Ho), (float_overflows _ Ho) in Hx.
  discriminate.
Qed.

Lemma soa_rows_summary its : forall rows,
  SheetsService.soa_rows its = Ok rows ->
  exists lines, summary_lines its = Ok lines.
Proof.
  induction its as [|it rest IH]; intros rows; [exists []; reflexivity|].
  cbn [SheetsService.soa_rows summary_lines]. unfold SheetsService.soa_row.
  destruct (SheetsService.soa_amount it) as [x|e] eqn:Hx; [|discriminate].
  destruct (SheetsService.soa_rows rest) as [rows'|e]; [|discriminate].
  intros _. destruct (soa_amount_summary it x Hx) as [l ->].
  destruct (IH rows' eq_refl) as [lines ->]. eauto.
Qed.

Lemma update_soa_summary its :
  update_soa S its = Ok tt -> exists lines, summary_lines its = Ok lines.
Proof.
  unfold update_soa. destruct (soa_worksheet S); [|discriminate].
  destruct (SheetsService.soa_rows its) as [rows|e] eqn:Hr; [|discriminate].
  intros _. exact (soa_rows_summary its rows Hr).
Qed.

Lemma summary_lines_app l1 : forall l2 x1 x2,
  summary_lines l1 = Ok x1 -> summary_lines l2 = Ok x2 ->
  summary_lines (l1 ++ l2) = Ok (x1 ++ x2)%list.
Proof.
  induction l1 as [|r l1 IH]; intros l2 x1 x2.
  - intros [= <-] H. exact H.
  - cbn [summary_lines app].
    destruct (summary_of r) as [l|e]; [|discriminate].
    destruct (summary_lines l1) as [x|e] eqn:H1; [|discriminate].
    intros [= <-] H2. rewrite (IH l2 x x2 eq_refl H2). reflexivity.
Qed.

(** The loop of the summary, when no line raises. *)
Lemma summarise_lines its : forall lines a,
  summary_lines its = Ok lines ->
  exists a',
    summarise its a = (a', None) /\
    all_items a' = all_items a /\
    all_summary_lines a' = (all_summary_lines a ++ lines)%list /\
    total_amount a' = fold_left add_amount lines (total_amount a) /\
    methods_used a' = methods_used a /\
    errors a' = errors a /\
    drive_uploaded a' = drive_uploaded a /\
    drive_error a' = drive_error a.
Proof.
  induction its as [|it rest IH]; intros lines a.
  - intros [= <-]. exists a. cbn. rewrite app_nil_r. auto 10.
  - cbn [summary_lines summarise].
    destruct (summary_of it) as [l|e]; [|discriminate].
    destruct (summary_lines rest) as [x|e] eqn:Hx; [|discriminate].
    intros [= <-].
    destruct (IH x (add_line l a) eq_refl)
      as (a' & Hrun & H1 & H2 & H3 & H4 & H5 & H6 & H7).
    exists a'. split; [exact Hrun|]. cbn in *.
    rewrite H1, H2, H3, H4, H5, H6, H7, <- app_assoc. auto 10.
Qed.

(** The [try] block of the loop body after a call of [update_soa] that
    returned. *)
Lemma record_stored i o tmp a st :
  success o && match items o with [] => false | _ => true end = true ->
  update_soa S (items o) = Ok tt ->
  exists a' st' lines,
    record_outcome S i o tmp a st = (a', None, st') /\
    summary_lines (items o) = Ok lines /\
    all_items a' = (all_items a ++ items o)%list /\
    all_summary_lines a' = (all_summary_lines a ++ lines)%list /\
    total_amount a' = fold_left add_amount lines (total_amount a) /\
    errors a' = errors a /\
    sent st' = sent st /\
    tmp_files st' = tmp_files st /\
    sheet st' = (sheet st ++ items o)%list /\
    drive st'
    = (drive st ++
         match drive_folder_id S with
         | Some folder =>
             if str_truthy folder && str_truthy tmp
                && bool_decide (tmp ∈ tmp_files st)
             then match upload_file S tmp with
                  | Ok _ => [tmp]
                  | Raise _ => []
                  end
             else []
         | None => []
         end)%list.
Proof.
  intros Hok Hsoa. unfold record_outcome. rewrite Hok, Hsoa.
  destruct (update_soa_summary (items o) Hsoa) as [lines Hl].
  destruct (summarise_lines (items o) lines (add_items o a) Hl)
    as (a1 & -> & H1 & H2 & H3 & _ & H5 & _).
  cbn [add_items all_items all_summary_lines total_amount errors] in *.
  unfold try_upload, append_rows. cbn [snd tmp_files sheet drive sent].
  destruct (drive_folder_id S) as [folder|].
  2:{ eexists a1, _, lines. split; [reflexivity|].
      cbn. rewrite app_nil_r. auto 12. }
  match goal with |- context [if ?c then _ else _] => destruct c end.
  2:{ eexists a1, _, lines. split; [reflexivity|].
      cbn. rewrite app_nil_r. auto 12. }
  destruct (upload_file S tmp) as [[]|e].
  - eexists _, _, lines. split; [reflexivity|]. cbn. auto 12.
  - eexists _, _, lines. split; [reflexivity|].
    cbn. rewrite app_nil_r. auto 12.
Qed.

(** The loop body on a document, by its fate. *)
Lemma process_receipt_fate i it a st :
  exists a' st',
    process_receipt S i it a st = (Ok a', st') /\
    match fate_of S it with
    | Stored o =>
        exists lines,
          summary_lines (items o) = Ok lines /\
          all_items a' = (all_items a ++ items o)%list /\
          all_summary_lines a' = (all_summary_lines a ++ lines)%list /\
          total_amount a' = fold_left add_amount lines (total_amount a) /\
          errors a' = errors a
    | Failed reason =>
        all_items a' = all_items a /\
        all_summary_lines a' = all_summary_lines a /\
        total_amount a' = total_amount a /\
        errors a' = (errors a ++ [(receipt_tag i ++ reason)%string])%list
    end.
Proof.
  unfold process_receipt, _process_single_receipt, fate_of, await_extraction.
  unfold bbind, blift, braise, create_tmp.
  destruct (get_file S (source_file_id it)) as [[]|e].
  2:{ eexists _, _. split; [reflexivity|].
      unfold record_exception, reason_of, receipt_tag.
      destruct (exn_cls e); simpl; auto. }
  destruct (download_to_drive S (source_file_id it)) as [[]|e].
  2:{ eexists _, _. split; [reflexivity|].
      unfold record_exception, reason_of, receipt_tag.
      destruct (exn_cls e); simpl; auto. }
  set (tmp := tmp_name S (source_file_id it) (it_suffix it)).
  destruct (timed_out S tmp).
  { eexists _, _. split; [reflexivity|]. simpl. auto. }
  generalize (fst (extract_receipt_data (extractor S) tmp [])). intros [o|e].
  2:{ eexists _, _. split; [reflexivity|].
      unfold record_exception, reason_of, receipt_tag.
      destruct (exn_cls e); simpl; auto. }
  cbn [unlink].
  destruct (success o && match items o with [] => false | _ => true end)
    eqn:Hok.
  2:{ unfold record_outcome. rewrite Hok.
      eexists _, _. split; [reflexivity|]. simpl. auto. }
  destruct (update_soa S (items o)) as [[]|e] eqn:Hsoa.
  2:{ unfold record_outcome. rewrite Hok, Hsoa.
      eexists _, _. split; [reflexivity|].
      unfold record_exception, reason_of, receipt_tag.
      destruct (exn_cls e); simpl; auto. }
  match goal with
  | |- context [record_outcome S i o tmp a ?x] =>
      destruct (record_stored i o tmp a x Hok Hsoa)
        as (a' & st' & lines & -> & Hl & H1 & H2 & H3 & H4 & _)
  end.
  eexists _, _. split; [reflexivity|]. exists lines. auto.
Qed.

(** The loop body on the store: no message is sent, and the temporary
    file is gone unless the download raised. *)
Lemma process_receipt_store i it a st :
  let st' := snd (process_receipt S i it a st) in
  let tmp := tmp_name S (source_file_id it) (it_suffix it) in
  tmp <> "" ->
  sent st' = sent st /\
  match get_file S (source_file_id it) with
  | Raise _ => tmp_files st' = tmp_files st
  | Ok _ =>
      match download_to_drive S (source_file_id it) with
      | Raise _ => tmp_files st' = {[tmp]} ∪ tmp_files st
      | Ok _ => tmp_files st' = tmp_files st ∖ {[tmp]}
      end
  end.
Proof.
  unfold process_receipt, _process_single_receipt, await_extraction.
  unfold bbind, blift, braise, create_tmp.
  intros Hne.
  destruct (get_file S (source_file_id it)) as [[]|e].
  2:{ simpl. auto. }
  destruct (download_to_drive S (source_file_id it)) as [[]|e].
  2:{ simpl. auto. }
  set (tmp := tmp_name S (source_file_id it) (it_suffix it)) in *.
  assert (Hset : forall X : gset string, ({[tmp]} ∪ X) ∖ {[tmp]} = X ∖ {[tmp]}).
  { intros X. set_solver. }
  assert (Ht : str_truthy tmp = true).
  { destruct tmp; [congruence|reflexivity]. }
  destruct (timed_out S tmp).
  { simpl. auto. }
  generalize (fst (extract_receipt_data (extractor S) tmp [])). intros [o|e].
  2:{ simpl. auto. }
  cbn [unlink]. rewrite Ht.
  destruct (success o && match items o with [] => false | _ => true end)
    eqn:Hok.
  2:{ unfold record_outcome. rewrite Hok. simpl. auto. }
  destruct (update_soa S (items o)) as [[]|e] eqn:Hsoa.
  2:{ unfold record_outcome. rewrite Hok, Hsoa. simpl. auto. }
  match goal with
  | |- context [record_outcome S ?j o tmp a ?x] =>
      destruct (record_stored j o tmp a x Hok Hsoa)
        as (a' & st' & lines & -> & _ & _ & _ & _ & _ & Hsent & Hfiles & _)
  end.
  cbn. rewrite Hsent, Hfiles. cbn. auto.
Qed.

Lemma process_receipt_sent i it a st :
  sent (snd (process_receipt S i it a st)) = sent st.
Proof.
  unfold process_receipt, _process_single_receipt, await_extraction.
  unfold bbind, blift, braise, create_tmp.
  destruct (get_file S (source_file_id it)) as [[]|e]; [|reflexivity].
  destruct (download_to_drive S (source_file_id it)) as [[]|e]; [|reflexivity].
  set (tmp := tmp_name S (source_file_id it) (it_suffix it)) in *.
  destruct (timed_out S tmp); [reflexivity|].
  generalize (fst (extract_receipt_data (extractor S) tmp [])). intros [o|e];
    [|reflexivity].
  cbn [unlink].
  destruct (success o && match items o with [] => false | _ => true end)
    eqn:Hok.
  2:{ unfold record_outcome. rewrite Hok. simpl.
      destruct (str_truthy tmp); reflexivity. }
  destruct (update_soa S (items o)) as [[]|e] eqn:Hsoa.
  2:{ unfold record_outcome. rewrite Hok, Hsoa. simpl.
      destruct (str_truthy tmp); reflexivity. }
  match goal with
  | |- context [record_outcome S ?j o tmp a ?x] =>
      destruct (record_stored j o tmp a x Hok Hsoa)
        as (a' & st' & lines & -> & _ & _ & _ & _ & _ & Hsent & _)
  end.
  cbn. destruct (str_truthy tmp); cbn; rewrite Hsent; reflexivity.
Qed.

Lemma process_receipts_fate its : forall i a st,
  exists a' st' lines,
    process_receipts S i its a st = (Ok a', st') /\
    sent st' = sent st /\
    summary_lines (batch_items S its) = Ok lines /\
    all_items a' = (all_items a ++ batch_items S its)%list /\
    all_summary_lines a' = (all_summary_lines a ++ lines)%list /\
    total_amount a' = fold_left add_amount lines (total_amount a) /\
    errors a' = (errors a ++ batch_errors S i its)%list.
Proof.
  induction its as [|it rest IH]; intros i a st.
  - exists a, st, []. simpl. unfold bret. rewrite !app_nil_r. auto 10.
  - cbn [process_receipts]. unfold bbind.
    destruct (process_receipt_fate i it a st) as (a1 & st1 & Hrun & Hfate).
    pose proof (process_receipt_sent i it a st) as Hsent.
    rewrite Hrun in *. cbn [snd] in Hsent.
    destruct (IH (Datatypes.S i) a1 st1)
      as (a2 & st2 & lines2 & Hrun2 & Hs2 & Hl2 & Hi & Hl & Ht & He).
    unfold batch_items in *. cbn [flat_map batch_errors].
    destruct (fate_of S it) as [o|reason].
    + destruct Hfate as (lines1 & Hl1 & Hi1 & Hs1 & Ht1 & He1).
      exists a2, st2, (lines1 ++ lines2)%list.
      split; [exact Hrun2|]. split; [congruence|].
      split; [apply summary_lines_app; assumption|].
      rewrite Hi, Hl, Ht, He, Hi1, Hs1, Ht1, He1.
      rewrite fold_left_app, <- !app_assoc. auto.
    + destruct Hfate as (Hi1 & Hs1 & Ht1 & He1).
      exists a2, st2, lines2.
      split; [exact Hrun2|]. split; [congruence|].
      split; [exact Hl2|].
      rewrite Hi, Hl, Ht, He, Hi1, Hs1, Ht1, He1.
      rewrite <- !app_assoc. auto.
Qed.

Lemma batch_errors_length its : forall i,
  length (batch_errors S i its) = length (List.filter (failed S) its).
Proof.
  induction its as [|it rest IH]; intros i; [reflexivity|].
  cbn [batch_errors List.filter]. unfold failed at 1.
  destruct (fate_of S it); cbn [length]; rewrite IH; reflexivity.
Qed.

Lemma batch_errors_tagged its : forall i j it reason,
  nth_error its j = Some it ->
  fate_of S it = Failed reason ->
  In (receipt_tag (i + j) ++ reason) (batch_errors S i its).
Proof.
  induction its as [|x rest IH]; intros i j it reason Hnth Hfate.
  - destruct j; discriminate.
  - destruct j as [|j]; cbn [nth_error] in Hnth.
    + injection Hnth as ->. cbn [batch_errors]. rewrite Hfate.
      rewrite Nat.add_0_r. left. reflexivity.
    + cbn [batch_errors].
      assert (Hin : In (receipt_tag (i + Datatypes.S j) ++ reason)
                       (batch_errors S (Datatypes.S i) rest)).
      { replace (i + Datatypes.S j)%nat with (Datatypes.S i + j)%nat by lia.
        eapply IH; eassumption. }
      destruct (fate_of S x); [exact Hin | right; exact Hin].
Qed.

Lemma fate_timed_out it :
  get_file S (source_file_id it) = Ok tt ->
  download_to_drive S (source_file_id it) = Ok tt ->
  timed_out S (tmp_name S (source_file_id it) (it_suffix it)) = true ->
  fate_of S it = Failed "Timed out".
Proof.
  intros Hg Hd Ht. unfold fate_of. rewrite Hg, Hd, Ht. reflexivity.
Qed.

(** The handler of a batch once the sheet is configured: the loop, then
    the report; when the report cannot be sent, the [except] clause tries
    to send the error. *)
Lemma batch_after_loop chat its st a st1 :
  sheets_configured S = true ->
  sheets_service S = Ok tt ->
  process_receipts S 0 its initial st = (Ok a, st1) ->
  _process_media_group_receipts S chat its st
  = match send_message S chat (report (length its) a) st1 with
    | (Ok _, st') => (Ok tt, st')
    | (Raise e, st') => send_message S chat (Error_reply (exn_msg e)) st'
    end.
Proof.
  intros Hconf Hsheets Hrun. unfold _process_media_group_receipts.
  rewrite Hconf. cbn [negb]. unfold bbind, blift. rewrite Hsheets, Hrun.
  reflexivity.
Qed.

(** C5.  The batch is processed from its first to its last document and
    the loop always runs to its end: the merged items are those of the
    documents that succeeded, in the order of the batch, and there is one
    error entry for every document that failed, tagged with its position
    counted from 1; a timeout is recorded as Timed out.  The report of the
    batch is made of them, and it is the message of the handler when the
    transport delivers it; when sending it raises, the handler goes on to
    send the error message of its [except] clause.  When some documents
    succeeded and some failed,
    the report is the one that lists the items and the errors. *)
Theorem C5_batch_isolation chat its st :
  sheets_configured S = true ->
  sheets_service S = Ok tt ->
  exists a st1,
    process_receipts S 0 its initial st = (Ok a, st1) /\
    sent st1 = sent st /\
    (telegram_send S chat (report (length its) a) = Ok tt ->
     exists st',
       _process_media_group_receipts S chat its st = (Ok tt, st') /\
       sent st' = (sent st ++ [(chat, report (length its) a)])%list) /\
    (forall e,
       telegram_send S chat (report (length its) a) = Raise e ->
       _process_media_group_receipts S chat its st
       = send_message S chat (Error_reply (exn_msg e)) st1) /\
    all_items a = batch_items S its /\
    summary_lines (batch_items S its) = Ok (all_summary_lines a) /\
    total_sum (batch_items S its) = Ok (total_amount a) /\
    errors a = batch_errors S 0 its /\
    length (errors a) = length (List.filter (failed S) its) /\
    (forall j it reason,
       nth_error its j = Some it -> fate_of S it = Failed reason ->
       In (receipt_tag j ++ reason) (errors a)) /\
    (forall j it,
       nth_error its j = Some it ->
       get_file S (source_file_id it) = Ok tt ->
       download_to_drive S (source_file_id it) = Ok tt ->
       timed_out S (tmp_name S (source_file_id it) (it_suffix it)) = true ->
       In (receipt_tag j ++ "Timed out") (errors a)) /\
    (batch_items S its <> [] ->
     report (length its) a
       = Processed (length its) (all_summary_lines a) (total_amount a)
           (drive_note_of a) (methods_used a) (batch_errors S 0 its)).
Proof.
  intros Hconf Hsheets.
  destruct (process_receipts_fate its 0 initial st)
    as (a & st1 & lines & Hrun & Hsent & Hlines & Hi & Hl & Ht & He).
  cbn [initial all_items all_summary_lines total_amount errors app] in Hi, Hl, Ht, He.
  exists a, st1.
  split; [exact Hrun|]. split; [exact Hsent|].
  split.
  { intros Hsend.
    rewrite (batch_after_loop chat its st a st1 Hconf Hsheets Hrun).
    pose proof (send_message_sent chat (report (length its) a) st1) as Hm.
    destruct (send_message S chat (report (length its) a) st1) as [[[]|e] st'].
    - exists st'. split; [reflexivity|]. destruct Hm as [_ ->].
      rewrite Hsent. reflexivity.
    - destruct Hm as [Hm _]. congruence. }
  split.
  { intros e Hraise.
    rewrite (batch_after_loop chat its st a st1 Hconf Hsheets Hrun).
    unfold send_message at 1. rewrite Hraise. reflexivity. }
  split; [exact Hi|]. split; [rewrite Hl; exact Hlines|].
  split; [unfold total_sum; rewrite Hlines, Ht; reflexivity|].
  split; [exact He|].
  split; [rewrite He; apply batch_errors_length|].
  split.
  { intros j it reason Hnth Hfate. rewrite He.
    apply (batch_errors_tagged its 0 j it reason Hnth Hfate). }
  split.
  { intros j it Hnth Hg Hd Hto. rewrite He.
    apply (batch_errors_tagged its 0 j it "Timed out" Hnth).
    apply fate_timed_out; assumption. }
  intros Hne. unfold report. rewrite He.
  destruct (all_summary_lines a) as [|l ls] eqn:Hls; [|reflexivity].
  exfalso. subst lines.
  destruct (batch_items S its) as [|r rest]; [congruence|].
  cbn [summary_lines] in Hlines.
  destruct (summary_of r); [|discriminate].
  destruct (summary_lines rest); discriminate.
Qed.

(** After a download that succeeded, a batch leaves no temporary file of
    its own behind. *)
Lemma process_receipts_release its : forall i a st,
  (forall it, In it its ->
     tmp_name S (source_file_id it) (it_suffix it) <> "" /\
     (tmp_name S (source_file_id it) (it_suffix it) ∉ tmp_files st) /\
     (forall e, download_to_drive S (source_file_id it) <> Raise e)) ->
  tmp_files (snd (process_receipts S i its a st)) = tmp_files st.
Proof.
  induction its as [|it rest IH]; intros i a st Hall; [reflexivity|].
  cbn [process_receipts]. unfold bbind.
  destruct (process_receipt_fate i it a st) as (a1 & st1 & Hrun & _).
  destruct (Hall it (or_introl eq_refl)) as (Hne & Hfresh & Hdl).
  pose proof (process_receipt_store i it a st Hne) as [_ Hfiles].
  rewrite Hrun in *. cbn [snd] in Hfiles.
  assert (Hsame : tmp_files st1 = tmp_files st).
  { destruct (get_file S (source_file_id it)); [|exact Hfiles].
    destruct (download_to_drive S (source_file_id it)) as [u|e].
    - rewrite Hfiles. set_solver.
    - exfalso. apply (Hdl e). reflexivity. }
  rewrite IH.
  - exact Hsame.
  - intros it' Hin. rewrite Hsame. apply Hall. right. exact Hin.
Qed.

(** The [try] block of the handler of a single document neither creates
    nor removes a temporary file. *)
Lemma extract_and_store_tmp chat tmp st :
  tmp_files (snd (extract_and_store S chat tmp st)) = tmp_files st.
Proof.
  unfold extract_and_store, await_extraction, braise, blift.
  destruct (timed_out S tmp); [apply send_message_tmp|].
  generalize (fst (extract_receipt_data (extractor S) tmp [])).
  intros [o|e].
  2:{ destruct (exn_cls e); try reflexivity. apply send_message_tmp. }
  destruct (success o); cbn [negb]; [|apply send_message_tmp].
  unfold bbind, blift.
  destruct (sheets_service S) as [[]|e]; [|reflexivity].
  destruct (update_soa S (items o)) as [[]|e]; [|reflexivity].
  cbn [append_rows]. unfold upload_single.
  cbn [tmp_files sheet drive sent].
  assert (Hend : forall note st0,
            tmp_files (snd
              (match summary_lines (items o) with
               | Ok lines =>
                   match lines with
                   | _ :: _ =>
                       send_message S chat
                         (Extracted lines
                            (fold_left add_amount lines (fin_of_Z 0)) note
                            (method o))
                   | [] => send_message S chat Extracted_plain
                   end st0
               | Raise e => (Raise e, st0)
               end)) = tmp_files st0).
  { intros note st0. destruct (summary_lines (items o)) as [[|l ls]|e];
      [apply send_message_tmp | apply send_message_tmp | reflexivity]. }
  destruct (drive_folder_id S) as [folder|];
    [destruct (str_truthy folder);
     [match goal with
      | |- context [bool_decide ?P] => destruct (bool_decide P)
      end;
      [destruct (upload_file S tmp) as [[]|e]|]|]|];
    cbn -[send_message summary_lines]; rewrite Hend; reflexivity.
Qed.

(** The same for the handler of a single document: once the download has
    succeeded, every way out of the handler unlinks the temporary file. *)
Lemma handle_receipt_extraction_release chat doc suffix st :
  download_to_drive S (doc_file_id doc) = Ok tt ->
  tmp_name S (doc_file_id doc) suffix ∉ tmp_files st ->
  tmp_files (snd (handle_receipt_extraction S chat (Some doc) None suffix st))
  = tmp_files st.
Proof.
  intros Hdl Hfresh. unfold handle_receipt_extraction.
  assert (Hexc : forall (r : result unit) st0,
            tmp_files (snd match r with
                           | Ok _ => (Ok tt, st0)
                           | Raise e =>
                               send_message S chat (Error_reply (exn_msg e)) st0
                           end) = tmp_files st0).
  { intros [u|e] st0; [reflexivity | apply send_message_tmp]. }
  destruct (sheets_configured S); cbn [negb].
  2:{ pose proof (send_message_tmp chat Not_configured st) as Hs.
      destruct (send_message S chat Not_configured st) as [r st0].
      cbn [snd] in Hs. rewrite <- Hs. apply (Hexc r st0). }
  unfold bbind, blift.
  destruct (get_file S (doc_file_id doc)) as [[]|e]; [|apply send_message_tmp].
  pose proof (send_message_tmp chat Received st) as Hs.
  destruct (send_message S chat Received st) as [[[]|e] st0]; cbn [snd] in Hs.
  2:{ rewrite <- Hs. apply send_message_tmp. }
  cbn [create_tmp]. rewrite Hdl.
  set (tmp := tmp_name S (doc_file_id doc) suffix) in *.
  match goal with
  | |- context [extract_and_store S chat tmp ?x] =>
      pose proof (extract_and_store_tmp chat tmp x) as Hinner;
      destruct (extract_and_store S chat tmp x) as [r st2]
  end.
  cbn [snd tmp_files] in Hinner. cbn [unlink].
  match goal with
  | |- tmp_files (snd match ?r with _ => _ end) = _ =>
      idtac
  | _ => idtac
  end.
  destruct r as [[]|e]; cbn [snd tmp_files];
    rewrite ?send_message_tmp; cbn [tmp_files];
    rewrite Hinner, Hs; set_solver.
Qed.

(** C9, on the path on which the code departs from it: when the download
    into the temporary file raises, the file has been created and nothing
    unlinks it, neither in the batch nor in the handler of a single
    document (which creates the file once its note that the document was
    received has been sent). *)
Theorem C9_download_failure_leaves_file chat doc suffix st e :
  sheets_configured S = true ->
  sheets_service S = Ok tt ->
  get_file S (doc_file_id doc) = Ok tt ->
  download_to_drive S (doc_file_id doc) = Raise e ->
  let it := {| it_file_id := doc_file_id doc; it_doc := Some doc;
               it_photo := None; it_suffix := suffix |} in
  let tmp := tmp_name S (doc_file_id doc) suffix in
  tmp ∈ tmp_files (snd (_process_media_group_receipts S chat [it] st)) /\
  (telegram_send S chat Received = Ok tt ->
   tmp ∈ tmp_files
           (snd (handle_receipt_extraction S chat (Some doc) None suffix st))).
Proof.
  intros Hconf Hsheets Hget Hdl it tmp. split.
  - assert (Hrun : exists a,
              process_receipts S 0 [it] initial st
              = (Ok a, {| tmp_files := {[tmp]} ∪ tmp_files st;
                          sheet := sheet st; drive := drive st;
                          sent := sent st |})).
    { cbn [process_receipts].
      unfold bbind, process_receipt, _process_single_receipt.
      unfold bbind, blift, create_tmp. cbn [source_file_id it it_doc it_suffix].
      rewrite Hget, Hdl. eexists. reflexivity. }
    destruct Hrun as [a Hrun].
    rewrite (batch_after_loop chat [it] st a _ Hconf Hsheets Hrun).
    match goal with
    | |- context [send_message S chat ?r ?x] =>
        pose proof (send_message_tmp chat r x) as Hs;
        destruct (send_message S chat r x) as [[[]|e1] st1]
    end; cbn [snd tmp_files] in Hs.
    + cbn [snd]. rewrite Hs. set_solver.
    + rewrite send_message_tmp, Hs. set_solver.
  - intros Hsend. unfold handle_receipt_extraction. rewrite Hconf. cbn [negb].
    unfold bbind, blift. rewrite Hget.
    unfold send_message at 1. rewrite Hsend.
    cbn [create_tmp]. rewrite Hdl.
    rewrite send_message_tmp. cbn. set_solver.
Qed.
End Batch.

(** C5 on a batch of three documents whose second one times out. *)
Lemma C5_batch_isolation_witness :
  let its := [Stubs.jpg "a"; Stubs.jpg "slow"; Stubs.jpg "c"] in
  exists a st',
    _process_media_group_receipts Stubs.one_slow 7 its Stubs.empty_store
      = (Ok tt, st') /\
    sent st' = [(7%Z, report 3 a)] /\
    errors a = ["Receipt 2: Timed out"] /\
    length (all_items a) = 2%nat /\
    exists lines total note used,
      report 3 a = Processed 3 lines total note used ["Receipt 2: Timed out"].
Proof.
  intros its.
  destruct (C5_batch_isolation Stubs.one_slow 7 its Stubs.empty_store
              eq_refl eq_refl)
    as (a & st1 & _ & _ & Hsend & _ & Hi & _ & _ & He & _ & _ & _ & Hrep).
  destruct (Hsend eq_refl) as (st' & Hrun & Hsent).
  exists a, st'. split; [exact Hrun|]. split; [exact Hsent|].
  split; [rewrite He; vm_compute; reflexivity|].
  split; [rewrite Hi; vm_compute; reflexivity|].
  change (length its) with 3%nat in Hrep.
  rewrite Hrep; [|vm_compute; discriminate].
  do 4 eexists. reflexivity.
Defined.

(** C9 on a batch of one document whose download fails. *)
Lemma C9_download_failure_leaves_file_witness :
  "/tmp/tmp_r1.jpg"
    ∈ tmp_files (snd (_process_media_group_receipts Stubs.offline 7
                        [Stubs.jpg "r1"] Stubs.empty_store)).
Proof.
  exact (proj1 (C9_download_failure_leaves_file Stubs.offline 7
                  {| doc_file_id := "r1"; file_name := Some "r1.jpg";
                     mime_type := Some "image/jpeg" |}
                  ".jpg" Stubs.empty_store
                  (Exn OSError "Timed out downloading")
                  eq_refl eq_refl eq_refl eq_refl)).
Defined.

(** ** The media group collector *)

(** The transport is the same throughout a run. *)
Lemma flush_note t g w :
  progress_note (_flush_media_group t g w) = progress_note w.
Proof.
  unfold _flush_media_group, emit.
  destruct (_pending_media_groups w !! g) as [gr|]; [|reflexivity].
  destruct (g_items gr); [reflexivity|].
  destruct (progress_note w t (g_chat_id gr) _); reflexivity.
Qed.

Lemma flush_all_note l : forall w,
  progress_note (flush_all l w) = progress_note w.
Proof.
  induction l as [|tm l IH]; intros w; [reflexivity|].
  unfold flush_all in *. cbn [fold_left]. rewrite IH. apply flush_note.
Qed.

Lemma advance_note t w : progress_note (advance t w) = progress_note w.
Proof. unfold advance. cbn [progress_note]. rewrite flush_all_note. reflexivity. Qed.

Lemma enqueue_note g c it w :
  progress_note (enqueue g c it w) = progress_note w.
Proof. unfold enqueue. destruct (_pending_media_groups w !! g); reflexivity. Qed.

Lemma dispatch_note m w : progress_note (dispatch m w) = progress_note w.
Proof.
  unfold dispatch, handle_document, handle_photo_receipt.
  destruct (msg_document m) as [doc|].
  - repeat match goal with
           | |- context [if ?b then _ else _] => destruct b
           | |- context [match mg_truthy ?x with _ => _ end] =>
               destruct (mg_truthy x)
           end; try reflexivity; apply enqueue_note.
  - destruct (last (msg_photo m)); [|reflexivity].
    destruct (negb (is_for_receipt_extraction m)); [reflexivity|].
    destruct (mg_truthy (media_group_id m)); [apply enqueue_note|reflexivity].
Qed.

Lemma deliver_note w ev : progress_note (deliver w ev) = progress_note w.
Proof. unfold deliver. rewrite dispatch_note. apply advance_note. Qed.

Lemma run_note evs : forall w, progress_note (run evs w) = progress_note w.
Proof.
  unfold run. induction evs as [|ev evs IH]; intros w; [reflexivity|].
  cbn [fold_left]. rewrite IH. apply deliver_note.
Qed.

Lemma run_app evs1 evs2 w : run (evs1 ++ evs2) w = run evs2 (run evs1 w).
Proof. unfold run. apply fold_left_app. Qed.

Section Collector.

Variable mg : string.
Hypothesis mg_nonempty : mg <> "".

Lemma aggregates_of_app l1 l2 :
  aggregates_of mg (l1 ++ l2) = (aggregates_of mg l1 ++ aggregates_of mg l2)%list.
Proof. unfold aggregates_of. apply flat_map_app. Qed.

Lemma timers_of_app l1 l2 :
  timers_of mg (l1 ++ l2) = (timers_of mg l1 ++ timers_of mg l2)%list.
Proof. unfold timers_of. apply List.filter_app. Qed.

Lemma filter_swap {A} (p q : A -> bool) l :
  List.filter p (List.filter q l) = List.filter q (List.filter p l).
Proof.
  induction l as [|x l IH]; [reflexivity|]. cbn [List.filter].
  destruct (q x) eqn:Hq, (p x) eqn:Hp; cbn [List.filter];
    rewrite ?Hq, ?Hp, IH; reflexivity.
Qed.

Lemma filter_single_split {A} (p : A -> bool) l x :
  List.filter p l = [x] ->
  exists l1 l2, l = (l1 ++ x :: l2)%list /\
                List.filter p l1 = [] /\ List.filter p l2 = [].
Proof.
  induction l as [|y l IH]; [discriminate|]. cbn [List.filter].
  destruct (p y) eqn:Hp.
  - intros [= -> Hl]. exists [], l. auto.
  - intros Hl. destruct (IH Hl) as (l1 & l2 & -> & H1 & H2).
    exists (y :: l1), l2. cbn [List.filter app]. rewrite Hp. auto.
Qed.

(** The task of another media group leaves this one alone. *)
Lemma flush_other t g w :
  String.eqb g mg = false ->
  _pending_media_groups (_flush_media_group t g w) !! mg
    = _pending_media_groups w !! mg /\
  timers (_flush_media_group t g w) = timers w /\
  aggregates_of mg (effects (_flush_media_group t g w))
    = aggregates_of mg (effects w).
Proof.
  intros Hg. assert (Hne : g <> mg) by (apply String.eqb_neq; exact Hg).
  unfold _flush_media_group, emit.
  destruct (_pending_media_groups w !! g) as [gr|].
  - destruct (g_items gr);
      [|destruct (progress_note w t (g_chat_id gr) _)];
      cbn [_pending_media_groups timers effects];
      rewrite lookup_delete_ne by exact Hne;
      rewrite ?aggregates_of_app; cbn [aggregates_of flat_map];
      rewrite ?Hg, ?app_nil_r; auto.
  - cbn [_pending_media_groups timers effects].
    rewrite lookup_delete_ne by exact Hne. auto.
Qed.

Lemma flush_all_other l : forall w,
  timers_of mg l = [] ->
  _pending_media_groups (flush_all l w) !! mg = _pending_media_groups w !! mg /\
  timers (flush_all l w) = timers w /\
  aggregates_of mg (effects (flush_all l w)) = aggregates_of mg (effects w).
Proof.
  induction l as [|tm l IH]; intros w Hl; [auto|].
  unfold timers_of in Hl. cbn [List.filter] in Hl.
  destruct (String.eqb (snd tm) mg) eqn:Hg; [discriminate|].
  cbn [flush_all fold_left].
  destruct (flush_other (fst tm) (snd tm) w Hg) as (H1 & H2 & H3).
  destruct (IH (_flush_media_group (fst tm) (snd tm) w) Hl) as (I1 & I2 & I3).
  unfold flush_all in *. rewrite I1, I2, I3. auto.
Qed.

(** The task of the media group pops it from the registry; the
    aggregation is started when the progress note can be sent. *)
Lemma flush_member t w c acc :
  _pending_media_groups w !! mg = Some {| g_chat_id := c; g_items := acc |} ->
  acc <> [] ->
  _pending_media_groups (_flush_media_group t mg w) !! mg = None /\
  timers (_flush_media_group t mg w) = timers w /\
  aggregates_of mg (effects (_flush_media_group t mg w))
    = (aggregates_of mg (effects w)
         ++ handed (progress_note w) (t, c, acc))%list.
Proof.
  intros Hw Hacc. unfold _flush_media_group, emit, handed. rewrite Hw.
  cbn [g_items g_chat_id]. destruct acc as [|x acc]; [congruence|].
  destruct (progress_note w t c (length (x :: acc)));
    cbn [_pending_media_groups timers effects];
    rewrite lookup_delete_eq, ?aggregates_of_app;
    cbn [aggregates_of flat_map]; rewrite ?String.eqb_refl, ?app_nil_r; auto.
Qed.

(** Waking up the tasks among which exactly one is of the media group. *)
Lemma flush_all_member l w tf c acc :
  timers_of mg l = [(tf, mg)] ->
  _pending_media_groups w !! mg = Some {| g_chat_id := c; g_items := acc |} ->
  acc <> [] ->
  _pending_media_groups (flush_all l w) !! mg = None /\
  timers (flush_all l w) = timers w /\
  aggregates_of mg (effects (flush_all l w))
    = (aggregates_of mg (effects w)
         ++ handed (progress_note w) (tf, c, acc))%list.
Proof.
  intros Hl Hw Hacc.
  destruct (filter_single_split _ _ _ Hl) as (l1 & l2 & -> & H1 & H2).
  unfold flush_all. rewrite fold_left_app. cbn [fold_left fst snd].
  fold (flush_all l1 w).
  destruct (flush_all_other l1 w H1) as (A1 & A2 & A3).
  rewrite <- A1 in Hw.
  destruct (flush_member tf (flush_all l1 w) c acc Hw Hacc) as (B1 & B2 & B3).
  fold (flush_all l2 (_flush_media_group tf mg (flush_all l1 w))).
  destruct (flush_all_other l2 (_flush_media_group tf mg (flush_all l1 w)) H2)
    as (C1 & C2 & C3).
  rewrite C1, C2, C3, B1, B2, B3, A2, A3, flush_all_note. auto.
Qed.

Lemma timers_of_filter p l :
  timers_of mg (List.filter p l) = List.filter p (timers_of mg l).
Proof. unfold timers_of. apply filter_swap. Qed.

(** Time passes, but not up to the wake-up time of the media group. *)
Lemma advance_early t w :
  List.filter (due t) (timers_of mg (timers w)) = [] ->
  _pending_media_groups (advance t w) !! mg = _pending_media_groups w !! mg /\
  timers_of mg (timers (advance t w)) = timers_of mg (timers w) /\
  aggregates_of mg (effects (advance t w)) = aggregates_of mg (effects w) /\
  clock (advance t w) = t.
Proof.
  intros Hdue. unfold advance.
  cbn [clock _pending_media_groups timers effects].
  match goal with
  | |- context [flush_all ?l ?w0] =>
      destruct (flush_all_other l w0) as (A1 & A2 & A3)
  end.
  { rewrite timers_of_filter. exact Hdue. }
  rewrite A1, A2, A3. cbn [clock _pending_media_groups timers effects].
  split; [reflexivity|]. split; [|auto].
  rewrite timers_of_filter.
  induction (timers_of mg (timers w)) as [|tm l IH]; [reflexivity|].
  cbn [List.filter] in *. destruct (due t tm); [discriminate|].
  cbn [negb]. rewrite IH by exact Hdue. reflexivity.
Qed.

(** Time reaches the wake-up time of the media group. *)
Lemma advance_fire t w tf c acc :
  timers_of mg (timers w) = [(tf, mg)] ->
  Qle_bool tf t = true ->
  _pending_media_groups w !! mg = Some {| g_chat_id := c; g_items := acc |} ->
  acc <> [] ->
  _pending_media_groups (advance t w) !! mg = None /\
  timers_of mg (timers (advance t w)) = [] /\
  aggregates_of mg (effects (advance t w))
    = (aggregates_of mg (effects w)
         ++ handed (progress_note w) (tf, c, acc))%list.
Proof.
  intros Htm Hdue Hw Hacc. unfold advance.
  cbn [clock _pending_media_groups timers effects].
  match goal with
  | |- context [flush_all ?l ?w0] =>
      destruct (flush_all_member l w0 tf c acc) as (A1 & A2 & A3)
  end.
  { rewrite timers_of_filter, Htm. cbn [List.filter]. unfold due at 1.
    cbn [fst]. rewrite Hdue. reflexivity. }
  { exact Hw. }
  { exact Hacc. }
  rewrite A1, A2, A3.
  cbn [clock _pending_media_groups timers effects progress_note].
  split; [reflexivity|]. split; [|reflexivity].
  rewrite timers_of_filter, Htm. cbn [List.filter]. unfold due. cbn [fst].
  rewrite Hdue. reflexivity.
Qed.

Lemma enqueue_other g c it w :
  String.eqb g mg = false ->
  _pending_media_groups (enqueue g c it w) !! mg = _pending_media_groups w !! mg /\
  timers_of mg (timers (enqueue g c it w)) = timers_of mg (timers w) /\
  effects (enqueue g c it w) = effects w /\
  clock (enqueue g c it w) = clock w.
Proof.
  intros Hg. assert (Hne : g <> mg) by (apply String.eqb_neq; exact Hg).
  unfold enqueue.
  destruct (_pending_media_groups w !! g);
    cbn [clock _pending_media_groups timers effects].
  - rewrite lookup_alter_ne by exact Hne. auto.
  - rewrite lookup_alter_ne, lookup_insert_ne by exact Hne.
    rewrite timers_of_app. unfold timers_of at 2. cbn [List.filter snd].
    rewrite Hg, app_nil_r. auto.
Qed.

Lemma emit_other e w :
  (forall t g c b, e <> Aggregate t g c b) ->
  _pending_media_groups (emit e w) !! mg = _pending_media_groups w !! mg /\
  timers_of mg (timers (emit e w)) = timers_of mg (timers w) /\
  aggregates_of mg (effects (emit e w)) = aggregates_of mg (effects w).
Proof.
  intros He. unfold emit. cbn [_pending_media_groups timers effects].
  rewrite aggregates_of_app. cbn [aggregates_of flat_map].
  destruct e; try (rewrite !app_nil_r; auto).
  exfalso. eapply He. reflexivity.
Qed.

Lemma mg_truthy_other m g :
  in_group mg m = false ->
  mg_truthy (media_group_id m) = Some g ->
  String.eqb g mg = false.
Proof.
  unfold in_group, mg_truthy. destruct (media_group_id m) as [s|]; [|discriminate].
  intros Hs. destruct (str_truthy s); [|discriminate]. intros [= <-]. exact Hs.
Qed.

(** A message that is not of the media group leaves it alone. *)
Lemma dispatch_other m w :
  in_group mg m = false ->
  _pending_media_groups (dispatch m w) !! mg = _pending_media_groups w !! mg /\
  timers_of mg (timers (dispatch m w)) = timers_of mg (timers w) /\
  aggregates_of mg (effects (dispatch m w)) = aggregates_of mg (effects w).
Proof.
  intros Hm. unfold dispatch.
  assert (Henq : forall g c it,
            mg_truthy (media_group_id m) = Some g ->
            _pending_media_groups (enqueue g c it w) !! mg
              = _pending_media_groups w !! mg /\
            timers_of mg (timers (enqueue g c it w)) = timers_of mg (timers w) /\
            aggregates_of mg (effects (enqueue g c it w))
              = aggregates_of mg (effects w)).
  { intros g c it Hg.
    destruct (enqueue_other g c it w (mg_truthy_other m g Hm Hg))
      as (A1 & A2 & A3 & _).
    rewrite A1, A2, A3. auto. }
  destruct (msg_document m) as [doc|] eqn:Hdoc.
  - unfold handle_document. rewrite Hdoc.
    match goal with |- context [if ?c then _ else _] => destruct c end.
    + destruct (mg_truthy (media_group_id m)) as [g|] eqn:Hg.
      * apply Henq. reflexivity.
      * apply emit_other. discriminate.
    + match goal with |- context [if ?c then _ else _] => destruct c end;
        apply emit_other; discriminate.
  - unfold handle_photo_receipt.
    destruct (last (msg_photo m)); [|auto].
    destruct (negb (is_for_receipt_extraction m)); [auto|].
    destruct (mg_truthy (media_group_id m)) as [g|] eqn:Hg.
    + apply Henq. reflexivity.
    + apply emit_other. discriminate.
Qed.

Lemma in_group_id m :
  in_group mg m = true -> mg_truthy (media_group_id m) = Some mg.
Proof.
  unfold in_group, mg_truthy. destruct (media_group_id m) as [s|]; [|discriminate].
  intros Hs. apply String.eqb_eq in Hs. subst s.
  destruct mg; [congruence|reflexivity].
Qed.

End Collector.

(** ** The collector: registry and sleeping tasks *)

Lemma enqueue_self mg c it w :
  match _pending_media_groups w !! mg with
  | Some g =>
      _pending_media_groups (enqueue mg c it w) !! mg
        = Some {| g_chat_id := g_chat_id g; g_items := (g_items g ++ [it])%list |} /\
      timers (enqueue mg c it w) = timers w
  | None =>
      _pending_media_groups (enqueue mg c it w) !! mg
        = Some {| g_chat_id := c; g_items := [it] |} /\
      timers (enqueue mg c it w)
        = (timers w ++ [((clock w + _MEDIA_GROUP_DELAY)%Q, mg)])%list
  end.
Proof.
  unfold enqueue. destruct (_pending_media_groups w !! mg) as [g|] eqn:Hg; cbn.
  - split; [|reflexivity]. rewrite lookup_alter_eq, Hg. reflexivity.
  - split; [|reflexivity]. rewrite lookup_alter_eq, lookup_insert_eq. reflexivity.
Qed.

Lemma enqueue_effects g c it w : effects (enqueue g c it w) = effects w.
Proof. unfold enqueue. destruct (_pending_media_groups w !! g); reflexivity. Qed.

Lemma enqueue_keeps mg c it w :
  registered_ok w mg -> registered_ok (enqueue mg c it w) mg.
Proof.
  unfold registered_ok. intros H.
  pose proof (enqueue_self mg c it w) as He.
  destruct (_pending_media_groups w !! mg) as [g|].
  - destruct He as [-> ->]. cbn. destruct H as [_ H]. split; [|exact H].
    destruct (g_items g); discriminate.
  - destruct He as [-> ->]. cbn. split; [discriminate|].
    exists (clock w + _MEDIA_GROUP_DELAY)%Q.
    rewrite timers_of_app, H. cbn. rewrite String.eqb_refl. reflexivity.
Qed.

Lemma emit_keeps mg e w :
  registered_ok w mg -> registered_ok (emit e w) mg.
Proof. exact (fun H => H). Qed.

Lemma dispatch_keeps mg m w :
  registered_ok w mg -> registered_ok (dispatch m w) mg.
Proof.
  intros H. destruct (in_group mg m) eqn:Hin.
  - assert (Hmg : media_group_id m = Some mg).
    { unfold in_group in Hin. destruct (media_group_id m); [|discriminate].
      apply String.eqb_eq in Hin. now subst. }
    unfold dispatch, handle_document, handle_photo_receipt.
    rewrite Hmg. cbn [mg_truthy].
    destruct (msg_document m) as [doc|].
    + destruct (str_truthy mg);
        repeat match goal with
               | |- context [if ?b then _ else _] => destruct b
               end;
        auto using enqueue_keeps, emit_keeps.
    + destruct (last (msg_photo m)); [|exact H].
      destruct (negb (is_for_receipt_extraction m)); [exact H|].
      destruct (str_truthy mg); auto using enqueue_keeps, emit_keeps.
  - destruct (dispatch_other mg m w Hin) as (Hp & Ht & _).
    unfold registered_ok. rewrite Hp, Ht. exact H.
Qed.

Lemma advance_keeps mg t w :
  registered_ok w mg -> registered_ok (advance t w) mg.
Proof.
  unfold registered_ok. intros H.
  destruct (_pending_media_groups w !! mg) as [[c acc]|] eqn:Hg.
  - destruct H as [Hne [tf Htm]]. cbn in Hne.
    destruct (Qle_bool tf t) eqn:Hdue.
    + destruct (advance_fire mg t w tf c acc Htm Hdue Hg Hne) as (-> & -> & _).
      reflexivity.
    + destruct (advance_early mg t w) as (-> & -> & _).
      { rewrite Htm. cbn. unfold due. cbn. rewrite Hdue. reflexivity. }
      rewrite Hg. split; [exact Hne|]. now exists tf.
  - destruct (advance_early mg t w) as (-> & -> & _).
    { rewrite H. reflexivity. }
    rewrite Hg. exact H.
Qed.

Lemma deliver_keeps w ev : consistent w -> consistent (deliver w ev).
Proof.
  intros H mg. unfold deliver. apply dispatch_keeps, advance_keeps, H.
Qed.

Lemma start_consistent c effs note :
  consistent {| clock := c; _pending_media_groups := ∅; timers := [];
                effects := effs; progress_note := note |}.
Proof. intros mg. unfold registered_ok. cbn. rewrite lookup_empty. reflexivity. Qed.

(** X1.  Whatever arrives, the registry and the sleeping tasks keep
    agreeing: when they agree before a run (as they do when the bot
    starts), then after it every registered media group has collected at
    least one item and is awaited by exactly one task, and no task sleeps
    for a group that is not registered. *)
Theorem collector_consistent evs : forall w,
  consistent w -> consistent (run evs w).
Proof.
  unfold run. induction evs as [|ev evs IH]; intros w H; cbn; [exact H|].
  apply IH, deliver_keeps, H.
Qed.

Lemma collector_consistent_witness :
  consistent
    (run [(0%Q, Stubs.album_doc "a" "f1" (Some "/pdf"));
          (1%Q, album_photo "b" "p1" (Some "/pdf"));
          (3%Q, Stubs.album_doc "c" "f2" None)] Stubs.start).
Proof.
  apply collector_consistent. intros mg. unfold registered_ok. cbn.
  rewrite lookup_empty. reflexivity.
Defined.

(** X2.  When registry and tasks agree and every sleeping task wakes up,
    nothing stays registered.  Every registered media group is popped at
    the time of its one task; its aggregation is started once more, with
    its chat and all the items collected for it, when the progress note
    for that chat and that number of items is delivered at that time, and
    no aggregation is started for it when sending the note raises: the
    items collected are lost then.  A task that wakes up for a registered
    group sends the note first and starts the aggregation next, and does
    nothing else. *)
Theorem quiesce_hands_on w :
  consistent w ->
  _pending_media_groups (quiesce w) = ∅ /\
  (forall mg g, _pending_media_groups w !! mg = Some g ->
     exists t,
       timers_of mg (timers w) = [(t, mg)] /\
       aggregates_of mg (effects (quiesce w))
       = (aggregates_of mg (effects w)
            ++ match progress_note w t (g_chat_id g) (length (g_items g)) with
               | Ok _ => [(t, g_chat_id g, g_items g)]
               | Raise _ => []
               end)%list) /\
  (forall t mg g,
     _pending_media_groups w !! mg = Some g ->
     _pending_media_groups (_flush_media_group t mg w)
       = delete mg (_pending_media_groups w) /\
     effects (_flush_media_group t mg w)
     = (effects w
          ++ match progress_note w t (g_chat_id g) (length (g_items g)) with
             | Ok _ =>
                 [Processing t (g_chat_id g) (length (g_items g));
                  Aggregate t mg (g_chat_id g) (g_items g)]
             | Raise _ => []
             end)%list).
Proof.
  intros H. split; [|split].
  3:{ intros t mg g Hg. pose proof (H mg) as Hmg.
      unfold registered_ok in Hmg. rewrite Hg in Hmg. destruct Hmg as [Hne _].
      unfold _flush_media_group, emit. rewrite Hg.
      destruct (g_items g) as [|x acc] eqn:Hitems; [congruence|].
      rewrite <- Hitems.
      destruct (progress_note w t (g_chat_id g) (length (g_items g)));
        cbn [_pending_media_groups effects];
        rewrite <- ?app_assoc, ?app_nil_r; auto. }
  - apply map_eq. intros mg. rewrite lookup_empty.
    specialize (H mg). unfold registered_ok in H. unfold quiesce.
    destruct (_pending_media_groups w !! mg) as [[c acc]|] eqn:Hg.
    + destruct H as [Hne [tf Htm]].
      edestruct (flush_all_member mg (timers w)) as (-> & _); eauto.
    + edestruct (flush_all_other mg (timers w)) as (-> & _); eauto.
  - intros mg [c acc] Hg. specialize (H mg). unfold registered_ok in H.
    rewrite Hg in H. destruct H as [Hne [tf Htm]]. exists tf. split; [exact Htm|].
    unfold quiesce.
    edestruct (flush_all_member mg (timers w)) as (_ & _ & ->); eauto.
Qed.

Lemma quiesce_hands_on_witness :
  let w := deliver Stubs.start (0%Q, Stubs.album_doc "a" "f1" (Some "/pdf")) in
  let lost := deliver Stubs.unreachable
                (0%Q, Stubs.album_doc "a" "f1" (Some "/pdf")) in
  _pending_media_groups (quiesce w) = ∅ /\
  aggregates_of "a" (effects (quiesce w))
  = [((0 + _MEDIA_GROUP_DELAY)%Q, 7%Z, item_of (Stubs.album_doc "a" "f1" None))] /\
  _pending_media_groups (quiesce lost) = ∅ /\
  aggregates_of "a" (effects (quiesce lost)) = [].
Proof.
  intros w lost.
  destruct (quiesce_hands_on w) as (Hreg & Hall & _);
    [apply deliver_keeps, start_consistent|].
  destruct (quiesce_hands_on lost) as (Hreg' & Hall' & _);
    [apply deliver_keeps, start_consistent|].
  split; [exact Hreg|]. split; [|split; [exact Hreg'|]].
  - destruct (Hall "a" {| g_chat_id := 7;
                          g_items := item_of (Stubs.album_doc "a" "f1" None) |})
      as (t & Htm & ->); [reflexivity|].
    vm_compute in Htm. injection Htm as <-. reflexivity.
  - destruct (Hall' "a" {| g_chat_id := 7;
                           g_items := item_of (Stubs.album_doc "a" "f1" None) |})
      as (t & Htm & ->); [reflexivity|].
    reflexivity.
Defined.

(** ** The collector seen from one media group *)

Section Machine_of_a_group.

Variable mg : string.
Hypothesis mg_nonempty : mg <> "".

Lemma dispatch_open m w c acc :
  in_group mg m = true ->
  _pending_media_groups w !! mg = Some {| g_chat_id := c; g_items := acc |} ->
  _pending_media_groups (dispatch m w) !! mg
    = Some {| g_chat_id := c; g_items := (acc ++ joining m)%list |} /\
  timers_of mg (timers (dispatch m w)) = timers_of mg (timers w) /\
  aggregates_of mg (effects (dispatch m w)) = aggregates_of mg (effects w).
Proof.
  intros Hin Hw.
  pose proof (in_group_id mg mg_nonempty m Hin) as Hmg.
  unfold dispatch, joining, receipt_document, photo_item_of, item_of.
  destruct (msg_document m) as [doc|] eqn:Hdoc.
  - unfold handle_document. rewrite Hdoc, Hmg, Hw.
    rewrite (bool_decide_eq_true_2 _ (mk_is_Some _ _ eq_refl)), orb_true_r,
      andb_true_r.
    destruct (existsb (String.eqb (document_ext doc)) receipt_exts).
    + match goal with |- context [enqueue mg ?c ?it w] =>
        pose proof (enqueue_self mg c it w) as He end.
      rewrite Hw in He. destruct He as [-> ->]. rewrite enqueue_effects. auto.
    + rewrite app_nil_r.
      destruct (existsb _ _);
        match goal with
        | |- context [emit ?e w] =>
            destruct (emit_other mg e w) as (-> & -> & ->);
            [intros; discriminate | auto]
        end.
  - unfold handle_photo_receipt. rewrite Hmg.
    destruct (last (msg_photo m)) as [p|].
    + destruct (is_for_receipt_extraction m); cbn [negb].
      * match goal with |- context [enqueue mg ?c ?it w] =>
          pose proof (enqueue_self mg c it w) as He end.
        rewrite Hw in He. destruct He as [-> ->]. rewrite enqueue_effects. auto.
      * rewrite app_nil_r. auto.
    + destruct (is_for_receipt_extraction m); rewrite app_nil_r; auto.
Qed.

Lemma dispatch_closed m w :
  in_group mg m = true ->
  _pending_media_groups w !! mg = None ->
  aggregates_of mg (effects (dispatch m w)) = aggregates_of mg (effects w) /\
  match opening m with
  | [] =>
      _pending_media_groups (dispatch m w) !! mg = None /\
      timers_of mg (timers (dispatch m w)) = timers_of mg (timers w)
  | its =>
      _pending_media_groups (dispatch m w) !! mg
        = Some {| g_chat_id := chat_id m; g_items := its |} /\
      timers (dispatch m w)
        = (timers w ++ [((clock w + _MEDIA_GROUP_DELAY)%Q, mg)])%list
  end.
Proof.
  intros Hin Hw.
  pose proof (in_group_id mg mg_nonempty m Hin) as Hmg.
  unfold dispatch, opening, joining, receipt_document, photo_item_of, item_of.
  destruct (msg_document m) as [doc|] eqn:Hdoc.
  - unfold handle_document. rewrite Hdoc, Hmg, Hw.
    rewrite (bool_decide_eq_false_2 _ (is_Some_None (A:=group))), orb_false_r.
    destruct (is_for_receipt_extraction m);
      destruct (existsb (String.eqb (document_ext doc)) receipt_exts);
      cbn [andb];
      try (destruct (existsb _ _);
           match goal with
           | |- context [emit ?e w] =>
               destruct (emit_other mg e w) as (-> & -> & ->);
               [intros; discriminate | auto]
           end).
    match goal with |- context [enqueue mg ?c ?it w] =>
      pose proof (enqueue_self mg c it w) as He end.
    rewrite Hw in He. destruct He as [-> ->]. rewrite enqueue_effects. auto.
  - unfold handle_photo_receipt. rewrite Hmg.
    destruct (last (msg_photo m)) as [p|].
    + destruct (is_for_receipt_extraction m); cbn [negb]; [|auto].
      match goal with |- context [enqueue mg ?c ?it w] =>
        pose proof (enqueue_self mg c it w) as He end.
      rewrite Hw in He. destruct He as [-> ->]. rewrite enqueue_effects. auto.
    + destruct (is_for_receipt_extraction m); auto.
Qed.

Lemma advance_stands w s tprev t out :
  (tprev <= t)%Q ->
  stands_for mg w s tprev out ->
  clock (advance t w) = t /\
  match settle (progress_note w) t s with
  | (s1, fired) => stands_for mg (advance t w) s1 t (out ++ fired) /\
      match s1 with
      | Some _ => _pending_media_groups (advance t w) !! mg <> None
      | None => True
      end
  end.
Proof.
  intros Hle H. split; [reflexivity|].
  destruct s as [[[tf c] acc]|]; cbn [stands_for settle] in *.
  - destruct H as [Hacc [(Hw & Htm & Hout) | (Htf & Hw & Htm & Hout)]].
    + destruct (Qle_bool tf t) eqn:Hdue.
      * destruct (advance_fire mg t w tf c acc Htm Hdue Hw Hacc) as (A1 & A2 & A3).
        cbn [stands_for]. rewrite A1, A2, A3, Hout. auto.
      * destruct (advance_early mg t w) as (A1 & A2 & A3 & _).
        { rewrite Htm. cbn. unfold due. cbn. rewrite Hdue. reflexivity. }
        cbn [stands_for]. rewrite A1, A2, A3, Hw, app_nil_r. split; [|discriminate].
        split; [exact Hacc|]. left. auto.
    + assert (Hdue : Qle_bool tf t = true).
      { apply Qle_bool_iff. eapply Qle_trans; eassumption. }
      rewrite Hdue.
      destruct (advance_early mg t w) as (A1 & A2 & A3 & _).
      { rewrite Htm. reflexivity. }
      cbn [stands_for]. rewrite A1, A2, A3. auto.
  - destruct H as (Hw & Htm & Hout).
    destruct (advance_early mg t w) as (A1 & A2 & A3 & _).
    { rewrite Htm. reflexivity. }
    rewrite A1, A2, A3, app_nil_r. auto.
Qed.

Lemma run_stands evs : forall w s tprev out,
  in_order tprev evs ->
  stands_for mg w s tprev out ->
  aggregates_of mg (effects (quiesce (run evs w)))
    = (out ++ batches (progress_note w) mg s evs)%list /\
  _pending_media_groups (quiesce (run evs w)) !! mg = None.
Proof.
  induction evs as [|ev rest IH]; intros w s tprev out Hord H.
  - unfold run, quiesce. cbn [fold_left batches].
    destruct s as [[[tf c] acc]|]; cbn [stands_for] in H.
    + destruct H as [Hacc [(Hw & Htm & Hout) | (Htf & Hw & Htm & Hout)]].
      * match goal with
        | |- context [flush_all ?l ?w0] =>
            destruct (flush_all_member mg l w0 tf c acc Htm Hw Hacc)
              as (A1 & _ & A3)
        end.
        rewrite A1, A3. cbn [effects progress_note]. rewrite Hout. auto.
      * match goal with
        | |- context [flush_all ?l ?w0] =>
            destruct (flush_all_other mg l w0 Htm) as (A1 & _ & A3)
        end.
        rewrite A1, A3. cbn [effects]. rewrite Hout. auto.
    + destruct H as (Hw & Htm & Hout).
      match goal with
      | |- context [flush_all ?l ?w0] =>
          destruct (flush_all_other mg l w0 Htm) as (A1 & _ & A3)
      end.
      rewrite A1, A3. cbn [effects]. rewrite Hout, app_nil_r. auto.
  - destruct Hord as [Hle Hord].
    unfold run. cbn [fold_left batches]. fold (run rest (deliver w ev)).
    pose proof (deliver_note w ev) as Hnote.
    unfold deliver in *.
    destruct (advance_stands w s tprev (fst ev) out Hle H) as [Hclock Hadv].
    pose proof (advance_note (fst ev) w) as Hnote1.
    set (w1 := advance (fst ev) w) in *.
    destruct (in_group mg (snd ev)) eqn:Hin.
    + destruct (settle (progress_note w) (fst ev) s) as [s1 fired].
      destruct Hadv as [Hst Hreg].
      rewrite app_assoc, <- Hnote.
      apply (IH _ _ (fst ev)); [exact Hord|].
      destruct s1 as [[[tf c] acc]|]; cbn [stands_for arrive] in *.
      * destruct Hst as [Hacc [(Hw & Htm & Hout) | (_ & Hw & _)]];
          [|contradiction].
        destruct (dispatch_open (snd ev) w1 c acc Hin Hw) as (B1 & B2 & B3).
        split; [destruct acc; [congruence|discriminate]|].
        left. rewrite B1, B2, B3. auto.
      * destruct Hst as (Hw & Htm & Hout).
        destruct (dispatch_closed (snd ev) w1 Hin Hw) as (B3 & B).
        destruct (opening (snd ev)) as [|it its]; cbn [stands_for].
        -- destruct B as [-> ->]. rewrite B3. auto.
        -- destruct B as [B1 B2]. split; [discriminate|]. left.
           rewrite B1, B2, B3, timers_of_app, Htm, Hclock. unfold timers_of.
           cbn [List.filter snd app]. rewrite String.eqb_refl. auto.
    + destruct (dispatch_other mg (snd ev) w1 Hin) as (B1 & B2 & B3).
      rewrite <- Hnote.
      apply (IH _ _ (fst ev)); [exact Hord|].
      destruct (settle (progress_note w) (fst ev) s) as [s1 fired] eqn:Hs.
      destruct Hadv as [Hst _].
      destruct s as [[[tf c] acc]|]; cbn [settle] in Hs.
      * destruct (Qle_bool tf (fst ev)) eqn:Hdue; inversion Hs; subst.
        -- cbn [stands_for] in *. destruct Hst as (Hw & Htm & Hout).
           destruct H as [Hacc _]. split; [exact Hacc|]. right.
           rewrite B1, B2, B3, dispatch_note, Hnote1.
           apply Qle_bool_iff in Hdue. auto.
        -- cbn [stands_for] in *. rewrite app_nil_r in Hst.
           rewrite B1, B2, B3, dispatch_note.
           destruct Hst as [Hacc [Hst | (Htf & Hst)]]; [auto|].
           split; [exact Hacc|]. right. split; [|exact Hst].
           eapply Qle_trans; [exact Htf | apply Qle_refl].
      * inversion Hs; subst. cbn [stands_for] in *. rewrite app_nil_r in Hst.
        rewrite B1, B2, B3. exact Hst.
Qed.

Lemma run_from_idle w t evs :
  idle mg w ->
  in_order t evs ->
  aggregates_of mg (effects (quiesce (run evs w)))
    = (aggregates_of mg (effects w)
         ++ batches (progress_note w) mg None evs)%list.
Proof.
  intros [Hw Htm] Hord.
  apply (run_stands evs w None t); [exact Hord|].
  cbn. auto.
Qed.

(** X3.  Seen from one media group, the collector is a machine with at
    most one batch in the making.  Let the group be neither registered nor
    awaited and let messages of any kind arrive in the order of their
    times.  The aggregations started for the group are those of the
    machine [batches], which looks at the messages of the group and at the
    transport only: a message with the trigger opens a batch whose time
    comes 2.5 after its arrival; until then every document with a receipt
    extension and every photo with the trigger joins it; when its time has
    come the batch is handed on if its progress note is delivered, and is
    lost if sending the note raises.  In the end the group is not
    registered. *)
Theorem collector_refines w t evs :
  idle mg w ->
  in_order t evs ->
  aggregates_of mg (effects (quiesce (run evs w)))
    = (aggregates_of mg (effects w)
         ++ batches (progress_note w) mg None evs)%list /\
  _pending_media_groups (quiesce (run evs w)) !! mg = None.
Proof.
  intros [Hw Htm] Hord.
  apply (run_stands evs w None t); [exact Hord|].
  cbn. auto.
Qed.

Lemma batches_filter note evs : forall s,
  batches note mg s (List.filter (fun ev => in_group mg (snd ev)) evs)
    = batches note mg s evs.
Proof.
  induction evs as [|ev rest IH]; intros s; [reflexivity|].
  cbn [List.filter batches]. destruct (in_group mg (snd ev)) eqn:Hin.
  - cbn [batches]. rewrite Hin. destruct (settle note (fst ev) s) as [s1 fired].
    rewrite IH. reflexivity.
  - apply IH.
Qed.

(** X4.  Media groups do not interfere: two runs in which the same
    messages of a media group arrive, among whatever other messages, start
    the same aggregations for that group. *)
Theorem groups_independent w t t' evs evs' :
  idle mg w ->
  in_order t evs ->
  in_order t' evs' ->
  List.filter (fun ev => in_group mg (snd ev)) evs
    = List.filter (fun ev => in_group mg (snd ev)) evs' ->
  aggregates_of mg (effects (quiesce (run evs w)))
    = aggregates_of mg (effects (quiesce (run evs' w))).
Proof.
  intros Hw Hord Hord' Hsame.
  rewrite (run_from_idle w t evs Hw Hord), (run_from_idle w t' evs' Hw Hord').
  rewrite <- (batches_filter _ evs), <- (batches_filter _ evs'), Hsame.
  reflexivity.
Qed.

Lemma in_order_app l1 : forall t l2,
  in_order t (l1 ++ l2) ->
  exists t', in_order t' l2.
Proof.
  induction l1 as [|ev l1 IH]; intros t l2 H.
  - exists t. exact H.
  - destruct H as [_ H]. apply (IH _ _ H).
Qed.

Lemma batches_untriggered note pre : forall evs,
  (forall ev, In ev pre -> in_group mg (snd ev) = true ->
              is_for_receipt_extraction (snd ev) = false) ->
  batches note mg None (pre ++ evs) = batches note mg None evs.
Proof.
  induction pre as [|ev pre IH]; intros evs H; [reflexivity|].
  cbn [app batches]. destruct (in_group mg (snd ev)) eqn:Hin.
  - cbn [settle arrive app]. unfold opening.
    rewrite (H ev (or_introl eq_refl) Hin).
    apply IH. intros ev' Hev'. apply H. right. exact Hev'.
  - apply IH. intros ev' Hev'. apply H. right. exact Hev'.
Qed.

(** X5.  What arrives for a media group before the trigger is not
    collected: when the messages of the group that come first carry no
    trigger, the aggregations started for the group are those of the run
    without these first messages.  A document of an album sent ahead of
    the captioned one is thus never part of the batch. *)
Theorem before_the_trigger w t pre evs :
  idle mg w ->
  in_order t (pre ++ evs) ->
  (forall ev, In ev pre -> in_group mg (snd ev) = true ->
              is_for_receipt_extraction (snd ev) = false) ->
  aggregates_of mg (effects (quiesce (run (pre ++ evs) w)))
    = aggregates_of mg (effects (quiesce (run evs w))).
Proof.
  intros Hw Hord Hpre.
  destruct (in_order_app pre t evs Hord) as [t' Hord'].
  rewrite (run_from_idle w t (pre ++ evs) Hw Hord),
    (run_from_idle w t' evs Hw Hord').
  rewrite (batches_untriggered _ pre evs Hpre). reflexivity.
Qed.

Lemma in_order_later evs : forall t t',
  (t' <= t)%Q -> in_order t evs -> in_order t' evs.
Proof.
  destruct evs as [|ev rest]; intros t t' Hle H; [exact I|].
  destruct H as [H1 H2]. split; [|exact H2]. eapply Qle_trans; eassumption.
Qed.

Lemma batches_due note evs : forall t tf c acc,
  (tf <= t)%Q ->
  in_order t evs ->
  batches note mg (Some (tf, c, acc)) evs
    = (handed note (tf, c, acc) ++ batches note mg None evs)%list.
Proof.
  induction evs as [|ev rest IH]; intros t tf c acc Htf Hord.
  - cbn [batches]. rewrite app_nil_r. reflexivity.
  - destruct Hord as [Hle Hord]. cbn [batches].
    destruct (in_group mg (snd ev)).
    + cbn [settle].
      assert (Hdue : Qle_bool tf (fst ev) = true).
      { apply Qle_bool_iff. eapply Qle_trans; eassumption. }
      rewrite Hdue. reflexivity.
    + apply (IH (fst ev)); [|exact Hord]. eapply Qle_trans; eassumption.
Qed.

Lemma batches_silent note ev rest s :
  in_order (fst ev) rest ->
  joining (snd ev) = [] ->
  batches note mg s (ev :: rest) = batches note mg s rest.
Proof.
  intros Hord Hj. cbn [batches].
  destruct (in_group mg (snd ev)); [|reflexivity].
  assert (Ho : opening (snd ev) = []).
  { unfold opening. rewrite Hj. destruct (is_for_receipt_extraction _); reflexivity. }
  destruct s as [[[tf c] acc]|]; cbn [settle].
  - destruct (Qle_bool tf (fst ev)) eqn:Hdue.
    + cbn [arrive]. rewrite Ho.
      symmetry. apply (batches_due note rest (fst ev)); [|exact Hord].
      apply Qle_bool_iff. exact Hdue.
    + cbn [arrive app]. rewrite Hj, app_nil_r. reflexivity.
  - cbn [arrive app]. rewrite Ho. reflexivity.
Qed.

Lemma in_order_filter (p : Q * message -> bool) evs : forall t,
  in_order t evs -> in_order t (List.filter p evs).
Proof.
  induction evs as [|ev rest IH]; intros t H; [exact I|].
  destruct H as [Hle H]. cbn [List.filter]. destruct (p ev).
  - split; [exact Hle|]. apply IH. exact H.
  - apply IH. apply (in_order_later rest (fst ev)); assumption.
Qed.

Lemma batches_without_silent note (p : Q * message -> bool) evs : forall s t,
  (forall ev, In ev evs -> p ev = false -> joining (snd ev) = []) ->
  in_order t evs ->
  batches note mg s (List.filter p evs) = batches note mg s evs.
Proof.
  induction evs as [|ev rest IH]; intros s t Hp Hord; [reflexivity|].
  destruct Hord as [Hle Hord]. cbn [List.filter].
  assert (Hrest : forall ev', In ev' rest -> p ev' = false ->
                              joining (snd ev') = []).
  { intros ev' Hin. apply Hp. right. exact Hin. }
  destruct (p ev) eqn:Hpev.
  - cbn [batches]. destruct (in_group mg (snd ev)).
    + destruct (settle note (fst ev) s) as [s1 fired].
      rewrite (IH _ (fst ev) Hrest Hord). reflexivity.
    + apply (IH _ (fst ev) Hrest Hord).
  - rewrite (batches_silent note ev rest s Hord (Hp ev (or_introl eq_refl) Hpev)).
    apply (IH _ (fst ev) Hrest Hord).
Qed.

(** X6.  A photo without the trigger is never collected, not even while its
    media group is registered (a document with a receipt extension would
    be): taking all such photos out of the arrivals changes no
    aggregation.  Of an album of photos whose caption sits on the first
    photo, only that photo is processed. *)
Theorem untriggered_photos_dropped w t evs :
  idle mg w ->
  in_order t evs ->
  aggregates_of mg (effects (quiesce (run evs w)))
    = aggregates_of mg
        (effects (quiesce
           (run (List.filter (fun ev => negb (untriggered_photo (snd ev))) evs)
              w))).
Proof.
  intros Hw Hord.
  rewrite (run_from_idle w t evs Hw Hord).
  rewrite (run_from_idle w t _ Hw
             (in_order_filter (fun ev => negb (untriggered_photo (snd ev)))
                evs t Hord)).
  rewrite (batches_without_silent _ _ evs None t); [reflexivity| |exact Hord].
  intros ev _ Hp. apply negb_false_iff in Hp.
  unfold untriggered_photo in Hp. unfold joining.
  destruct (msg_document (snd ev)); [discriminate|].
  apply negb_true_iff in Hp. rewrite Hp. reflexivity.
Qed.

(** While the window of the media group is open, what arrives for it
    joins the batch, no task is created and nothing is handed on. *)
Lemma run_window tf c evs : forall w acc,
  _pending_media_groups w !! mg = Some {| g_chat_id := c; g_items := acc |} ->
  timers_of mg (timers w) = [(tf, mg)] ->
  (forall ev, In ev evs -> (fst ev < tf)%Q) ->
  _pending_media_groups (run evs w) !! mg
    = Some {| g_chat_id := c; g_items := (acc ++ collected mg evs)%list |} /\
  timers_of mg (timers (run evs w)) = [(tf, mg)] /\
  aggregates_of mg (effects (run evs w)) = aggregates_of mg (effects w).
Proof.
  induction evs as [|ev rest IH]; intros w acc Hw Htm Hwin.
  - cbn. rewrite app_nil_r. auto.
  - unfold run. cbn [fold_left]. fold (run rest (deliver w ev)).
    unfold deliver.
    destruct (advance_early mg (fst ev) w) as (A1 & A2 & A3 & _).
    { rewrite Htm. cbn [List.filter]. unfold due. cbn [fst].
      destruct (Qle_bool tf (fst ev)) eqn:Hb; [|reflexivity].
      apply Qle_bool_iff in Hb. exfalso.
      apply (Qlt_not_le _ _ (Hwin ev (or_introl eq_refl)) Hb). }
    assert (Hrest : forall ev', In ev' rest -> (fst ev' < tf)%Q)
      by (intros ev' Hin'; apply Hwin; right; exact Hin').
    unfold collected. cbn [flat_map]. fold (collected mg rest).
    destruct (in_group mg (snd ev)) eqn:Hin.
    + destruct (dispatch_open (snd ev) (advance (fst ev) w) c acc Hin)
        as (B1 & B2 & B3); [rewrite A1; exact Hw|].
      destruct (IH (dispatch (snd ev) (advance (fst ev) w))
                  (acc ++ joining (snd ev))%list) as (C1 & C2 & C3);
        [exact B1 | rewrite B2, A2; exact Htm | exact Hrest |].
      rewrite C1, C2, C3, B3, A3, <- app_assoc. auto.
    + destruct (dispatch_other mg (snd ev) (advance (fst ev) w) Hin)
        as (B1 & B2 & B3).
      destruct (IH (dispatch (snd ev) (advance (fst ev) w)) acc)
        as (C1 & C2 & C3);
        [rewrite B1, A1; exact Hw | rewrite B2, A2; exact Htm | exact Hrest |].
      rewrite C1, C2, C3, B3, A3. auto.
Qed.

Lemma collected_length evs :
  (forall ev, In ev evs -> in_group mg (snd ev) = true ->
              length (joining (snd ev)) = 1%nat) ->
  length (collected mg evs)
  = length (List.filter (fun ev => in_group mg (snd ev)) evs).
Proof.
  induction evs as [|ev rest IH]; intros Hone; [reflexivity|].
  unfold collected in *. cbn [flat_map List.filter].
  rewrite length_app, IH by (intros ev' Hin; apply Hone; right; exact Hin).
  destruct (in_group mg (snd ev)) eqn:Hin; [|reflexivity].
  rewrite (Hone ev (or_introl eq_refl) Hin). reflexivity.
Qed.

(** What a message adds to its media group is one item or nothing. *)
Lemma joining_one m : joining m <> [] -> length (joining m) = 1%nat.
Proof.
  unfold joining, item_of, photo_item_of.
  destruct (msg_document m) as [doc|].
  - destruct (receipt_document m); [reflexivity|congruence].
  - destruct (is_for_receipt_extraction m); [|congruence].
    destruct (last (msg_photo m)); [reflexivity|congruence].
Qed.

(** C1, amended.  Let a message of a media group arrive at time [t0] with
    the trigger (a document with a receipt extension, or a photo), while
    the group is neither registered nor awaited, and let the messages that
    follow arrive before [t0] plus the delay of 2.5, in any order and of
    any media group.  The documents with a receipt extension and the
    triggered photos of the group are collected in arrival order: while
    the window is open the group is registered with them, one task sleeps
    for it until [t0] plus 2.5, and nothing is handed on.  As soon as time
    has reached [t0] plus 2.5 the group is no longer registered and the
    aggregation has been started once, at that time and with all these
    items, provided that the progress note was delivered; when sending
    the note raised, the batch is lost.  Nothing is added later: in every
    continuation in which no message of the group carries the trigger,
    this stays the only aggregation of the group.  An enqueue for a
    registered group appends the document and creates no task. *)
Theorem C1_debounce w t0 m0 evs :
  idle mg w ->
  in_group mg m0 = true ->
  opening m0 <> [] ->
  (forall ev, In ev evs -> (fst ev < t0 + _MEDIA_GROUP_DELAY)%Q) ->
  let tf := (t0 + _MEDIA_GROUP_DELAY)%Q in
  let arrivals := (t0, m0) :: evs in
  let batch := collected mg arrivals in
  let w1 := run arrivals w in
  let fired := handed (progress_note w) (tf, chat_id m0, batch) in
  (* while the window is open *)
  (_pending_media_groups w1 !! mg
     = Some {| g_chat_id := chat_id m0; g_items := batch |} /\
   timers_of mg (timers w1) = [(tf, mg)] /\
   aggregates_of mg (effects w1) = aggregates_of mg (effects w)) /\
  (forall t, (t < tf)%Q ->
     _pending_media_groups (advance t w1) !! mg
       = Some {| g_chat_id := chat_id m0; g_items := batch |} /\
     aggregates_of mg (effects (advance t w1)) = aggregates_of mg (effects w)) /\
  (* once the time of the task has come *)
  (forall t, (tf <= t)%Q ->
     _pending_media_groups (advance t w1) !! mg = None /\
     timers_of mg (timers (advance t w1)) = [] /\
     aggregates_of mg (effects (advance t w1))
       = (aggregates_of mg (effects w) ++ fired)%list) /\
  (* and ever after *)
  (forall later,
     in_order tf later ->
     (forall ev, In ev later -> in_group mg (snd ev) = true ->
                 is_for_receipt_extraction (snd ev) = false) ->
     _pending_media_groups (quiesce (run (arrivals ++ later) w)) !! mg = None /\
     aggregates_of mg (effects (quiesce (run (arrivals ++ later) w)))
       = (aggregates_of mg (effects w) ++ fired)%list) /\
  (* the aggregation and its batch *)
  (progress_note w tf (chat_id m0) (length batch) = Ok tt ->
   fired = [(tf, chat_id m0, batch)]) /\
  ((forall e, progress_note w tf (chat_id m0) (length batch) = Raise e ->
    fired = [])) /\
  ((forall ev, In ev evs -> in_group mg (snd ev) = true ->
               joining (snd ev) <> []) ->
   length batch
   = length (List.filter (fun ev => in_group mg (snd ev)) arrivals)) /\
  (* an enqueue for a registered group *)
  (forall w' c it g,
     _pending_media_groups w' !! mg = Some g ->
     timers (enqueue mg c it w') = timers w' /\
     _pending_media_groups (enqueue mg c it w') !! mg
       = Some {| g_chat_id := g_chat_id g; g_items := (g_items g ++ [it])%list |}).
Proof.
  intros [Hw Htm] Hin Hopen Hwin tf arrivals batch w1 fired.
  assert (Hjoin : joining m0 = opening m0).
  { unfold opening in *. destruct (is_for_receipt_extraction m0);
      [reflexivity|congruence]. }
  (* the first message *)
  destruct (advance_early mg t0 w) as (A1 & A2 & A3 & A4);
    [rewrite Htm; reflexivity|].
  destruct (dispatch_closed (snd (t0, m0)) (advance t0 w) Hin) as (B3 & B);
    [rewrite A1; exact Hw|]. cbn [snd] in B3, B.
  assert (Hfirst :
    _pending_media_groups (deliver w (t0, m0)) !! mg
      = Some {| g_chat_id := chat_id m0; g_items := joining m0 |} /\
    timers_of mg (timers (deliver w (t0, m0))) = [(tf, mg)] /\
    aggregates_of mg (effects (deliver w (t0, m0)))
      = aggregates_of mg (effects w)).
  { unfold deliver. cbn [fst snd]. rewrite Hjoin.
    destruct (opening m0) as [|it its]; [congruence|].
    destruct B as [B1 B2]. rewrite B1, B2, B3, A3, timers_of_app, A2, Htm, A4.
    unfold timers_of. cbn [List.filter snd app]. rewrite String.eqb_refl.
    auto. }
  destruct Hfirst as (F1 & F2 & F3).
  (* the window *)
  destruct (run_window tf (chat_id m0) evs (deliver w (t0, m0)) (joining m0)
              F1 F2 Hwin) as (W1 & W2 & W3).
  assert (Hbatch : batch = (joining m0 ++ collected mg evs)%list).
  { subst batch arrivals. unfold collected. cbn [flat_map snd].
    rewrite Hin. reflexivity. }
  assert (Hw1 : w1 = run evs (deliver w (t0, m0))) by reflexivity.
  assert (Hne : batch <> []).
  { rewrite Hbatch, Hjoin. destruct (opening m0); [congruence|discriminate]. }
  assert (Hnote : progress_note w1 = progress_note w).
  { subst w1 arrivals. apply run_note. }
  rewrite <- Hbatch in W1. rewrite <- Hw1 in W1, W2, W3. rewrite F3 in W3.
  split; [auto|].
  split.
  { intros t Ht.
    destruct (advance_early mg t w1) as (E1 & _ & E3 & _).
    { rewrite W2. cbn [List.filter]. unfold due. cbn [fst].
      destruct (Qle_bool tf t) eqn:Hb; [|reflexivity].
      apply Qle_bool_iff in Hb. exfalso. apply (Qlt_not_le _ _ Ht Hb). }
    rewrite E1, E3, W1, W3. auto. }
  split.
  { intros t Ht.
    destruct (advance_fire mg t w1 tf (chat_id m0) batch W2) as (E1 & E2 & E3);
      [apply Qle_bool_iff; exact Ht | exact W1 | exact Hne |].
    rewrite E1, E2, E3, W3, Hnote. auto. }
  split.
  { intros later Hord Hlate.
    rewrite run_app. fold w1.
    destruct (run_stands later w1 (Some (tf, chat_id m0, batch)) tf
                (aggregates_of mg (effects w)) Hord) as (R1 & R2).
    { cbn [stands_for]. split; [exact Hne|]. left. auto. }
    split; [exact R2|]. rewrite R1, Hnote.
    rewrite (batches_due _ later tf tf (chat_id m0) batch (Qle_refl tf) Hord).
    rewrite <- (app_nil_r later) at 1.
    rewrite (batches_untriggered _ later [] Hlate). cbn [batches].
    rewrite app_nil_r. reflexivity. }
  split.
  { intros Hok. subst fired. unfold handed. rewrite Hok. reflexivity. }
  split.
  { intros e He. subst fired. unfold handed. rewrite He. reflexivity. }
  split.
  { intros Hall. subst batch. apply collected_length.
    intros ev [<- | Hev] Hg; cbn [snd]; apply joining_one.
    - rewrite Hjoin. exact Hopen.
    - apply (Hall ev Hev Hg). }
  intros w' c it' g Hg. unfold enqueue. rewrite Hg.
  cbn [clock _pending_media_groups timers effects].
  rewrite lookup_alter_eq, Hg. cbn. auto.
Qed.

End Machine_of_a_group.

(** C1, as the code refutes it.  Two documents of an album arrive within
    the window, and the aggregation does not hold both: when the caption
    with the trigger is on the second document, the first one is not
    collected; and when the progress note cannot be sent, no aggregation
    is started at all, although both documents were collected and the
    group is popped from the registry. *)
Lemma C1_counterexample :
  let doc := Stubs.album_doc "album" in
  let late_caption := [(0%Q, doc "f1" None); (0.5%Q, doc "f2" (Some "/pdf"))] in
  let album := [(0%Q, doc "f1" (Some "/pdf")); (0.5%Q, doc "f2" None)] in
  aggregates_of "album" (effects (quiesce (run late_caption Stubs.start)))
    = [((0.5 + _MEDIA_GROUP_DELAY)%Q, 7%Z, item_of (doc "f2" None))] /\
  option_map g_items
    (_pending_media_groups (run album Stubs.unreachable) !! "album")
    = Some (item_of (doc "f1" None) ++ item_of (doc "f2" None))%list /\
  aggregates_of "album" (effects (quiesce (run album Stubs.unreachable))) = [] /\
  _pending_media_groups (quiesce (run album Stubs.unreachable)) !! "album"
    = None.
Proof. cbv zeta. repeat split; vm_compute; reflexivity. Qed.

(** C1 on an album of three documents sent at times 0, 0.5 and 2. *)
Lemma C1_debounce_witness :
  let evs := [(0.5%Q, Stubs.album_doc "album" "f2" None);
              (2%Q, Stubs.album_doc "album" "f3" None)] in
  let first := Stubs.album_doc "album" "f1" (Some "receipts /pdf") in
  let arrivals := (0%Q, first) :: evs in
  aggregates_of "album" (effects (run arrivals Stubs.start)) = [] /\
  aggregates_of "album" (effects (advance 2.5 (run arrivals Stubs.start)))
  = [((0 + _MEDIA_GROUP_DELAY)%Q, 7%Z, collected "album" arrivals)] /\
  length (collected "album" arrivals) = 3%nat.
Proof.
  intros evs first arrivals.
  destruct (C1_debounce "album" ltac:(discriminate) Stubs.start 0%Q first evs)
    as ((_ & _ & Hopen) & _ & Hfire & _ & Hok & _ & Hlen & _).
  - split; [apply lookup_empty | reflexivity].
  - reflexivity.
  - vm_compute. discriminate.
  - intros ev [<- | [<- | []]]; reflexivity.
  - split; [exact Hopen|]. split.
    + destruct (Hfire 2.5%Q) as (_ & _ & Hf); [vm_compute; discriminate|].
      etransitivity; [exact Hf|]. rewrite (Hok eq_refl). reflexivity.
    + etransitivity; [apply Hlen|reflexivity].
      intros ev [<- | [<- | []]] _; vm_compute; discriminate.
Defined.

(** An album of two photos and a document: the caption is on the first
    photo, the second photo is dropped, the document joins the batch. *)
Lemma collector_refines_witness :
  let evs := [(0%Q, album_photo "album" "p1" (Some "/pdf"));
              (0.5%Q, album_photo "album" "p2" None);
              (1%Q, Stubs.album_doc "album" "f3" None)] in
  aggregates_of "album" (effects (quiesce (run evs Stubs.start)))
  = [((0 + _MEDIA_GROUP_DELAY)%Q, 7%Z,
      (photo_item_of (album_photo "album" "p1" None)
         ++ item_of (Stubs.album_doc "album" "f3" None))%list)] /\
  aggregates_of "album" (effects (quiesce (run evs Stubs.unreachable))) = [].
Proof.
  intros evs. split.
  - destruct (collector_refines "album" ltac:(discriminate) Stubs.start 0%Q evs)
      as [-> _].
    + split; [apply lookup_empty | reflexivity].
    + cbn. repeat split; intros H; vm_compute in H; discriminate.
    + reflexivity.
  - destruct (collector_refines "album" ltac:(discriminate) Stubs.unreachable
                0%Q evs) as [-> _].
    + split; [apply lookup_empty | reflexivity].
    + cbn. repeat split; intros H; vm_compute in H; discriminate.
    + reflexivity.
Defined.

Lemma groups_independent_witness :
  let a1 := (0%Q, Stubs.album_doc "a" "f1" (Some "/pdf")) in
  let a2 := (2%Q, Stubs.album_doc "a" "f2" None) in
  let b1 := (1%Q, Stubs.album_doc "b" "g1" (Some "/pdf")) in
  let b2 := (4%Q, Stubs.album_doc "b" "g2" (Some "/pdf")) in
  aggregates_of "a" (effects (quiesce (run [a1; b1; a2; b2] Stubs.start)))
  = aggregates_of "a" (effects (quiesce (run [a1; a2] Stubs.start))).
Proof.
  intros a1 a2 b1 b2.
  apply (groups_independent "a" ltac:(discriminate) Stubs.start 0%Q 0%Q).
  - split; [apply lookup_empty | reflexivity].
  - cbn. repeat split; intros H; vm_compute in H; discriminate.
  - cbn. repeat split; intros H; vm_compute in H; discriminate.
  - reflexivity.
Defined.

Lemma before_the_trigger_witness :
  let early := (0%Q, Stubs.album_doc "a" "f1" None) in
  let rest := [(0.5%Q, Stubs.album_doc "a" "f2" (Some "/pdf"));
               (1%Q, Stubs.album_doc "a" "f3" None)] in
  aggregates_of "a" (effects (quiesce (run ([early] ++ rest) Stubs.start)))
  = aggregates_of "a" (effects (quiesce (run rest Stubs.start))).
Proof.
  intros early rest.
  apply (before_the_trigger "a" ltac:(discriminate) Stubs.start 0%Q).
  - split; [apply lookup_empty | reflexivity].
  - cbn. repeat split; intros H; vm_compute in H; discriminate.
  - intros ev [<- | []] _. reflexivity.
Defined.

Lemma untriggered_photos_dropped_witness :
  let evs := [(0%Q, album_photo "album" "p1" (Some "/pdf"));
              (0.5%Q, album_photo "album" "p2" None);
              (1%Q, album_photo "album" "p3" None)] in
  aggregates_of "album" (effects (quiesce (run evs Stubs.start)))
  = aggregates_of "album"
      (effects (quiesce
         (run [(0%Q, album_photo "album" "p1" (Some "/pdf"))] Stubs.start))).
Proof.
  intros evs.
  apply (untriggered_photos_dropped "album" ltac:(discriminate) Stubs.start 0%Q).
  - split; [apply lookup_empty | reflexivity].
  - cbn. repeat split; intros H; vm_compute in H; discriminate.
Defined.

(* ===================================================================== *)
(** * Properties of the handlers, the stages and the commands             *)
(* ===================================================================== *)

(** ** The batch: what is written, what is answered, what is left behind *)

Import Ledger.

Section Batch_ledger.

Variable S : services.

(** The loop body on the sheet and on Drive, by the fate of the document. *)
Lemma process_receipt_ledger i it a st :
  let st' := snd (process_receipt S i it a st) in
  sheet st'
    = (sheet st ++ match fate_of S it with
                   | Stored o => items o
                   | Failed _ => []
                   end)%list /\
  drive st' = (drive st ++ uploads S it)%list.
Proof.
  unfold process_receipt, _process_single_receipt, fate_of, uploads, fate_of,
    await_extraction.
  unfold bbind, blift, braise, create_tmp.
  destruct (get_file S (source_file_id it)) as [[]|e].
  2:{ cbn. rewrite !app_nil_r. auto. }
  destruct (download_to_drive S (source_file_id it)) as [[]|e].
  2:{ cbn. rewrite !app_nil_r. auto. }
  set (tmp := tmp_name S (source_file_id it) (it_suffix it)).
  destruct (timed_out S tmp).
  { cbn. rewrite !app_nil_r. auto. }
  generalize (fst (extract_receipt_data (extractor S) tmp [])). intros [o|e].
  2:{ cbn. rewrite !app_nil_r. auto. }
  cbn [unlink].
  assert (Hend : forall (a' : locals) (raised : option exn) (st2 : store),
            let st3 := if str_truthy tmp then snd (unlink tmp st2) else st2 in
            sheet (snd match raised with
                       | None => (Ok a', st3)
                       | Some e => (Ok (record_exception i e a'), st3)
                       end) = sheet st2 /\
            drive (snd match raised with
                       | None => (Ok a', st3)
                       | Some e => (Ok (record_exception i e a'), st3)
                       end) = drive st2).
  { intros a' [e|] st2; destruct (str_truthy tmp); cbn; auto. }
  destruct (success o && match items o with [] => false | _ => true end)
    eqn:Hs.
  - destruct (update_soa S (items o)) as [[]|e] eqn:Hu.
    + match goal with
      | |- context [record_outcome S i o tmp a ?s] =>
          destruct (record_stored S i o tmp a s Hs Hu)
            as (a' & st' & lines & Hrec & _ & _ & _ & _ & _ & _ & _ & Hsh & Hdr)
      end.
      rewrite Hrec. destruct (Hend a' None st') as [-> ->].
      rewrite Hsh, Hdr. cbn [tmp_files sheet drive].
      rewrite (bool_decide_eq_true_2 (tmp ∈ {[tmp]} ∪ tmp_files st))
        by set_solver.
      destruct (drive_folder_id S) as [folder|]; [|auto].
      rewrite andb_true_r. auto.
    + unfold record_outcome. rewrite Hs, Hu.
      destruct (str_truthy tmp); cbn; rewrite !app_nil_r; auto.
  - unfold record_outcome. rewrite Hs.
    destruct (str_truthy tmp); cbn; rewrite !app_nil_r; auto.
Qed.

Lemma process_receipts_ledger its : forall i a st,
  let st' := snd (process_receipts S i its a st) in
  sheet st' = (sheet st ++ batch_items S its)%list /\
  drive st' = (drive st ++ flat_map (uploads S) its)%list.
Proof.
  induction its as [|it rest IH]; intros i a st.
  - cbn. rewrite !app_nil_r. auto.
  - cbn [process_receipts]. unfold bbind.
    destruct (process_receipt_fate S i it a st) as (a1 & st1 & Hrun & _).
    pose proof (process_receipt_ledger i it a st) as [Hs Hd].
    rewrite Hrun in *. cbn [snd] in Hs, Hd.
    destruct (IH (Datatypes.S i) a1 st1) as [Hs2 Hd2].
    cbn zeta. rewrite Hs2, Hd2, Hs, Hd.
    unfold batch_items. cbn [flat_map]. rewrite <- !app_assoc. auto.
Qed.

(** The [except] clause of a handler sends a message: it touches neither
    the temporary files, nor the sheet, nor Drive. *)
Lemma except_clause_store chat (r : result unit * store) :
  let st' := snd (match r with
                  | (Ok _, st') => (Ok tt, st')
                  | (Raise e, st') =>
                      send_message S chat (Error_reply (exn_msg e)) st'
                  end) in
  tmp_files st' = tmp_files (snd r) /\
  sheet st' = sheet (snd r) /\
  drive st' = drive (snd r).
Proof.
  destruct r as [[[]|e] st1]; cbn [snd]; [auto|].
  apply send_message_store.
Qed.

Ltac after_except_clause chat :=
  cbv zeta; unfold _process_media_group_receipts;
  match goal with
  | |- context [match ?r with pair _ _ => _ end] =>
      destruct (except_clause_store chat r) as (Htmp & Hsheet & Hdrive)
  end.

(** The handler of a batch on the sheet and on Drive. *)
Lemma handler_ledger chat its st :
  let st' := snd (_process_media_group_receipts S chat its st) in
  if sheets_configured S then
    match sheets_service S with
    | Ok _ =>
        sheet st' = (sheet st ++ batch_items S its)%list /\
        drive st' = (drive st ++ flat_map (uploads S) its)%list
    | Raise _ => sheet st' = sheet st /\ drive st' = drive st
    end
  else sheet st' = sheet st /\ drive st' = drive st.
Proof.
  after_except_clause chat. rewrite Hsheet, Hdrive. clear Htmp Hsheet Hdrive.
  destruct (sheets_configured S); cbn [negb].
  2:{ destruct (send_message_store S chat Not_configured st) as (_ & -> & ->).
      auto. }
  unfold bbind, blift.
  destruct (sheets_service S) as [[]|e]; [|cbn; auto].
  destruct (process_receipts_fate S its 0 initial st) as (a & st1 & ? & Hrun & _).
  pose proof (process_receipts_ledger its 0 initial st) as [Hs Hd].
  rewrite Hrun in *. cbn [snd] in Hs, Hd.
  destruct (send_message_store S chat (report (length its) a) st1)
    as (_ & -> & ->).
  auto.
Qed.

(** X7.  The ledger of a batch.  With the sheet configured, the rows
    appended to the sheet are the items of the documents that were stored,
    in the order of the batch, and nothing else: a document that fails
    adds no row.  The files uploaded to Drive are the temporary files of
    stored documents, at most one each.  Without configuration nothing is
    written. *)
Theorem batch_ledger chat its st :
  let st' := snd (_process_media_group_receipts S chat its st) in
  if sheets_configured S then
    match sheets_service S with
    | Ok _ =>
        sheet st' = (sheet st ++ batch_items S its)%list /\
        drive st' = (drive st ++ flat_map (uploads S) its)%list
    | Raise _ => sheet st' = sheet st /\ drive st' = drive st
    end
  else sheet st' = sheet st /\ drive st' = drive st.
Proof. exact (handler_ledger chat its st). Qed.

Lemma batch_errors_all_failed its : forall i,
  (forall it, In it its -> failed S it = true) ->
  batch_items S its = [] /\
  length (batch_errors S i its) = length its.
Proof.
  induction its as [|it rest IH]; intros i Hall; [auto|].
  destruct (IH (Datatypes.S i)) as [Hi Hl].
  { intros it' Hin. apply Hall. right. exact Hin. }
  pose proof (Hall it (or_introl eq_refl)) as Hf. unfold failed in Hf.
  unfold batch_items in *. cbn [flat_map batch_errors].
  destruct (fate_of S it); [discriminate|].
  cbn [app length]. rewrite Hi, Hl. auto.
Qed.

(** X8.  A batch of which every document fails writes nothing to the
    sheet or to Drive, and there is one error entry per document.  Its
    answer is the list of these failures (for an empty batch the note that
    no data was extracted).  When the transport delivers the answer, it is
    the one message sent and the handler returns.  When sending it raises,
    the handler tries to send the error instead: either that message is
    the one sent, or sending it raises too, and then nothing is sent at
    all and the handler raises. *)
Theorem batch_all_failed chat its st :
  sheets_configured S = true ->
  sheets_service S = Ok tt ->
  (forall it, In it its -> failed S it = true) ->
  let run := _process_media_group_receipts S chat its st in
  let answer := nothing_stored S its in
  length (batch_errors S 0 its) = length its /\
  sheet (snd run) = sheet st /\
  drive (snd run) = drive st /\
  match telegram_send S chat answer with
  | Ok _ =>
      fst run = Ok tt /\ sent (snd run) = (sent st ++ [(chat, answer)])%list
  | Raise e =>
      match telegram_send S chat (Error_reply (exn_msg e)) with
      | Ok _ =>
          fst run = Ok tt /\
          sent (snd run) = (sent st ++ [(chat, Error_reply (exn_msg e))])%list
      | Raise e' => fst run = Raise e' /\ sent (snd run) = sent st
      end
  end.
Proof.
  intros Hconf Hsheets Hall run answer.
  destruct (batch_errors_all_failed its 0 Hall) as [Hnone Hlen].
  pose proof (handler_ledger chat its st) as Hledger.
  rewrite Hconf, Hsheets, Hnone in Hledger. cbv zeta in Hledger.
  assert (Hup : flat_map (uploads S) its = []).
  { clear -Hall. induction its as [|it rest IH]; [reflexivity|].
    cbn [flat_map]. rewrite IH by (intros it' Hin; apply Hall; right; exact Hin).
    pose proof (Hall it (or_introl eq_refl)) as Hf. unfold failed in Hf.
    unfold uploads. destruct (fate_of S it); [discriminate|reflexivity]. }
  rewrite Hup, !app_nil_r in Hledger. destruct Hledger as [Hs Hd].
  split; [exact Hlen|]. split; [exact Hs|]. split; [exact Hd|].
  destruct (process_receipts_fate S its 0 initial st)
    as (a & st1 & lines & Hrun & Hsent & Hlines & Hi & Hl & Ht & He).
  rewrite Hnone in *. cbn [summary_lines] in Hlines.
  injection Hlines as <-.
  cbn [initial all_items all_summary_lines total_amount errors app] in *.
  assert (Hrep : report (length its) a = answer).
  { subst answer. unfold report, nothing_stored. rewrite Hl, He.
    destruct its as [|it rest]; [reflexivity|].
    destruct (batch_errors S 0 (it :: rest)); [discriminate|reflexivity]. }
  subst run. rewrite (batch_after_loop S chat its st a st1 Hconf Hsheets Hrun).
  rewrite Hrep. unfold send_message.
  destruct (telegram_send S chat answer) as [[]|e].
  - cbn. rewrite Hsent. auto.
  - destruct (telegram_send S chat (Error_reply (exn_msg e))) as [[]|e'];
      cbn; rewrite Hsent; auto.
Qed.

(** X9.  A batch cleans up after itself: when no download raises and the
    names of the temporary files are fresh, the temporary files on disk
    after the batch are those before it, however the documents fare and
    whether or not the sheet is configured. *)
Theorem batch_releases_temporary_files chat its st :
  (forall it, In it its ->
     tmp_name S (source_file_id it) (it_suffix it) <> "" /\
     (tmp_name S (source_file_id it) (it_suffix it) ∉ tmp_files st) /\
     (forall e, download_to_drive S (source_file_id it) <> Raise e)) ->
  tmp_files (snd (_process_media_group_receipts S chat its st)) = tmp_files st.
Proof.
  intros Hall. after_except_clause chat. rewrite Htmp.
  clear Htmp Hsheet Hdrive.
  destruct (sheets_configured S); cbn [negb]; [|apply send_message_tmp].
  unfold bbind, blift.
  destruct (sheets_service S) as [[]|e]; [|reflexivity].
  destruct (process_receipts_fate S its 0 initial st) as (a & st1 & ? & Hrun & _).
  pose proof (process_receipts_release S its 0 initial st Hall) as Hrel.
  rewrite Hrun in *. cbn [snd] in Hrel.
  rewrite send_message_tmp. exact Hrel.
Qed.

End Batch_ledger.

Lemma batch_all_failed_witness :
  let its := [Stubs.jpg "r1"; Stubs.jpg "r2"] in
  let run :=
    _process_media_group_receipts Stubs.offline 7 its Stubs.empty_store in
  fst run = Ok tt /\
  sent (snd run)
  = [(7%Z, All_failed ["Receipt 1: Timed out downloading";
                       "Receipt 2: Timed out downloading"])].
Proof.
  intros its run.
  destruct (batch_all_failed Stubs.offline 7 its Stubs.empty_store)
    as (_ & _ & _ & H).
  - reflexivity.
  - reflexivity.
  - intros it [<- | [<- | []]]; reflexivity.
  - exact H.
Defined.

Lemma batch_releases_temporary_files_witness :
  tmp_files (snd (_process_media_group_receipts Stubs.one_slow 7
                    [Stubs.jpg "a"; Stubs.jpg "slow"] Stubs.empty_store))
  = ∅.
Proof.
  apply (batch_releases_temporary_files Stubs.one_slow 7
           [Stubs.jpg "a"; Stubs.jpg "slow"] Stubs.empty_store).
  intros it [<- | [<- | []]]; (split; [discriminate|]);
    (split; [cbn; set_solver | intros e; discriminate]).
Defined.

(** ** Every update is answered *)

Section Answers.

Variable S : services.

Ltac send_case :=
  match goal with
  | |- context [send_message S ?c ?r ?s] =>
      let Hs := fresh "Hs" in
      pose proof (send_message_sent S c r s) as Hs;
      destruct (send_message S c r s) as [[[]|?] ?];
      [destruct Hs as [? Hs] | destruct Hs as [? ->]]
  end.

Ltac answered :=
  send_case; cbn [sent] in *;
  [eexists; split; [|split; [eassumption|]]; [discriminate|eassumption]
  |reflexivity].

Lemma extract_and_store_sent chat tmp st :
  match extract_and_store S chat tmp st with
  | (Ok _, st') =>
      exists r, r <> Received /\ telegram_send S chat r = Ok tt /\
                sent st' = (sent st ++ [(chat, r)])%list
  | (Raise _, st') => sent st' = sent st
  end.
Proof.
  unfold extract_and_store, await_extraction, braise, blift.
  destruct (timed_out S tmp).
  { cbn [exn_cls]. answered. }
  generalize (fst (extract_receipt_data (extractor S) tmp [])).
  intros [o|e].
  2:{ destruct (exn_cls e); try reflexivity. answered. }
  destruct (success o); cbn [negb].
  2:{ answered. }
  unfold bbind, blift.
  destruct (sheets_service S) as [[]|e]; [|reflexivity].
  destruct (update_soa S (items o)) as [[]|e]; [|reflexivity].
  cbn [append_rows]. unfold upload_single.
  cbn [tmp_files sheet drive sent].
  assert (Hend : forall note st1, sent st1 = sent st ->
            match
              (let (r, st') := (summary_lines (items o), st1) in
               match r with
               | Ok lines =>
                   match lines with
                   | [] => send_message S chat Extracted_plain
                   | _ :: _ =>
                       send_message S chat
                         (Extracted lines
                            (fold_left add_amount lines (fin_of_Z 0)) note
                            (method o))
                   end st'
               | Raise e => (Raise e, st')
               end)
            with
            | (Ok _, st') =>
                exists r, r <> Received /\ telegram_send S chat r = Ok tt /\
                          sent st' = (sent st ++ [(chat, r)])%list
            | (Raise _, st') => sent st' = sent st
            end).
  { intros note st1 Hst1.
    destruct (summary_lines (items o)) as [[|l lines]|e]; [| |exact Hst1];
      send_case; cbn [sent] in *; rewrite <- ?Hst1;
      try (eexists; split; [|split; [eassumption|]]; [discriminate|];
           rewrite ?Hs; reflexivity);
      reflexivity. }
  destruct (drive_folder_id S) as [folder|]; [|apply Hend; reflexivity].
  destruct (str_truthy folder); [|apply Hend; reflexivity].
  match goal with |- context [bool_decide ?P] => destruct (bool_decide P) end;
    [|apply Hend; reflexivity].
  destruct (upload_file S tmp) as [[]|e]; apply Hend; reflexivity.
Qed.

(** X10.  The two receipt handlers raise only when the transport does, and
    then while sending the error message of their [except] clause.  A
    batch that returns has been answered with exactly one message; when it
    raises, nothing was sent.  A single document for which the handler
    returns has been answered with one final message, which may follow the
    note that the document was received; when the handler raises, at most
    that note was sent.  Over a transport that delivers every message
    neither handler raises. *)
Theorem receipt_handlers_answer_unless_transport_fails
  chat its doc photo suffix st :
  (match _process_media_group_receipts S chat its st with
   | (Ok _, st') =>
       exists r, telegram_send S chat r = Ok tt /\
                 sent st' = (sent st ++ [(chat, r)])%list
   | (Raise e, st') =>
       sent st' = sent st /\
       exists m, telegram_send S chat (Error_reply m) = Raise e
   end) /\
  (match handle_receipt_extraction S chat doc photo suffix st with
   | (Ok _, st') =>
       exists final,
         final <> Received /\ telegram_send S chat final = Ok tt /\
         (sent st' = (sent st ++ [(chat, final)])%list \/
          sent st' = (sent st ++ [(chat, Received); (chat, final)])%list)
   | (Raise e, st') =>
       (sent st' = sent st \/ sent st' = (sent st ++ [(chat, Received)])%list) /\
       exists m, telegram_send S chat (Error_reply m) = Raise e
   end) /\
  ((forall r, telegram_send S chat r = Ok tt) ->
   fst (_process_media_group_receipts S chat its st) = Ok tt /\
   fst (handle_receipt_extraction S chat doc photo suffix st) = Ok tt).
Proof.
  assert (Hbatch :
    match _process_media_group_receipts S chat its st with
    | (Ok _, st') =>
        exists r, telegram_send S chat r = Ok tt /\
                  sent st' = (sent st ++ [(chat, r)])%list
    | (Raise e, st') =>
        sent st' = sent st /\
        exists m, telegram_send S chat (Error_reply m) = Raise e
    end).
  { unfold _process_media_group_receipts. cbv zeta.
    match goal with
    | |- match (match ?body with pair _ _ => _ end) with pair _ _ => _ end =>
        assert (Hb : match body with
                     | (Ok _, st') =>
                         exists r, telegram_send S chat r = Ok tt /\
                                   sent st' = (sent st ++ [(chat, r)])%list
                     | (Raise _, st') => sent st' = sent st
                     end);
        [|destruct body as [[[]|e0] st1]]
    end.
    - destruct (sheets_configured S); cbn [negb].
      2:{ send_case; [eauto|reflexivity]. }
      unfold bbind, blift.
      destruct (sheets_service S) as [[]|e]; [|reflexivity].
      destruct (process_receipts_fate S its 0 initial st)
        as (a & st1 & lines & Hrun & Hsent & _).
      rewrite Hrun.
      send_case; [rewrite Hs, Hsent; eauto|exact Hsent].
    - exact Hb.
    - send_case; [rewrite Hs, Hb; eauto|eauto]. }
  assert (Hsingle :
    match handle_receipt_extraction S chat doc photo suffix st with
    | (Ok _, st') =>
        exists final,
          final <> Received /\ telegram_send S chat final = Ok tt /\
          (sent st' = (sent st ++ [(chat, final)])%list \/
           sent st' = (sent st ++ [(chat, Received); (chat, final)])%list)
    | (Raise e, st') =>
        (sent st' = sent st \/ sent st' = (sent st ++ [(chat, Received)])%list) /\
        exists m, telegram_send S chat (Error_reply m) = Raise e
    end).
  { unfold handle_receipt_extraction. cbv zeta.
    match goal with
    | |- match (match ?body with pair _ _ => _ end) with pair _ _ => _ end =>
        assert (Hb : match body with
                     | (Ok _, st') =>
                         exists final,
                           final <> Received /\
                           telegram_send S chat final = Ok tt /\
                           (sent st' = (sent st ++ [(chat, final)])%list \/
                            sent st'
                            = (sent st ++ [(chat, Received); (chat, final)])%list)
                     | (Raise _, st') =>
                         sent st' = sent st \/
                         sent st' = (sent st ++ [(chat, Received)])%list
                     end);
        [|destruct body as [[[]|e0] st1]]
    end.
    - destruct (sheets_configured S); cbn [negb].
      2:{ send_case; [|auto].
          eexists; split; [|split; [eassumption|]]; [discriminate|auto]. }
      match goal with
      | |- context [match ?x with Some fid => _ | None => _ end] =>
          destruct x as [fid|]
      end.
      2:{ send_case; [|auto].
          eexists; split; [|split; [eassumption|]]; [discriminate|auto]. }
      unfold bbind, blift.
      destruct (get_file S fid) as [[]|e]; [|auto].
      send_case; [|auto].
      cbn [create_tmp].
      destruct (download_to_drive S fid) as [[]|e]; [|cbn [sent]; auto].
      set (tmp := tmp_name S fid suffix).
      match goal with
      | |- context [extract_and_store S chat tmp ?x] =>
          pose proof (extract_and_store_sent chat tmp x) as Hinner;
          destruct (extract_and_store S chat tmp x) as [r st2]
      end.
      cbn [sent] in Hinner. cbn [unlink].
      destruct r as [[]|e]; cbn [sent].
      + destruct Hinner as (final & Hfinal & Hok & Hsent).
        exists final. split; [exact Hfinal|]. split; [exact Hok|].
        right. rewrite Hsent, Hs, <- app_assoc. reflexivity.
      + right. rewrite Hinner. exact Hs.
    - exact Hb.
    - send_case.
      + destruct Hb as [Hb | Hb].
        * eexists. split; [|split; [eassumption|]]; [discriminate|].
          left. rewrite Hs, Hb. reflexivity.
        * eexists. split; [|split; [eassumption|]]; [discriminate|].
          right. rewrite Hs, Hb, <- app_assoc. reflexivity.
      + eauto. }
  split; [exact Hbatch|]. split; [exact Hsingle|].
  intros Hall. split.
  - destruct (_process_media_group_receipts S chat its st) as [[[]|e] st'];
      [reflexivity|].
    destruct Hbatch as (_ & m & Hm). rewrite Hall in Hm. discriminate.
  - destruct (handle_receipt_extraction S chat doc photo suffix st)
      as [[[]|e] st']; [reflexivity|].
    destruct Hsingle as (_ & m & Hm). rewrite Hall in Hm. discriminate.
Qed.

End Answers.

(** ** The amounts of the summary and of the sheet *)

Lemma summary_lines_app_eq l1 : forall l2,
  summary_lines (l1 ++ l2)
  = match summary_lines l1 with
    | Raise e => Raise e
    | Ok x1 =>
        match summary_lines l2 with
        | Raise e => Raise e
        | Ok x2 => Ok (x1 ++ x2)%list
        end
    end.
Proof.
  induction l1 as [|r l1 IH]; intros l2; cbn [app summary_lines].
  - destruct (summary_lines l2); reflexivity.
  - destruct (summary_of r); [|reflexivity]. rewrite IH.
    destruct (summary_lines l1); [|reflexivity].
    destruct (summary_lines l2); reflexivity.
Qed.

Lemma summary_lines_raises its : forall e,
  summary_lines its = Raise e -> e = overflow_error.
Proof.
  induction its as [|r its IH]; intros e; cbn [summary_lines]; [discriminate|].
  destruct (summary_of r) as [l|e'] eqn:Hr.
  - destruct (summary_lines its) as [ls|e'']; [discriminate|].
    intros [= <-]. apply IH. reflexivity.
  - intros [= <-]. apply (summary_of_raises r e' Hr).
Qed.

(** X11.  The amount that [update_soa] writes for a line item agrees with
    the amount in the summary of the handlers.  When the total cannot be
    converted, the summary shows a dash and leaves the item out of the
    sum, and the sheet gets 0.  When it can be converted, the summary adds
    its value and the sheet gets that value, written as 0 when it is
    zero.  When the total is an integer beyond the range of a float, both
    raise the [OverflowError] of the conversion, and so does the sum of
    every list of items that holds the item. *)
Theorem sheet_amount_agrees_with_summary (r : row) :
  match summary_of r with
  | Ok line =>
      match amount line with
      | None =>
          SheetsService.soa_amount r = Ok (VInt 0) /\
          forall before after,
            total_sum (before ++ r :: after) = total_sum (before ++ after)
      | Some f =>
          SheetsService.soa_amount r = Ok (VFloat f) \/
          (float_truthy f = false /\ SheetsService.soa_amount r = Ok (VInt 0))
      end
  | Raise e =>
      e = overflow_error /\
      overflows (Total r) = true /\
      SheetsService.soa_amount r = Raise e /\
      forall before after,
        total_sum (before ++ r :: after) = Raise overflow_error
  end.
Proof.
  destruct (summary_of r) as [line|e] eqn:Hr.
  - destruct (amount line) as [f|] eqn:Ha.
    + unfold summary_of, SheetsService.soa_amount in *.
      destruct (float (Total r)) as [f'|e] eqn:Hf.
      * injection Hr as <-. cbn [amount] in Ha. injection Ha as ->.
        destruct (truthy (Total r)) eqn:Ht; [left; reflexivity|]. right.
        split; [|reflexivity].
        destruct (Total r) as [ |b|z|g|s|l|d]; cbn in Hf, Ht; try discriminate.
        -- injection Hf as <-. subst b. reflexivity.
        -- apply negb_false_iff, Z.eqb_eq in Ht. subst z.
           injection Hf as <-. reflexivity.
        -- injection Hf as <-. exact Ht.
        -- destruct s; [|discriminate]. discriminate.
      * destruct (value_or_type_error e); [|discriminate].
        injection Hr as <-. discriminate.
    + split.
      * unfold summary_of, SheetsService.soa_amount in *.
        destruct (float (Total r)) as [f'|e] eqn:Hf.
        -- injection Hr as <-. discriminate.
        -- destruct (value_or_type_error e); [|discriminate].
           destruct (truthy (Total r)); reflexivity.
      * intros before after. unfold total_sum.
        rewrite !summary_lines_app_eq. cbn [summary_lines]. rewrite Hr.
        destruct (summary_lines before) as [b|e]; [|reflexivity].
        destruct (summary_lines after) as [a|e]; [|reflexivity].
        rewrite !fold_left_app. cbn [fold_left].
        unfold add_amount at 2. rewrite Ha. reflexivity.
  - destruct (summary_of_raises r e Hr) as [Hov ->].
    split; [reflexivity|]. split; [exact Hov|]. split.
    + unfold summary_of, SheetsService.soa_amount in *.
      destruct (Total r) as [ |b|z|g|s|l|d]; try discriminate.
      cbn [overflows] in Hov. cbn [truthy float] in *.
      apply negb_true_iff in Hov. rewrite Hov in *.
      destruct (negb (z =? 0)%Z) eqn:Hz; [reflexivity|].
      apply negb_false_iff, Z.eqb_eq in Hz. subst z. discriminate.
    + intros before after. unfold total_sum.
      destruct (summary_lines (before ++ r :: after)) as [ls|e] eqn:Hs.
      * rewrite summary_lines_app_eq in Hs. cbn [summary_lines] in Hs.
        rewrite Hr in Hs. destruct (summary_lines before); discriminate.
      * rewrite (summary_lines_raises _ e Hs). reflexivity.
Qed.

Import Stages.

(** ** The stages of the extractor *)

Section Stages_of_the_extractor.

Variable E : env.

Ltac unbind :=
  unfold bind, ret, enter, lift in *; simpl in *.

Ltac unbind_in H :=
  unfold bind, ret, enter, lift in H; simpl in H.

Lemma parse_image_run image_path tr :
  _parse_receipt_directly_from_image E image_path tr
  = (page_answer E image_path,
     (tr ++ [Parse_directly_from_image image_path])%list).
Proof.
  unfold _parse_receipt_directly_from_image, page_answer, bind, enter, ret, lift.
  destruct (generate_content_with_image E ParsePrompt image_path) as [r|];
    [|reflexivity].
  destruct (negb (str_truthy r)); reflexivity.
Qed.

(** The loop over the pages, when every page can be parsed. *)
Lemma parse_pages_run pages : forall acc tr,
  Forall (page_parses E) pages ->
  parse_pages E pages acc tr
  = (Ok (acc ++ flat_map (page_items E) pages)%list,
     (tr ++ map Parse_directly_from_image pages)%list).
Proof.
  induction pages as [|p rest IH]; intros acc tr Hall.
  - cbn. unfold ret. rewrite !app_nil_r. reflexivity.
  - inversion Hall as [|? ? [its Hp] Hrest]; subst.
    cbn [parse_pages]. unfold bind. rewrite parse_image_run, Hp.
    rewrite IH by exact Hrest.
    cbn [map flat_map]. unfold page_items at 2. rewrite Hp.
    destruct (has_items its);
      rewrite <- ?app_assoc; cbn [app]; rewrite ?app_nil_r; reflexivity.
Qed.

(** The loop over the pages ends at the first page on whose answer the
    parser raises. *)
Lemma parse_pages_stop before : forall p after e acc tr,
  Forall (page_parses E) before ->
  page_answer E p = Raise e ->
  parse_pages E (before ++ p :: after) acc tr
  = (Raise e, (tr ++ map Parse_directly_from_image (before ++ [p]))%list).
Proof.
  induction before as [|q rest IH]; intros p after e acc tr Hall Hp.
  - cbn [app parse_pages map]. unfold bind. rewrite parse_image_run, Hp.
    reflexivity.
  - inversion Hall as [|? ? [its Hq] Hrest]; subst.
    cbn [app parse_pages map]. unfold bind. rewrite parse_image_run, Hq.
    rewrite (IH p after e _ _ Hrest Hp). rewrite <- app_assoc. reflexivity.
Qed.

Lemma pdf_pages_run pdf_path pages tr :
  ocr_available E = true ->
  convert_from_path E pdf_path = Ok pages ->
  Forall (page_parses E) pages ->
  _parse_receipt_directly_from_pdf_image E pdf_path tr
  = (Ok (or_none (flat_map (page_items E) pages)),
     (tr ++ Parse_directly_from_pdf_image pdf_path
         :: map Parse_directly_from_image pages)%list).
Proof.
  intros Hocr Hconv Hall.
  unfold _parse_receipt_directly_from_pdf_image, bind, enter, ret, except_all.
  rewrite Hocr, Hconv. cbn [negb].
  destruct pages as [|p rest]; [reflexivity|].
  rewrite (parse_pages_run _ _ _ Hall). cbn [app]. rewrite <- app_assoc.
  reflexivity.
Qed.

Lemma pdf_pages_stop pdf_path before p after e tr :
  ocr_available E = true ->
  convert_from_path E pdf_path = Ok (before ++ p :: after)%list ->
  Forall (page_parses E) before ->
  page_answer E p = Raise e ->
  _parse_receipt_directly_from_pdf_image E pdf_path tr
  = (Ok None,
     (tr ++ Parse_directly_from_pdf_image pdf_path
         :: map Parse_directly_from_image (before ++ [p]))%list).
Proof.
  intros Hocr Hconv Hall Hp.
  unfold _parse_receipt_directly_from_pdf_image, bind, enter, ret, except_all.
  rewrite Hocr, Hconv. cbn [negb].
  remember (before ++ p :: after)%list as pages eqn:Hl.
  destruct pages as [|q rest]; [destruct before; discriminate|].
  rewrite Hl, (parse_pages_stop before p after e _ _ Hall Hp).
  rewrite <- app_assoc. reflexivity.
Qed.

(** X15.  A PDF of several pages is read page by page and the items of
    the pages are put together in page order; the stage has no result
    when no page has an item.  This holds when the answer of every page
    can be parsed: every page image is then handed to the direct stage,
    whatever the earlier pages gave.  When the parser raises on the answer
    of a page, the stage gives no result at all: the items of the earlier
    pages are dropped and the later pages are never handed to the direct
    stage. *)
Theorem pdf_pages_are_merged pdf_path pages tr :
  ocr_available E = true ->
  convert_from_path E pdf_path = Ok pages ->
  (Forall (page_parses E) pages ->
   _parse_receipt_directly_from_pdf_image E pdf_path tr
   = (Ok (or_none (flat_map (page_items E) pages)),
      (tr ++ Parse_directly_from_pdf_image pdf_path
          :: map Parse_directly_from_image pages)%list)) /\
  (forall before p after e,
     pages = (before ++ p :: after)%list ->
     Forall (page_parses E) before ->
     page_answer E p = Raise e ->
     _parse_receipt_directly_from_pdf_image E pdf_path tr
     = (Ok None,
        (tr ++ Parse_directly_from_pdf_image pdf_path
            :: map Parse_directly_from_image (before ++ [p]))%list)).
Proof.
  intros Hocr Hconv. split.
  - apply pdf_pages_run; assumption.
  - intros before p after e -> Hall Hp.
    apply (pdf_pages_stop pdf_path before p after e tr); assumption.
Qed.

(** The parser of an answer raises what the decoder raises, and beyond
    that nothing but the [OverflowError] of one of its objects. *)
Lemma parse_response_raises response e :
  _parse_gemini_json_response E response = Raise e ->
  json_loads E response = Raise e \/
  (e = overflow_error /\
   exists entries item,
     json_loads E response = Ok (Some (VList entries)) /\
     In (VDict item) entries /\
     normalize_item E (strftime_dmy (now E)) item = Raise e).
Proof.
  unfold _parse_gemini_json_response.
  destruct (negb (str_truthy response) || negb (str_truthy (strip response)));
    [discriminate|].
  destruct (json_loads E response) as [[v|]|e0]; [|discriminate|].
  2:{ intros [= <-]. left. reflexivity. }
  destruct v as [ |b|z|g|s|entries|d]; try discriminate.
  destruct (normalize_items E (strftime_dmy (now E)) entries) as [[|r rows]|e']
    eqn:Hn; try discriminate.
  intros [= <-]. right.
  destruct (normalize_items_raises E _ _ _ Hn) as (item & Hin & Hitem).
  split.
  - unfold normalize_item in Hitem.
    apply coerce_numbers_raises in Hitem. apply Hitem.
  - exists entries, item. auto.
Qed.

Lemma page_answer_raises image_path e :
  page_answer E image_path = Raise e ->
  exists response,
    generate_content_with_image E ParsePrompt image_path = Some response /\
    _parse_gemini_json_response E response = Raise e.
Proof.
  unfold page_answer.
  destruct (generate_content_with_image E ParsePrompt image_path) as [r|];
    [|discriminate].
  destruct (negb (str_truthy r)); [discriminate|]. eauto.
Qed.

(** The direct stage raises only on an image, and then what the parser of
    the answer raises; on a PDF every exception is swallowed. *)
Lemma direct_parse_raises file_path tr e tr' :
  direct_parse E file_path tr = (Raise e, tr') ->
  is_image_ext (lower (suffix file_path)) = true /\
  page_answer E file_path = Raise e.
Proof.
  unfold direct_parse. destruct (is_image_ext _) eqn:Hi.
  - rewrite parse_image_run. intros [= Hp _]. auto.
  - destruct (String.eqb _ ".pdf" && ocr_available E); [|discriminate].
    unfold _parse_receipt_directly_from_pdf_image, bind, enter, ret, except_all.
    destruct (negb (ocr_available E)); [discriminate|].
    destruct (convert_from_path E file_path) as [[|p ps]|]; try discriminate.
    match goal with
    | |- context [parse_pages E ?l ?acc ?t] =>
        destruct (parse_pages E l acc t) as [[x|e1] tr1]
    end; discriminate.
Qed.

Lemma text_ocr_returns p tr :
  exists t tr', _extract_text_ocr E p tr = (Ok t, tr').
Proof.
  unfold _extract_text_ocr, bind, enter, ret.
  destruct (negb (ocr_available E)); [eauto|].
  destruct (ocr_pdf E p); eauto.
Qed.

Lemma text_from_image_returns p tr :
  exists t tr', _extract_text_from_image E p tr = (Ok t, tr').
Proof.
  unfold _extract_text_from_image, bind, enter, ret.
  destruct (negb (ocr_available E)); [eauto|].
  destruct (ocr_image E p); eauto.
Qed.

Lemma text_vision_returns p tr :
  exists t tr', _extract_text_via_gemini_vision E p tr = (Ok t, tr').
Proof.
  unfold _extract_text_via_gemini_vision, bind, enter, ret.
  destruct (generate_content_with_image E TranscribePrompt p); eauto.
Qed.

Lemma text_pdf_vision_returns p tr :
  exists t tr', _extract_text_from_pdf_via_gemini_vision E p tr = (Ok t, tr').
Proof.
  unfold _extract_text_from_pdf_via_gemini_vision, bind, enter, ret.
  destruct (negb (ocr_available E)); [eauto|].
  destruct (convert_first_page E p) as [[|tmp rest]|e]; eauto.
  apply text_vision_returns.
Qed.

(** The stage that parses the text raises only what the parser of the
    answer raises. *)
Lemma parse_with_gemini_raises text tr e tr' :
  _parse_receipt_with_gemini E text tr = (Raise e, tr') ->
  exists response,
    generate_content E text = Some response /\
    _parse_gemini_json_response E response = Raise e.
Proof.
  unfold _parse_receipt_with_gemini, bind, enter, ret, lift.
  destruct (generate_content E text) as [r|]; [|discriminate].
  destruct (negb (str_truthy r)); [discriminate|].
  intros [= Hr _]. eauto.
Qed.

(** [extract_text] raises only what pdfplumber raises on a PDF. *)
Lemma extract_text_raises file_path tr e tr' :
  extract_text E file_path tr = (Raise e, tr') ->
  lower (suffix file_path) = ".pdf" /\ pdfplumber_text E file_path = Raise e.
Proof.
  unfold extract_text. unfold bind at 1. unfold enter at 1.
  destruct (negb (path_exists E file_path)); [discriminate|].
  destruct (String.eqb (lower (suffix file_path)) ".pdf") eqn:Hext.
  - apply String.eqb_eq in Hext.
    unfold _extract_text_pdfplumber, bind, enter, lift.
    destruct (pdfplumber_text E file_path) as [t1|e1].
    2:{ intros [= <- _]. auto. }
    match goal with
    | |- context [(if too_short t1 && ocr_available E then ?m else _) ?tr1] =>
        assert (H2 : exists t2 tr2,
                  (if too_short t1 && ocr_available E then m else ret t1) tr1
                  = (Ok t2, tr2))
    end.
    { destruct (too_short t1 && ocr_available E);
        [apply text_ocr_returns | unfold ret; eauto]. }
    destruct H2 as (t2 & tr2 & ->).
    destruct (too_short t2 && ocr_available E).
    + destruct (text_pdf_vision_returns file_path tr2) as (v & tr3 & ->).
      unfold ret. destruct (too_short _); discriminate.
    + unfold ret. destruct (too_short t2); discriminate.
  - destruct (is_image_ext _); [|discriminate].
    unfold bind.
    destruct (text_vision_returns file_path
                (tr ++ [Extract_text file_path])%list) as (v & tr1 & ->).
    destruct (negb (too_short v)).
    + unfold ret. destruct (too_short v); discriminate.
    + destruct (ocr_available E).
      * destruct (text_from_image_returns file_path tr1) as (t & tr2 & ->).
        unfold ret. destruct (too_short t); discriminate.
      * unfold ret. destruct (too_short ""); discriminate.
Qed.

(** The blocks from the table stage on raise only what pdfplumber raises on
    the tables of a PDF. *)
Lemma tables_and_regex_raises file_path its m text tr e tr' :
  tables_and_regex E file_path its m text tr = (Raise e, tr') ->
  lower (suffix file_path) = ".pdf" /\ pdfplumber_tables E file_path = Raise e.
Proof.
  unfold tables_and_regex. unfold bind at 1.
  destruct (negb (has_items its) && String.eqb (lower (suffix file_path)) ".pdf")
    eqn:Hc.
  - apply andb_prop in Hc. destruct Hc as [_ Hext]. apply String.eqb_eq in Hext.
    unfold _extract_items_from_tables, bind, enter, lift, ret.
    destruct (pdfplumber_tables E file_path) as [tables|e1].
    2:{ intros [= <- _]. auto. }
    cbn [fst snd]. destruct (negb (has_items (Some (flat_map table_items tables))));
      [|discriminate].
    destruct (_extract_totals_from_text text); discriminate.
  - unfold ret, bind, enter. cbn [fst snd].
    destruct (negb (has_items its)); [|discriminate].
    destruct (_extract_totals_from_text text); discriminate.
Qed.

(** X16.  What the extractor raises.  If [extract_receipt_data] raises,
    then either the file is a PDF and the exception is the one that
    pdfplumber raised on its text or on its tables, or it is the exception
    that the parser of an AI answer raised: on the answer of the direct
    stage for an image, or on the answer that Gemini gave for the
    extracted text.  The parser raises what [json.loads] raises other
    than [JSONDecodeError], and the [OverflowError] of the normalisation.
    When pdfplumber can read the file and the parser raises on no answer,
    an outcome is returned. *)
Theorem what_the_extractor_raises file_path tr :
  (forall e tr',
     extract_receipt_data E file_path tr = (Raise e, tr') ->
     (lower (suffix file_path) = ".pdf" /\
      (pdfplumber_text E file_path = Raise e \/
       pdfplumber_tables E file_path = Raise e)) \/
     (exists response,
        _parse_gemini_json_response E response = Raise e /\
        (json_loads E response = Raise e \/ e = overflow_error) /\
        ((is_image_ext (lower (suffix file_path)) = true /\
          generate_content_with_image E ParsePrompt file_path = Some response) \/
         exists text, generate_content E text = Some response))) /\
  ((lower (suffix file_path) = ".pdf" ->
    (exists t, pdfplumber_text E file_path = Ok t) /\
    (exists tables, pdfplumber_tables E file_path = Ok tables)) ->
   (forall response e, _parse_gemini_json_response E response <> Raise e) ->
   exists o tr', extract_receipt_data E file_path tr = (Ok o, tr')).
Proof.
  assert (Hparser : forall response e,
            _parse_gemini_json_response E response = Raise e ->
            json_loads E response = Raise e \/ e = overflow_error).
  { intros response e Hr.
    destruct (parse_response_raises _ _ Hr) as [H | [H _]]; auto. }
  assert (Hraise : forall e tr',
            extract_receipt_data E file_path tr = (Raise e, tr') ->
            (lower (suffix file_path) = ".pdf" /\
             (pdfplumber_text E file_path = Raise e \/
              pdfplumber_tables E file_path = Raise e)) \/
            (exists response,
               _parse_gemini_json_response E response = Raise e /\
               (json_loads E response = Raise e \/ e = overflow_error) /\
               ((is_image_ext (lower (suffix file_path)) = true /\
                 generate_content_with_image E ParsePrompt file_path
                 = Some response) \/
                exists text, generate_content E text = Some response))).
  { intros e tr'. unfold extract_receipt_data, stages. unfold bind at 1 2.
    destruct (direct_parse E file_path tr) as [[its|e0] tr1] eqn:Hd.
    2:{ intros [= <- _]. right.
        destruct (direct_parse_raises _ _ _ _ Hd) as [Himg Hp].
        destruct (page_answer_raises _ _ Hp) as (response & Hr & Hparse).
        exists response. split; [exact Hparse|].
        split; [exact (Hparser _ _ Hparse)|]. left. auto. }
    destruct (negb (has_items its)).
    - unfold bind at 1.
      destruct (extract_text E file_path tr1) as [[[[t ok] err]|e1] tr2] eqn:Ht.
      + cbn [fst snd]. destruct (negb ok); [discriminate|].
        unfold bind at 1.
        destruct (_parse_receipt_with_gemini E t tr2) as [[its2|e2] tr3] eqn:Hg.
        * destruct (tables_and_regex E file_path its2 _ t tr3)
            as [[s|e2] tr4] eqn:Hs.
          -- destruct s; discriminate.
          -- intros [= <- _]. apply tables_and_regex_raises in Hs.
             destruct Hs; auto.
        * intros [= <- _]. right.
          destruct (parse_with_gemini_raises _ _ _ _ Hg)
            as (response & Hr & Hparse).
          exists response. split; [exact Hparse|].
          split; [exact (Hparser _ _ Hparse)|]. right. eauto.
      + intros [= <- _]. apply extract_text_raises in Ht. destruct Ht; auto.
    - destruct (tables_and_regex E file_path its _ "" tr1)
        as [[s|e2] tr4] eqn:Hs.
      + destruct s; discriminate.
      + intros [= <- _]. apply tables_and_regex_raises in Hs.
        destruct Hs; auto. }
  split; [exact Hraise|].
  intros Hpdf Hnone.
  destruct (extract_receipt_data E file_path tr) as [[o|e] tr'] eqn:Hrun;
    [eauto|].
  exfalso.
  destruct (Hraise e tr' eq_refl)
    as [[Hext [Hr | Hr]] | (response & Hr & _)].
  - destruct (Hpdf Hext) as [[t Ht] _]. congruence.
  - destruct (Hpdf Hext) as [_ [tb Htb]]. congruence.
  - exact (Hnone response e Hr).
Qed.

Lemma keep_amounts_positive ok groups f :
  In f (keep_amounts ok groups) -> flt (fin_of_Z 0) f = true /\ ok f = true.
Proof.
  unfold keep_amounts. intros Hin. apply in_flat_map in Hin.
  destruct Hin as (g & _ & Hin).
  destruct (_parse_amount g) as [f'|]; [|contradiction].
  destruct (positive (Some f') && ok f') eqn:Hc; [|contradiction].
  destruct Hin as [<- | []]. apply andb_prop in Hc. destruct Hc as [Hp Hok].
  unfold positive in Hp. apply andb_prop in Hp. split; [apply Hp | exact Hok].
Qed.

Lemma totals_positive text f :
  In f (_extract_totals_from_text text) -> flt (fin_of_Z 0) f = true.
Proof.
  unfold _extract_totals_from_text.
  set (labelled := flat_map _ TOTAL_PATTERNS).
  assert (Hlab : forall f, In f labelled -> flt (fin_of_Z 0) f = true).
  { intros g Hin. apply in_flat_map in Hin. destruct Hin as (pattern & _ & Hin).
    apply keep_amounts_positive in Hin. apply Hin. }
  destruct labelled as [|a l].
  - intros Hin. apply keep_amounts_positive in Hin. apply Hin.
  - apply Hlab.
Qed.

Lemma tables_and_regex_origin file_path its m text tr l m' tr' :
  tables_and_regex E file_path its m text tr = (Ok (Produced l m'), tr') ->
  (has_items its = true /\ its = Some l /\ m' = m) \/
  (has_items its = false /\ lower (suffix file_path) = ".pdf" /\
   exists tables,
     pdfplumber_tables E file_path = Ok tables /\
     l = flat_map table_items tables /\ m' = "pdfplumber_tables") \/
  (has_items its = false /\ m' = "regex_fallback" /\
   exists amount others,
     _extract_totals_from_text text = amount :: others /\
     l = [receipt_total (strftime_dmy (now E)) amount]).
Proof.
  unfold tables_and_regex. unfold bind at 1.
  destruct (has_items its) eqn:Hi; cbn [negb andb].
  - unfold ret. cbn [fst snd]. rewrite Hi. cbn [negb].
    intros [= <- <- _]. left.
    destruct its as [[|r l0]|]; try discriminate. auto.
  - destruct (String.eqb (lower (suffix file_path)) ".pdf") eqn:Hext.
    + apply String.eqb_eq in Hext.
      unfold _extract_items_from_tables, bind, enter, lift, ret.
      destruct (pdfplumber_tables E file_path) as [tables|e1]; [|discriminate].
      cbn [fst snd].
      destruct (has_items (Some (flat_map table_items tables))) eqn:Ht;
        cbn [negb].
      * intros [= <- <- _]. right. left. split; [reflexivity|].
        split; [exact Hext|]. exists tables. auto.
      * destruct (_extract_totals_from_text text) as [|amount others];
          [discriminate|].
        intros [= <- <- _]. right. right. split; [reflexivity|].
        split; [reflexivity|]. exists amount, others. auto.
    + unfold ret, bind, enter. cbn [fst snd]. rewrite Hi. cbn [negb].
      destruct (_extract_totals_from_text text) as [|amount others];
        [discriminate|].
      intros [= <- <- _]. right. right. split; [reflexivity|].
      split; [reflexivity|]. exists amount, others. auto.
Qed.

Lemma ensure_date_receipt_total today amount :
  map (ensure_date today) [receipt_total today amount]
  = [receipt_total today amount].
Proof.
  unfold ensure_date, receipt_total. cbn. destruct (str_truthy today); reflexivity.
Qed.

(** X17.  The method of a successful outcome names the stage its items
    come from.  With [gemini_vision] they are the items of the direct
    stage; with [gemini_text] those that Gemini made of the extracted
    text; with [pdfplumber_tables] the file is a PDF and they are the rows
    of its tables; with [regex_fallback] there is exactly one item, named
    Receipt Total, whose amount is the first amount found in the extracted
    text and is positive.  In each case dates are filled in where they are
    missing. *)
Theorem method_names_the_stage file_path tr o tr' :
  extract_receipt_data E file_path tr = (Ok o, tr') ->
  success o = true ->
  origin E file_path o.
Proof.
  unfold extract_receipt_data. unfold bind at 1.
  destruct (stages E file_path tr) as [[s|e] tr0] eqn:Hs; [|discriminate].
  destruct s as [o'|l m].
  { unfold ret. intros [= <- _] Hok.
    apply stages_shape in Hs. destruct Hs as (_ & Hfail & _). congruence. }
  unfold ret. intros [= <- _] _. cbn [method items].
  revert Hs. unfold stages. unfold bind at 1.
  destruct (direct_parse E file_path tr) as [[its|e] tr1] eqn:Hd; [|discriminate].
  destruct (has_items its) eqn:Hi; cbn [negb].
  - intros Hs. apply tables_and_regex_origin in Hs.
    destruct Hs as [(_ & -> & ->) | [(Hno & _) | (Hno & _)]]; try congruence.
    eapply From_vision; [reflexivity | exact Hd | reflexivity].
  - unfold bind at 1.
    destruct (extract_text E file_path tr1) as [[[[t ok] err]|e] tr2] eqn:Ht;
      [|discriminate].
    cbn [fst snd]. destruct ok; cbn [negb]; [|discriminate].
    assert (err = None) as ->.
    { apply extract_text_shape in Ht.
      destruct Ht as [[_ ->] | (Hf & _)]; [reflexivity|discriminate]. }
    unfold bind at 1.
    destruct (_parse_receipt_with_gemini E t tr2) as [[its2|e] tr3] eqn:Hg;
      [|discriminate].
    intros Hs. apply tables_and_regex_origin in Hs.
    destruct Hs as [(Hyes & -> & ->) |
                    [(_ & Hext & tables & Htb & -> & ->) |
                     (_ & -> & amount & others & Hfound & ->)]].
    + rewrite Hyes. eapply From_text; [reflexivity | exact Ht | exact Hg | reflexivity].
    + eapply From_tables; [reflexivity | exact Hext | exact Htb | reflexivity].
    + eapply From_regex; [reflexivity | exact Ht | exact Hfound | | ].
      * apply (totals_positive t). rewrite Hfound. left. reflexivity.
      * cbn [items]. apply ensure_date_receipt_total.
Qed.

(** *** Stripped texts *)

Lemma lstrip_chars_clean l : clean_head (lstrip_chars l).
Proof.
  induction l as [|c t IH]; [exact I|].
  cbn [lstrip_chars]. destruct (is_space c) eqn:Hc; [exact IH | exact Hc].
Qed.

Lemma lstrip_chars_id l : clean_head l -> lstrip_chars l = l.
Proof.
  destruct l as [|c t]; [reflexivity|]. cbn. intros ->. reflexivity.
Qed.

Lemma strip_chars_idempotent l : strip_chars (strip_chars l) = strip_chars l.
Proof.
  unfold strip_chars.
  set (a := lstrip_chars l).
  assert (Ha : clean_head a) by apply lstrip_chars_clean.
  set (b := lstrip_chars (rev a)).
  assert (Hb : clean_head b) by apply lstrip_chars_clean.
  destruct (lstrip_chars_suffix (rev a)) as [pre Hpre]. fold b in Hpre.
  assert (Hrevb : clean_head (rev b)).
  { assert (Hab : a = (rev b ++ rev pre)%list).
    { rewrite <- rev_app_distr, <- Hpre, rev_involutive. reflexivity. }
    destruct (rev b) as [|c t]; [exact I|].
    rewrite Hab in Ha. exact Ha. }
  rewrite (lstrip_chars_id (rev b) Hrevb), rev_involutive,
    (lstrip_chars_id b Hb).
  reflexivity.
Qed.

Lemma strip_idempotent s : strip (strip s) = strip s.
Proof.
  unfold strip. rewrite chars_str, strip_chars_idempotent. reflexivity.
Qed.

(** X18.  A text that [extract_text] returns as a success is stripped of
    surrounding white space and still has at least 20 characters; the
    file exists and is a PDF or an image, and no error message comes with
    it. *)
Theorem extract_text_success file_path tr t err tr' :
  extract_text E file_path tr = (Ok (t, true, err), tr') ->
  err = None /\
  (20 <= len t)%nat /\
  strip t = t /\
  path_exists E file_path = true /\
  (lower (suffix file_path) = ".pdf" \/
   is_image_ext (lower (suffix file_path)) = true).
Proof.
  assert (Hfinish : forall text tr1,
            (if too_short text then ret ("", false, Some quality_error)
             else ret (strip text, true, @None string)) tr1
            = (Ok (t, true, err), tr') ->
            err = None /\ (20 <= len t)%nat /\ strip t = t).
  { intros text tr1. destruct (too_short text) eqn:Hshort; unfold ret;
      intros [= <- <- _]. split; [reflexivity|].
    split; [|apply strip_idempotent].
    unfold too_short in Hshort. apply orb_false_elim in Hshort.
    destruct Hshort as [_ Hlen]. apply Nat.ltb_ge in Hlen. exact Hlen. }
  unfold extract_text. unfold bind at 1. unfold enter at 1.
  destruct (path_exists E file_path); cbn [negb]; [|discriminate].
  destruct (String.eqb (lower (suffix file_path)) ".pdf") eqn:Hext.
  - apply String.eqb_eq in Hext. intros H.
    assert (Hgoal : err = None /\ (20 <= len t)%nat /\ strip t = t).
    { revert H. unfold bind at 1.
      destruct (_extract_text_pdfplumber E file_path _) as [[t1|e1] tr1];
        [|discriminate].
      unfold bind at 1.
      match goal with
      | |- context [(if ?c then ?m else ?n) tr1] =>
          destruct ((if c then m else n) tr1) as [[t2|e2] tr2]
      end; [|discriminate].
      unfold bind at 1.
      match goal with
      | |- context [(if ?c then ?m else ?n) tr2] =>
          destruct ((if c then m else n) tr2) as [[t3|e3] tr3]
      end; [|discriminate].
      apply Hfinish. }
    destruct Hgoal as (A & B & C). auto 10.
  - destruct (is_image_ext (lower (suffix file_path))); [|discriminate].
    intros H.
    assert (Hgoal : err = None /\ (20 <= len t)%nat /\ strip t = t).
    { revert H. unfold bind at 1.
      destruct (_extract_text_via_gemini_vision E file_path _) as [[v|e1] tr1];
        [|discriminate].
      unfold bind at 1.
      match goal with
      | |- context [(if ?c then ?m else ?n) tr1] =>
          destruct ((if c then m else n) tr1) as [[t2|e2] tr2]
      end; [|discriminate].
      apply Hfinish. }
    destruct Hgoal as (A & B & C). auto 10.
Qed.

(** X19.  A file that is missing or of a kind that is not supported fails
    at the text stage, with the message of that stage and without any
    engine having read it there: once the direct stage has found no item,
    a missing file is reported as not found; a file that is neither an
    image nor a PDF is never handed to the direct stage and is reported as
    unsupported. *)
Theorem unreadable_file_fails_early file_path tr :
  (forall its tr1,
     path_exists E file_path = false ->
     direct_parse E file_path tr = (Ok its, tr1) ->
     has_items its = false ->
     extract_receipt_data E file_path tr
     = (Ok (Outcome [] false (Some "File not found") "text_extraction_failed"),
        (tr1 ++ [Extract_text file_path])%list)) /\
  (path_exists E file_path = true ->
   lower (suffix file_path) <> ".pdf" ->
   is_image_ext (lower (suffix file_path)) = false ->
   extract_receipt_data E file_path tr
   = (Ok (Outcome [] false
            (Some ("Unsupported file type: " ++ lower (suffix file_path)
                   ++ ". Use PDF, JPG, PNG, or WEBP."))
            "text_extraction_failed"),
      (tr ++ [Extract_text file_path])%list)).
Proof.
  split.
  - intros its tr1 Hex Hd Hi.
    unfold extract_receipt_data, stages. unfold bind at 1 2.
    rewrite Hd, Hi. cbn [negb].
    unfold bind at 1. unfold extract_text. unfold bind at 1. unfold enter at 1.
    rewrite Hex. reflexivity.
  - intros Hex Hpdf Himg.
    apply String.eqb_neq in Hpdf.
    unfold extract_receipt_data, stages, direct_parse. unfold bind at 1 2.
    rewrite Himg, Hpdf. cbn [andb]. unfold ret at 1. cbn [has_items negb].
    unfold bind at 1. unfold extract_text. unfold bind at 1. unfold enter at 1.
    rewrite Hex, Himg, Hpdf. reflexivity.
Qed.

End Stages_of_the_extractor.

Lemma pdf_pages_are_merged_witness :
  _parse_receipt_directly_from_pdf_image two_pages "r.pdf" []
  = (Ok (Some [ {| Date := Some "03/11/2026"; Item := "Coffee";
                   Price := VFloat (Fin 4.5); Qty := VFloat (fin_of_Z 1);
                   Total := VFloat (Fin 4.5) |} ]),
     [Parse_directly_from_pdf_image "r.pdf";
      Parse_directly_from_image "/tmp/page1.png";
      Parse_directly_from_image "/tmp/page2.png"]) /\
  _parse_receipt_directly_from_pdf_image huge_second_page "r.pdf" []
  = (Ok None,
     [Parse_directly_from_pdf_image "r.pdf";
      Parse_directly_from_image "/tmp/page1.png";
      Parse_directly_from_image "/tmp/page2.png"]).
Proof.
  split.
  - destruct (pdf_pages_are_merged two_pages "r.pdf"
                ["/tmp/page1.png"; "/tmp/page2.png"] [] eq_refl eq_refl)
      as [Hall _].
    rewrite Hall; [reflexivity|].
    repeat constructor; eexists; vm_compute; reflexivity.
  - destruct (pdf_pages_are_merged huge_second_page "r.pdf"
                ["/tmp/page1.png"; "/tmp/page2.png"; "/tmp/page3.png"] []
                eq_refl eq_refl) as [_ Hstop].
    apply (Hstop ["/tmp/page1.png"] "/tmp/page2.png" ["/tmp/page3.png"]
             overflow_error eq_refl).
    + repeat constructor. eexists. vm_compute. reflexivity.
    + vm_compute. reflexivity.
Defined.

Lemma what_the_extractor_raises_witness :
  fst (extract_receipt_data unreadable "scan.pdf" [])
    = Raise (Exn OtherException "No /Root object!") /\
  pdfplumber_text unreadable "scan.pdf"
    = Raise (Exn OtherException "No /Root object!") /\
  fst (extract_receipt_data huge_second_page "/tmp/page2.png" [])
    = Raise overflow_error /\
  _parse_gemini_json_response huge_second_page huge_response
    = Raise overflow_error /\
  _parse_gemini_json_response huge_second_page nested_response
    = Raise (Exn OtherException "maximum recursion depth exceeded").
Proof.
  destruct (what_the_extractor_raises unreadable "scan.pdf" [])
    as [Hraise _].
  destruct (what_the_extractor_raises huge_second_page "/tmp/page2.png" [])
    as [Hraise' _].
  split; [reflexivity|].
  split; [|split; [vm_compute; reflexivity|split; [|vm_compute; reflexivity]]].
  - destruct (Hraise (Exn OtherException "No /Root object!")
                (snd (extract_receipt_data unreadable "scan.pdf" [])))
      as [[_ [H | H]] | (response & _ & _ & [[H _] | [text H]])];
      [reflexivity | exact H | discriminate H | vm_compute in H; discriminate H
      | discriminate H].
  - destruct (Hraise' overflow_error
                (snd (extract_receipt_data huge_second_page "/tmp/page2.png" [])))
      as [[H _] | (response & Hr & _ & [[_ Hg] | [text Hg]])].
    + vm_compute. reflexivity.
    + vm_compute in H. discriminate H.
    + injection Hg as <-. exact Hr.
    + discriminate Hg.
Defined.

Lemma method_names_the_stage_witness :
  origin Stubs.label_env "r.jpg"
    (Outcome [receipt_total "03/11/2026" (Fin (Qred 42.5))] true None
       "regex_fallback").
Proof.
  apply (method_names_the_stage Stubs.label_env "r.jpg" []
           _ (snd (extract_receipt_data Stubs.label_env "r.jpg" [])));
    reflexivity.
Defined.

Lemma extract_text_success_witness :
  extract_text Stubs.two_readers "r.jpg" []
    = (Ok (Stubs.vision_reading, true, None),
       [Extract_text "r.jpg"; Text_via_gemini_vision "r.jpg"]) /\
  strip Stubs.vision_reading = Stubs.vision_reading.
Proof.
  split; [reflexivity|].
  apply (extract_text_success Stubs.two_readers "r.jpg" []
           Stubs.vision_reading None
           [Extract_text "r.jpg"; Text_via_gemini_vision "r.jpg"]).
  reflexivity.
Defined.

Lemma unreadable_file_fails_early_witness :
  extract_receipt_data Stubs.silent "notes.txt" []
  = (Ok (Outcome [] false
           (Some "Unsupported file type: .txt. Use PDF, JPG, PNG, or WEBP.")
           "text_extraction_failed"),
     [Extract_text "notes.txt"]).
Proof.
  destruct (unreadable_file_fails_early Stubs.silent "notes.txt" []) as [_ H].
  apply H; [reflexivity | discriminate | reflexivity].
Defined.

(** ** What the parser of an AI answer raises *)

(** The three ways in which a numeric field is taken. *)
Lemma coerce_modes v d :
  (accepted v = true /\ overflows v = false /\ exists x, coerce v d = Ok x) \/
  (accepted v = false /\ overflows v = false /\
   exists e, coerce v d = Raise e /\ value_or_type_error e = true) \/
  (accepted v = false /\ overflows v = true /\ coerce v d = Raise overflow_error).
Proof.
  unfold accepted, coerce.
  destruct (overflows v) eqn:Hov.
  - right. right. rewrite (overflows_truthy v Hov), (float_overflows v Hov).
    auto.
  - destruct (truthy v); cbn [negb orb]; [|left; eauto].
    destruct (float_in_range v Hov) as [[f ->] | (e & -> & He)].
    + left. eauto.
    + right. left. eauto.
Qed.

Lemma normalize_items_lost (E : env) date item e entries :
  In (VDict item) entries ->
  normalize_item E date item = Raise e ->
  normalize_items E date entries = Raise overflow_error.
Proof.
  intros Hin Hitem.
  destruct (normalize_items E date entries) as [rows|e'] eqn:Hn.
  - destruct (normalize_item_in E _ _ _ _ Hn Hin) as (r & Hr & _). congruence.
  - destruct (normalize_items_raises E _ _ _ Hn) as (item' & _ & Hitem').
    unfold normalize_item in Hitem'.
    apply coerce_numbers_raises in Hitem'. destruct Hitem' as [-> _].
    reflexivity.
Qed.

(** X20.  What the parser of an AI answer raises.  The normalisation of a
    line item raises nothing but the [OverflowError] of [float], which no
    [except] clause of the method catches, and it raises it exactly when
    the first of its fields price, quantity and total that [float] does
    not take (counting a falsy field as taken) is an integer beyond the
    range of a float.  The parser raises on an answer exactly when the
    answer is not blank and either [json.loads] raises something other
    than [JSONDecodeError], or the answer decodes to an array and the
    normalisation of one of its objects raises; all the other line items
    of the answer are lost with it.  The integers beyond the range of a
    float are those of absolute value 2^1024 - 2^970 and more. *)
Theorem parser_raises_on_overflow_only (E : env) (date : string)
  (item : list (string * pyval)) :
  let price := dict_get_default item "Price" (VInt 0) in
  let qty := dict_get_default item "Qty" (VInt 1) in
  let total := dict_get_default item "Total" (VInt 0) in
  (forall e, normalize_item E date item = Raise e -> e = overflow_error) /\
  (normalize_item E date item = Raise overflow_error <->
   overflows price
   || accepted price && (overflows qty || accepted qty && overflows total)
   = true) /\
  (forall response e,
     _parse_gemini_json_response E response = Raise e <->
     str_truthy response = true /\ str_truthy (strip response) = true /\
     (json_loads E response = Raise e \/
      (e = overflow_error /\
       exists entries item',
         json_loads E response = Ok (Some (VList entries)) /\
         In (VDict item') entries /\
         normalize_item E (strftime_dmy (now E)) item' = Raise e))) /\
  (forall z : Z,
     overflows (VInt z) = true <->
     (z <= - (2 ^ 1024 - 2 ^ 970) \/ 2 ^ 1024 - 2 ^ 970 <= z)%Z) /\
  (forall z : Z,
     float (VInt z)
     = if overflows (VInt z) then Raise overflow_error else Ok (fin_of_Z z)).
Proof.
  cbv zeta. split; [|split; [|split; [|split]]].
  4:{ intros z. cbn [overflows]. rewrite negb_true_iff, Z.ltb_ge.
      change float_overflow with (2 ^ 1024 - 2 ^ 970)%Z. lia. }
  4:{ intros z. cbn [overflows float].
      destruct (Z.abs z <? float_overflow)%Z; reflexivity. }
  - intros e He. unfold normalize_item in He.
    apply coerce_numbers_raises in He. apply He.
  - unfold normalize_item, coerce_numbers. cbn [Date Item Price Qty Total].
    set (price := dict_get_default item "Price" (VInt 0)).
    set (qty := dict_get_default item "Qty" (VInt 1)).
    set (total := dict_get_default item "Total" (VInt 0)).
    destruct (coerce_modes price (VInt 0))
      as [(Ap & Op & xp & Hp) | [(Ap & Op & ep & Hp & Vp) | (Ap & Op & Hp)]];
      rewrite Hp, Ap, Op; cbn [Date Item Price Qty Total orb andb].
    2:{ unfold pass_value_or_type_error. rewrite Vp.
        split; intros H; discriminate H. }
    2:{ rewrite overflow_error_passes. split; reflexivity. }
    destruct (coerce_modes qty (VInt 1))
      as [(Aq & Oq & xq & Hq) | [(Aq & Oq & eq & Hq & Vq) | (Aq & Oq & Hq)]];
      rewrite Hq, Aq, Oq; cbn [Date Item Price Qty Total orb andb].
    2:{ unfold pass_value_or_type_error. rewrite Vq.
        split; intros H; discriminate H. }
    2:{ rewrite overflow_error_passes. split; reflexivity. }
    destruct (coerce_modes total (VInt 0))
      as [(At & Ot & xt & Ht) | [(At & Ot & et & Ht & Vt) | (At & Ot & Ht)]];
      rewrite Ht, Ot; cbn [Date Item Price Qty Total orb andb].
    + split; intros H; discriminate H.
    + unfold pass_value_or_type_error. rewrite Vt.
      split; intros H; discriminate H.
    + rewrite overflow_error_passes. split; reflexivity.
  - intros response e. split.
    + intros Hraise.
      pose proof (parse_response_raises E response e Hraise) as Hwhy.
      unfold _parse_gemini_json_response in Hraise.
      destruct (str_truthy response); [|discriminate Hraise].
      destruct (str_truthy (strip response)); [|discriminate Hraise].
      auto.
    + intros (Hr & Hs & [Hj | (-> & entries & item' & Hj & Hin & Hitem)]);
        unfold _parse_gemini_json_response; rewrite Hr, Hs, Hj; cbn [negb orb];
        [reflexivity|].
      rewrite (normalize_items_lost E _ item' _ entries Hin Hitem).
      reflexivity.
Qed.

Import Commands.

(** ** Meetings *)



Lemma start_meeting_no_empty chat_id user_id user_name now s :
  no_empty_chat s ->
  no_empty_chat (start_meeting chat_id user_id user_name now s).
Proof.
  unfold no_empty_chat, start_meeting, send_reply. intros H c d.
  destruct (active_meetings s !! chat_id) as [of_chat|] eqn:Hc.
  - cbv beta iota zeta. rewrite Hc. cbn [default from_option id].
    destruct (of_chat !! user_id) as [t0|]; cbn [active_meetings replied].
    + apply H.
    + destruct (decide (c = chat_id)) as [->|Hcc].
      * rewrite lookup_insert_eq. intros [= <-]. apply insert_non_empty.
      * rewrite lookup_insert_ne by congruence. apply H.
  - cbv beta iota zeta. rewrite lookup_insert_eq. cbn [default from_option id].
    rewrite lookup_empty.
    cbn [active_meetings replied].
    destruct (decide (c = chat_id)) as [->|Hcc].
    + rewrite lookup_insert_eq. intros [= <-]. apply insert_non_empty.
    + rewrite !lookup_insert_ne by congruence. apply H.
Qed.

Lemma end_meeting_no_empty record chat_id user_id user_name now s :
  no_empty_chat s ->
  no_empty_chat (end_meeting record chat_id user_id user_name now s).
Proof.
  unfold no_empty_chat, end_meeting, send_reply. intros H c d.
  destruct (active_meetings s !! chat_id) as [of_chat|] eqn:Hc; [|apply H].
  destruct (of_chat !! user_id) as [t0|]; [|apply H].
  cbn [active_meetings replied].
  destruct (bool_decide (delete user_id of_chat = ∅)) eqn:He.
  - intros Hd. apply lookup_delete_Some in Hd. destruct Hd as [_ Hd].
    apply (H _ _ Hd).
  - apply bool_decide_eq_false_1 in He.
    destruct (decide (c = chat_id)) as [->|Hcc].
    + rewrite lookup_insert_eq. intros [= <-]. exact He.
    + rewrite lookup_insert_ne by congruence. apply H.
Qed.

(** X23.  No chat stays registered without a meeting: if every registered
    chat has an active meeting, this is still so after [/start_meeting]
    and after [/end_meeting].  A meeting that is started and then ended
    leaves [active_meetings] exactly as it was before, provided the caller
    had no meeting in the chat. *)
Theorem meetings_registry_is_tidy record chat_id user_id user_name t0 t1 s :
  no_empty_chat s ->
  no_empty_chat (start_meeting chat_id user_id user_name t0 s) /\
  no_empty_chat (end_meeting record chat_id user_id user_name t1 s) /\
  (active s chat_id user_id = None ->
   active_meetings
     (end_meeting record chat_id user_id user_name t1
        (start_meeting chat_id user_id user_name t0 s))
   = active_meetings s).
Proof.
  intros H. split; [apply start_meeting_no_empty, H|].
  split; [apply end_meeting_no_empty, H|].
  unfold active, start_meeting, end_meeting, send_reply. intros Hnone.
  destruct (active_meetings s !! chat_id) as [of_chat|] eqn:Hc.
  - cbv beta iota zeta. rewrite Hc. cbn [default from_option id]. rewrite Hnone.
    cbn [active_meetings replied].
    rewrite lookup_insert_eq, lookup_insert_eq.
    cbn [active_meetings replied].
    rewrite delete_insert_id by exact Hnone.
    rewrite bool_decide_eq_false_2 by (apply (H _ _ Hc)).
    rewrite insert_insert_eq. apply insert_id. exact Hc.
  - cbv beta iota zeta. rewrite lookup_insert_eq. cbn [default from_option id].
    rewrite lookup_empty.
    cbn [active_meetings replied].
    rewrite lookup_insert_eq, lookup_insert_eq.
    cbn [active_meetings replied].
    rewrite delete_insert_id by apply lookup_empty.
    rewrite bool_decide_eq_true_2 by reflexivity.
    rewrite insert_insert_eq, delete_insert_id by exact Hc. reflexivity.
Qed.

Lemma meetings_registry_is_tidy_witness :
  active_meetings
    (end_meeting (fun _ _ => Sheets_not_configured) 7 42 "Audrey" 1800%Q
       (start_meeting 7 42 "Audrey" 0%Q no_meetings))
  = ∅.
Proof.
  destruct (meetings_registry_is_tidy (fun _ _ => Sheets_not_configured)
              7 42 "Audrey" 0%Q 1800%Q no_meetings) as (_ & _ & Hround).
  - intros c d H. cbn in H. rewrite lookup_empty in H. discriminate H.
  - apply Hround. unfold active. cbn. rewrite lookup_empty. reflexivity.
Defined.

(** ** Uploads *)



Lemma suffix_of_unnamed (name : option string) :
  suffix (or_empty name) = "" ->
  lower (suffix (str_or (or_empty name) "document")) = "".
Proof.
  destruct name as [[|c s]|]; cbn [or_empty str_or str_truthy].
  - reflexivity.
  - intros ->. reflexivity.
  - reflexivity.
Qed.

(** X25.  A document whose file name has no suffix is never uploaded, not
    even when the bot has recognised it as a PDF by its MIME type and has
    routed it to the upload for that reason: [handle_document] calls
    [handle_document_upload], which looks at the file name only and
    answers that it accepts PDF and Word documents only. *)
Theorem mime_only_upload_is_rejected U msg doc w d :
  msg_document msg = Some doc ->
  suffix (or_empty (file_name doc)) = "" ->
  document_ext doc = ".pdf" ->
  is_for_receipt_extraction msg = false ->
  (forall mg, mg_truthy (media_group_id msg) = Some mg ->
              _pending_media_groups w !! mg = None) ->
  handle_document msg w = emit (Upload_document (clock w) (chat_id msg)) w /\
  handle_document_upload U (chat_id msg) (msg_document msg) d
    = answer (chat_id msg) Only_pdf_and_word d.
Proof.
  intros Hdoc Hname Hext Htrig Hidle. split.
  - unfold handle_document. rewrite Hdoc, Hext, Htrig. cbn [orb].
    destruct (mg_truthy (media_group_id msg)) as [mg|] eqn:Hmg.
    + rewrite (Hidle mg eq_refl).
      rewrite (bool_decide_eq_false_2 _ (is_Some_None (A:=group))).
      reflexivity.
    + reflexivity.
  - rewrite Hdoc. unfold handle_document_upload, upload_ext.
    rewrite (suffix_of_unnamed _ Hname). reflexivity.
Qed.

Lemma mime_only_upload_is_rejected_witness :
  let doc := {| doc_file_id := "f1"; file_name := None;
                mime_type := Some "application/pdf" |} in
  let msg := {| chat_id := 7; media_group_id := None; caption := None;
                reply_to_message := None; msg_document := Some doc;
                msg_photo := [] |} in
  effects (handle_document msg Stubs.start) = [Upload_document 0 7] /\
  answers (handle_document_upload uploads_work 7 (Some doc) empty_disk)
    = [(7%Z, Only_pdf_and_word)].
Proof.
  intros doc msg.
  destruct (mime_only_upload_is_rejected uploads_work msg doc Stubs.start
              empty_disk) as [Hroute Hupload];
    [reflexivity | reflexivity | reflexivity | reflexivity
    | intros mg Hmg; discriminate Hmg | ].
  rewrite Hroute. split; [reflexivity|].
  change (handle_document_upload uploads_work 7 (Some doc) empty_disk)
    with (handle_document_upload uploads_work (chat_id msg) (msg_document msg)
            empty_disk).
  rewrite Hupload. reflexivity.
Defined.

(** ** Names *)

Lemma contains_nothing hay : contains "" hay = true.
Proof. unfold contains. destruct (chars hay); reflexivity. Qed.

(** X30.  [_parse_user_name] goes by fragments.  The name that is found is
    that of the first member, in the order Andrew, Anna, Audrey, Jonathan,
    Nathaniel, whose lower-case name contains the argument or is contained
    in it, once white space around it and at-signs in front of it are
    dropped and it is put in lower case.  The direct comparison after the
    loop never decides anything.  An argument of which nothing is left,
    such as a lone at-sign, names Andrew. *)
Theorem parse_user_name_goes_by_fragments (s : string) :
  _parse_user_name s
    = (if negb (str_truthy s) then None
       else first_match (user_key s) USER_MAPPING) /\
  (s <> "" -> user_key s = "" -> _parse_user_name s = Some "Andrew").
Proof.
  assert (Hloop : _parse_user_name s
                  = (if negb (str_truthy s) then None
                     else first_match (user_key s) USER_MAPPING)).
  { unfold _parse_user_name. destruct (negb (str_truthy s)); [reflexivity|].
    cbv zeta. generalize (user_key s). intros k.
    destruct (first_match k USER_MAPPING) as [display|] eqn:Hfirst;
      [reflexivity|].
    repeat match goal with
           | |- context [String.eqb k ?name] =>
               let H := fresh "Hk" in
               destruct (String.eqb k name) eqn:H;
               [apply String.eqb_eq in H; subst k;
                vm_compute in Hfirst; discriminate Hfirst|]
           end.
    reflexivity. }
  split; [exact Hloop|].
  intros Hne Hkey. rewrite Hloop, Hkey.
  destruct s; [congruence|]. reflexivity.
Qed.

Lemma parse_user_name_goes_by_fragments_witness :
  _parse_user_name "@" = Some "Andrew" /\
  _parse_user_name " @Audrey " = Some "Audrey" /\
  _parse_user_name "an" = Some "Andrew".
Proof.
  destruct (parse_user_name_goes_by_fragments "@") as [_ Hlone].
  split; [apply Hlone; [discriminate | reflexivity]|].
  split; reflexivity.
Defined.

Import SheetsService(digits).

(** ** Dates of the time sheets *)

Lemma string_of_uint_digits d :
  List.Forall (fun c => is_digit c = true) (chars (NilEmpty.string_of_uint d)).
Proof.
  induction d; cbn; constructor; (reflexivity || assumption).
Qed.

Lemma string_of_uint_value d : forall acc,
  fold_left (fun acc c => (acc * 10 + digit_val c)%Z)
    (chars (NilEmpty.string_of_uint d)) (Z.of_nat acc)
  = Z.of_nat (Nat.of_uint_acc d acc).
Proof.
  induction d; intros acc; cbn [NilEmpty.string_of_uint chars
    list_ascii_of_string fold_left Nat.of_uint_acc]; [reflexivity|..];
    rewrite <- IHd; f_equal; rewrite Nat.tail_mul_spec;
    match goal with
    | |- context [digit_val ?c] =>
        let v := eval vm_compute in (digit_val c) in
        change (digit_val c) with v
    end; lia.
Qed.

Lemma show_nat_digits n :
  digits (chars (show_nat n)) /\
  digits_value (chars (show_nat n)) = Z.of_nat n.
Proof.
  unfold show_nat, NilZero.string_of_uint.
  pose proof (Unsigned.of_to n) as Hn. unfold Nat.of_uint in Hn.
  destruct (Nat.to_uint n) as [|d|d|d|d|d|d|d|d|d|d] eqn:Hd;
    try (repeat split;
         [ discriminate
         | apply (string_of_uint_digits (_ d))
         | unfold digits_value; rewrite <- Hn;
           apply (string_of_uint_value (_ d) 0) ] ).
  cbn in Hn. subst n. repeat split; [discriminate | repeat constructor].
Qed.

Lemma digit_char c :
  is_digit c = true ->
  is_space c = false /\ char_eqb c "/"%char = false /\
  char_eqb c "-"%char = false /\ char_eqb c "+"%char = false /\
  char_eqb c "."%char = false.
Proof.
  destruct c as [b0 b1 b2 b3 b4 b5 b6 b7].
  destruct b0, b1, b2, b3, b4, b5, b6, b7; vm_compute; intros H;
    try discriminate H; repeat split.
Qed.

Lemma strip_chars_id l :
  clean_head l -> clean_head (rev l) -> strip_chars l = l.
Proof.
  intros H1 H2. unfold strip_chars.
  rewrite (lstrip_chars_id l H1), (lstrip_chars_id _ H2). apply rev_involutive.
Qed.

Lemma digits_clean l :
  List.Forall (fun c => is_digit c = true) l -> clean_head l.
Proof.
  destruct l as [|c t]; [exact (fun _ => I)|].
  intros H. inversion H; subst. apply digit_char. assumption.
Qed.

Lemma digits_tail_digits l :
  List.Forall (fun c => is_digit c = true) l -> digits_tail l = (l, []).
Proof.
  induction l as [|c t IH]; intros H; [reflexivity|].
  inversion H as [|? ? Hc Ht]; subst. cbn [digits_tail].
  rewrite Hc, (IH Ht). reflexivity.
Qed.

Lemma int_of_digits l :
  digits l -> SheetsService.int_of_chars l = Some (digits_value l).
Proof.
  intros [Hne Hd]. unfold SheetsService.int_of_chars.
  rewrite strip_chars_id;
    [| apply digits_clean; exact Hd
     | apply digits_clean, List.Forall_rev; exact Hd].
  destruct l as [|c t]; [congruence|].
  inversion Hd as [|? ? Hc Ht]; subst.
  destruct (digit_char c Hc) as (_ & _ & Hminus & Hplus & _).
  cbn [sign_of]. rewrite Hminus, Hplus. cbn [digitpart].
  rewrite Hc, (digits_tail_digits t Ht). reflexivity.
Qed.

Lemma split_on_none sep l :
  List.Forall (fun c => char_eqb c sep = false) l ->
  SheetsService.split_on sep l = [l].
Proof.
  induction l as [|c t IH]; intros H; [reflexivity|].
  inversion H as [|? ? Hc Ht]; subst. cbn [SheetsService.split_on].
  rewrite Hc, (IH Ht). reflexivity.
Qed.

Lemma split_on_piece sep l rest :
  List.Forall (fun c => char_eqb c sep = false) l ->
  SheetsService.split_on sep (l ++ sep :: rest)
    = l :: SheetsService.split_on sep rest.
Proof.
  induction l as [|c t IH]; intros H.
  - cbn [app SheetsService.split_on]. unfold char_eqb.
    rewrite Ascii.eqb_refl. reflexivity.
  - inversion H as [|? ? Hc Ht]; subst. cbn [app SheetsService.split_on].
    rewrite Hc, (IH Ht). reflexivity.
Qed.

Lemma replace_char_digits a b l :
  List.Forall (fun c => char_eqb c a = false) l ->
  SheetsService.replace_char a b l = l.
Proof.
  unfold SheetsService.replace_char.
  induction l as [|c t IH]; intros H; [reflexivity|].
  inversion H as [|? ? Hc Ht]; subst. cbn [map]. rewrite Hc, (IH Ht).
  reflexivity.
Qed.

Lemma digits_without (x : ascii) l :
  (forall c, is_digit c = true -> char_eqb c x = false) ->
  List.Forall (fun c => is_digit c = true) l ->
  List.Forall (fun c => char_eqb c x = false) l.
Proof.
  intros Hx H. eapply List.Forall_impl; [|exact H]. exact Hx.
Qed.

Lemma digits_value_zeros k l :
  digits_value (repeat "0"%char k ++ l) = digits_value l.
Proof.
  unfold digits_value. rewrite fold_left_app.
  induction k as [|k IH]; [reflexivity|]. cbn [repeat fold_left]. exact IH.
Qed.

Lemma pad_digits w n :
  digits (chars (pad w n)) /\
  digits_value (chars (pad w n)) = Z.of_nat n.
Proof.
  unfold pad. fold (show_nat n).
  destruct (show_nat_digits n) as [[Hne Hd] Hv].
  rewrite chars_append, chars_str. split; [split|].
  - destruct (chars (show_nat n)); [congruence|].
    destruct (repeat _ _); discriminate.
  - apply List.Forall_app. split; [|exact Hd].
    apply List.Forall_forall. intros c Hin. apply repeat_spec in Hin.
    subst. reflexivity.
  - rewrite digits_value_zeros. exact Hv.
Qed.

Lemma format_02d_nat n : SheetsService.format_02d (Z.of_nat n) = pad 2 n.
Proof.
  unfold SheetsService.format_02d.
  destruct (Z.ltb_spec (Z.of_nat n) 0); [lia|]. rewrite Nat2Z.id. reflexivity.
Qed.

Lemma format_d_nat n : SheetsService.format_d (Z.of_nat n) = pad 1 n.
Proof.
  unfold SheetsService.format_d.
  destruct (Z.ltb_spec (Z.of_nat n) 0); [lia|]. rewrite Nat2Z.id. reflexivity.
Qed.

Lemma digits_last_clean l rest :
  digits l -> clean_head (rev (rest ++ l)).
Proof.
  intros [Hne Hd]. rewrite rev_app_distr.
  apply List.Forall_rev in Hd.
  destruct (rev l) as [|c t] eqn:Hr.
  - apply (f_equal (@rev ascii)) in Hr. rewrite rev_involutive in Hr.
    cbn in Hr. congruence.
  - inversion Hd; subst. cbn. apply digit_char. assumption.
Qed.

(** Three numbers written with digits, between separators that are
    slashes or dashes, are read and written again in the normal form. *)
Lemma normalize_three (a b c : list ascii) (sep1 sep2 : ascii) :
  digits a -> digits b -> digits c ->
  (sep1 = "/"%char \/ sep1 = "-"%char) ->
  (sep2 = "/"%char \/ sep2 = "-"%char) ->
  SheetsService._normalize_date (str (a ++ sep1 :: b ++ sep2 :: c))
  = pad 2 (Z.to_nat (digits_value a)) ++ "/"
    ++ pad 2 (Z.to_nat (digits_value b)) ++ "/"
    ++ pad 1 (Z.to_nat (digits_value c)).
Proof.
  intros Ha Hb Hc H1 H2. unfold SheetsService._normalize_date.
  assert (Htruthy : str_truthy (str (a ++ sep1 :: b ++ sep2 :: c)) = true).
  { destruct Ha as [Hne _]. destruct a; [congruence|reflexivity]. }
  rewrite Htruthy. cbn [negb]. unfold strip. rewrite !chars_str.
  rewrite strip_chars_id.
  2:{ destruct Ha as [Hne Hd]. destruct a as [|x a']; [congruence|].
      inversion Hd; subst. cbn. apply digit_char. assumption. }
  2:{ replace (a ++ sep1 :: b ++ sep2 :: c)%list
        with ((a ++ sep1 :: b ++ [sep2]) ++ c)%list
        by (rewrite <- !app_assoc; cbn; rewrite <- app_assoc; reflexivity).
      apply digits_last_clean. exact Hc. }
  assert (Hslash : forall l, List.Forall (fun c => is_digit c = true) l ->
            List.Forall (fun c => char_eqb c "/"%char = false) l).
  { intros l. apply digits_without. intros x Hx. apply (digit_char x Hx). }
  assert (Hdash : forall l, List.Forall (fun c => is_digit c = true) l ->
            List.Forall (fun c => char_eqb c "-"%char = false) l).
  { intros l. apply digits_without. intros x Hx. apply (digit_char x Hx). }
  assert (Hrep : SheetsService.replace_char "-"%char "/"%char
                   (a ++ sep1 :: b ++ sep2 :: c)
                 = (a ++ "/"%char :: b ++ "/"%char :: c)%list).
  { pose proof (replace_char_digits "-"%char "/"%char a (Hdash a (proj2 Ha))) as Ra.
    pose proof (replace_char_digits "-"%char "/"%char b (Hdash b (proj2 Hb))) as Rb.
    pose proof (replace_char_digits "-"%char "/"%char c (Hdash c (proj2 Hc))) as Rc.
    unfold SheetsService.replace_char in *.
    rewrite map_app. cbn [map]. rewrite map_app. cbn [map].
    rewrite Ra, Rb, Rc.
    destruct H1 as [-> | ->], H2 as [-> | ->]; reflexivity. }
  rewrite Hrep.
  rewrite (split_on_piece _ a _ (Hslash a (proj2 Ha))).
  rewrite (split_on_piece _ b _ (Hslash b (proj2 Hb))).
  rewrite (split_on_none _ c (Hslash c (proj2 Hc))).
  cbn [map].
  rewrite (int_of_digits a Ha), (int_of_digits b Hb), (int_of_digits c Hc).
  pose proof (digits_value_nonneg a). pose proof (digits_value_nonneg b).
  pose proof (digits_value_nonneg c).
  rewrite <- (Z2Nat.id (digits_value a)), <- (Z2Nat.id (digits_value b)),
    <- (Z2Nat.id (digits_value c)) by assumption.
  rewrite !format_02d_nat, format_d_nat, !Nat2Z.id. reflexivity.
Qed.

Lemma str_app l1 l2 : str (l1 ++ l2) = str l1 ++ str l2.
Proof.
  unfold str. induction l1 as [|c t IH]; [reflexivity|].
  cbn [app string_of_list_ascii String.append]. rewrite IH. reflexivity.
Qed.

Lemma str_chars s : str (chars s) = s.
Proof. apply string_of_list_ascii_of_string. Qed.

Lemma three_parts (a b c : string) (sep1 sep2 : ascii) :
  a ++ String sep1 (b ++ String sep2 c)
  = str (chars a ++ sep1 :: chars b ++ sep2 :: chars c).
Proof.
  rewrite str_app. cbn [str string_of_list_ascii]. fold (str (chars b ++ sep2 :: chars c)).
  rewrite str_app. cbn [str string_of_list_ascii]. fold (str (chars c)).
  rewrite !str_chars. reflexivity.
Qed.

Lemma pad_wide w n :
  (w <= len (show_nat n))%nat -> pad w n = show_nat n.
Proof.
  intros H. unfold pad. fold (show_nat n). unfold len in H.
  replace (w - String.length (show_nat n))%nat with 0%nat by lia.
  reflexivity.
Qed.

(** X26.  Dates are compared in a normal form that the dates written by
    the bot already have.  A date of three numbers, separated by slashes
    or by dashes, is put as day and month with two digits and the year as
    written, so 2-2-2026 and 02/02/2026 are the same date; the date that
    [record_meeting] writes for a day is put in the same way, and for a
    year of four digits it is left as it is. *)
Theorem normalize_date_reads_written_dates (d m y : nat) (sep : ascii) :
  sep = "/"%char \/ sep = "-"%char ->
  let normal := pad 2 d ++ "/" ++ pad 2 m ++ "/" ++ pad 1 y in
  let written := strftime_dmy {| day := d; month := m; year := y |} in
  SheetsService._normalize_date
    (show_nat d ++ String sep (show_nat m ++ String sep (show_nat y)))
    = normal /\
  SheetsService._normalize_date written = normal /\
  ((4 <= len (show_nat y))%nat ->
   SheetsService._normalize_date written = written).
Proof.
  intros Hsep normal written.
  assert (Hplain : SheetsService._normalize_date
            (show_nat d ++ String sep (show_nat m ++ String sep (show_nat y)))
            = normal).
  { rewrite three_parts.
    destruct (show_nat_digits d) as [Hd Vd].
    destruct (show_nat_digits m) as [Hm Vm].
    destruct (show_nat_digits y) as [Hy Vy].
    rewrite (normalize_three _ _ _ sep sep Hd Hm Hy Hsep Hsep).
    rewrite Vd, Vm, Vy, !Nat2Z.id. reflexivity. }
  assert (Hwritten : SheetsService._normalize_date written = normal).
  { unfold written, strftime_dmy. cbn [day month year].
    change (pad 2 d ++ "/" ++ pad 2 m ++ "/" ++ pad 4 y)
      with (pad 2 d ++ String "/" (pad 2 m ++ String "/" (pad 4 y))).
    rewrite three_parts.
    destruct (pad_digits 2 d) as [Hd Vd].
    destruct (pad_digits 2 m) as [Hm Vm].
    destruct (pad_digits 4 y) as [Hy Vy].
    rewrite (normalize_three _ _ _ "/"%char "/"%char Hd Hm Hy) by auto.
    rewrite Vd, Vm, Vy, !Nat2Z.id. reflexivity. }
  split; [exact Hplain|]. split; [exact Hwritten|].
  intros Hy. rewrite Hwritten. unfold normal, written, strftime_dmy.
  cbn [day month year].
  rewrite (pad_wide 4 y Hy), (pad_wide 1 y) by (unfold len in *; lia).
  reflexivity.
Qed.

Lemma normalize_date_reads_written_dates_witness :
  SheetsService._normalize_date "2-2-2026" = "02/02/2026" /\
  SheetsService._normalize_date "02/02/2026" = "02/02/2026".
Proof.
  destruct (normalize_date_reads_written_dates 2 2 2026 "-"%char)
    as (Hplain & _ & Hwritten); [right; reflexivity|].
  split; [exact Hplain|]. apply Hwritten. vm_compute. lia.
Defined.

Lemma replace_char_without a b l :
  char_eqb b a = false ->
  List.Forall (fun c => char_eqb c a = false)
    (SheetsService.replace_char a b l).
Proof.
  intros Hb. unfold SheetsService.replace_char.
  apply List.Forall_forall. intros c Hin. apply in_map_iff in Hin.
  destruct Hin as (x & <- & _). destruct (char_eqb x a) eqn:Hx; assumption.
Qed.

Lemma split_on_Forall (P : ascii -> Prop) sep l :
  List.Forall P l -> List.Forall (List.Forall P) (SheetsService.split_on sep l).
Proof.
  induction l as [|c t IH]; intros H; [repeat constructor|].
  inversion H as [|? ? Hc Ht]; subst. specialize (IH Ht).
  cbn [SheetsService.split_on]. destruct (char_eqb c sep).
  - constructor; [constructor | exact IH].
  - destruct (SheetsService.split_on sep t) as [|part parts].
    + repeat constructor. exact Hc.
    + inversion IH; subst. constructor; [constructor; assumption | assumption].
Qed.

Lemma int_without_minus l v :
  List.Forall (fun c => char_eqb c "-"%char = false) l ->
  SheetsService.int_of_chars l = Some v ->
  exists n, v = Z.of_nat n.
Proof.
  intros Hl. unfold SheetsService.int_of_chars.
  pose proof (strip_chars_Forall _ _ Hl) as Hs.
  destruct (strip_chars l) as [|c t]; [cbn; discriminate|].
  inversion Hs as [|? ? Hc _]; subst. cbn [sign_of]. rewrite Hc.
  destruct (char_eqb c "+"%char).
  - destruct (digitpart t) as [[ds [|]]|]; try discriminate.
    intros [= <-]. exists (Z.to_nat (digits_value ds)).
    rewrite Z2Nat.id; [reflexivity | apply digits_value_nonneg].
  - destruct (digitpart (c :: t)) as [[ds [|]]|]; try discriminate.
    intros [= <-]. exists (Z.to_nat (digits_value ds)).
    rewrite Z2Nat.id; [reflexivity | apply digits_value_nonneg].
Qed.

(** X27.  Normalising a date a second time changes nothing, whatever the
    cell holds: a date in normal form, some other text, or nothing. *)
Theorem normalize_date_idempotent (d : string) :
  SheetsService._normalize_date (SheetsService._normalize_date d)
  = SheetsService._normalize_date d.
Proof.
  unfold SheetsService._normalize_date at 2 3.
  destruct (str_truthy d); cbn [negb]; [|reflexivity].
  set (t := strip d).
  assert (Hparts : List.Forall
            (List.Forall (fun c => char_eqb c "-"%char = false))
            (SheetsService.split_on "/"%char
               (SheetsService.replace_char "-"%char "/"%char (chars t)))).
  { apply split_on_Forall, replace_char_without. reflexivity. }
  assert (Hother :
            match map SheetsService.int_of_chars
                    (SheetsService.split_on "/"%char
                       (SheetsService.replace_char "-"%char "/"%char (chars t)))
            with
            | [Some _; Some _; Some _] => False
            | _ => True
            end ->
            SheetsService._normalize_date t = t).
  { intros Hshape. unfold SheetsService._normalize_date.
    destruct (str_truthy t) eqn:Ht; cbn [negb].
    2:{ destruct t; [reflexivity|discriminate]. }
    replace (strip t) with t by (symmetry; apply strip_idempotent).
    revert Hshape.
    destruct (map SheetsService.int_of_chars _)
      as [|[x|] [|[y|] [|[z|] [|w rest]]]]; intros Hshape; try reflexivity.
    contradiction. }
  set (parts := SheetsService.split_on "/"%char _) in *. clearbody parts.
  destruct parts as [|p1 [|p2 [|p3 [|p4 rest]]]]; cbn [map] in *;
    try (apply Hother; exact I);
    destruct (SheetsService.int_of_chars p1) as [x|] eqn:Hx;
    try (apply Hother; exact I);
    destruct (SheetsService.int_of_chars p2) as [y|] eqn:Hy;
    try (apply Hother; exact I);
    destruct (SheetsService.int_of_chars p3) as [z|] eqn:Hz;
    try (apply Hother; exact I).
  apply List.Forall_cons_iff in Hparts. destruct Hparts as [H1 Hparts].
  apply List.Forall_cons_iff in Hparts. destruct Hparts as [H2 Hparts].
  apply List.Forall_cons_iff in Hparts. destruct Hparts as [H3 _].
  destruct (int_without_minus p1 x H1 Hx) as [nx ->].
  destruct (int_without_minus p2 y H2 Hy) as [ny ->].
  destruct (int_without_minus p3 z H3 Hz) as [nz ->].
  rewrite !format_02d_nat, format_d_nat.
  change (pad 2 nx ++ "/" ++ pad 2 ny ++ "/" ++ pad 1 nz)
    with (pad 2 nx ++ String "/" (pad 2 ny ++ String "/" (pad 1 nz))).
  rewrite three_parts.
  destruct (pad_digits 2 nx) as [Hdx Vx].
  destruct (pad_digits 2 ny) as [Hdy Vy].
  destruct (pad_digits 1 nz) as [Hdz Vz].
  rewrite (normalize_three _ _ _ "/"%char "/"%char Hdx Hdy Hdz) by auto.
  rewrite Vx, Vy, Vz, !Nat2Z.id.
  rewrite <- three_parts. reflexivity.
Qed.

(** ** Time sheets *)

Lemma sheet_total_appended first others row target total :
  first <> [] ->
  SheetsService.sheet_total (first :: others) target = Ok total ->
  SheetsService.sheet_total ((first :: others) ++ [row]) target
  = Ok (SheetsService.add_row target
          (SheetsService.columns_of (first :: others)) total row).
Proof.
  intros Hne. unfold SheetsService.sheet_total, SheetsService.columns_of.
  destruct first as [|cell cells]; [congruence|].
  cbn [app hd].
  destruct (existsb (contains "date") _
            || negb (SheetsService._looks_like_date (strip cell)));
    intros [= <-]; rewrite ?app_comm_cons, fold_left_app; reflexivity.
Qed.

(** X28.  A meeting that is written to a time sheet is counted when the
    times of its day are added up.  Let the sheet start with the header
    that [record_meeting] writes.  A row appended to it, with a duration
    that is a number, adds that duration to the total of the date in its
    first cell, compared in normal form, and leaves the total of every
    other date as it is. *)
Theorem meeting_row_is_counted rows date time_start time_end dur notes f
  target total :
  SheetsService.sheet_total (SheetsService.time_header :: rows) target
    = Ok total ->
  dur <> "" ->
  float_of_string dur = Some f ->
  let row := [date; time_start; time_end; dur; notes] in
  SheetsService.sheet_total (SheetsService.time_header :: rows ++ [row]) target
    = Ok (if String.eqb (SheetsService._normalize_date date) target
          then fadd total f else total) /\
  (target = SheetsService._normalize_date date ->
   SheetsService.sheet_total (SheetsService.time_header :: rows ++ [row])
     target
   = Ok (fadd total f)).
Proof.
  intros Htotal Hdur Hf row.
  assert (Hrow : SheetsService.sheet_total
                   (SheetsService.time_header :: rows ++ [row]) target
                 = Ok (if String.eqb (SheetsService._normalize_date date) target
                       then fadd total f else total)).
  { rewrite app_comm_cons.
    rewrite (sheet_total_appended _ rows row target total); [|discriminate|exact Htotal].
    f_equal. unfold SheetsService.add_row.
    change (SheetsService.columns_of (SheetsService.time_header :: rows))
      with (0%nat, 3%nat).
    cbn [length row Nat.max Nat.leb nth].
    destruct (String.eqb (SheetsService._normalize_date date) target);
      cbn [negb]; [|reflexivity].
    destruct dur; [congruence|]. cbn [str_truthy]. rewrite Hf. reflexivity. }
  split; [exact Hrow|].
  intros ->. rewrite Hrow, String.eqb_refl. reflexivity.
Qed.

Lemma meeting_row_is_counted_witness :
  SheetsService.sheet_total
    [SheetsService.time_header;
     ["02/11/2026"; "09:00"; "09:30"; "30"; "Meeting"];
     ["03/11/2026"; "10:00"; "10:45"; "45.5"; "Meeting"]]
    (SheetsService._normalize_date "3-11-2026")
  = Ok (Fin (Qred 45.5)).
Proof.
  destruct (meeting_row_is_counted
              [["02/11/2026"; "09:00"; "09:30"; "30"; "Meeting"]]
              "03/11/2026" "10:00" "10:45" "45.5" "Meeting" (Fin (Qred 45.5))
              (SheetsService._normalize_date "3-11-2026") (fin_of_Z 0))
    as [Hrow _]; [reflexivity | discriminate | reflexivity |].
  cbn [app] in Hrow. rewrite Hrow. reflexivity.
Defined.

Lemma user_times_names users worksheet target times :
  SheetsService.user_times users worksheet target = Ok times ->
  map fst times = map fst users /\
  (forall user, In user (map fst users) -> worksheet user = None ->
                In (user, fin_of_Z 0) times) /\
  (forall user rest, In user (map fst users) ->
                     worksheet user <> Some ([] :: rest)).
Proof.
  revert times. induction users as [|[name key] rest IH]; intros times.
  - cbn. intros [= <-]. repeat split; intros; contradiction.
  - cbn [SheetsService.user_times map fst].
    destruct (worksheet name) as [values|] eqn:Hw.
    + destruct (SheetsService.sheet_total values target) as [t|e] eqn:Ht;
        [|discriminate].
      destruct (SheetsService.user_times rest worksheet target) as [ts|e];
        [|discriminate].
      intros [= <-]. destruct (IH ts eq_refl) as (Hn & Hz & Hr).
      cbn [map fst]. rewrite Hn. split; [reflexivity|]. split.
      * intros user [<- | Hin] Hnone; [congruence|].
        right. apply Hz; assumption.
      * intros user rest' [<- | Hin]; [|apply Hr; exact Hin].
        rewrite Hw. intros [= ->]. cbn in Ht. discriminate.
    + destruct (SheetsService.user_times rest worksheet target) as [ts|e];
        [|discriminate].
      intros [= <-]. destruct (IH ts eq_refl) as (Hn & Hz & Hr).
      cbn [map fst]. rewrite Hn. split; [reflexivity|]. split.
      * intros user [<- | Hin] Hnone; [left; reflexivity|].
        right. apply Hz; assumption.
      * intros user rest' [<- | Hin]; [congruence|apply Hr; exact Hin].
Qed.

Lemma user_times_raises users worksheet target user rest :
  In user (map fst users) ->
  worksheet user = Some ([] :: rest) ->
  exists e, SheetsService.user_times users worksheet target = Raise e.
Proof.
  intros Hin Hw.
  destruct (SheetsService.user_times users worksheet target) as [times|e] eqn:Hrun;
    [|eauto].
  exfalso. apply user_times_names in Hrun. destruct Hrun as (_ & _ & Hr).
  apply (Hr user rest Hin Hw).
Qed.

(** X29.  The times of a day are all or nothing.  When
    [get_user_times_for_date] returns, there is one entry for each of the
    five members, in the order of [USER_TO_SHEET], and a member without a
    sheet has 0.  When the first row of the sheet of one member is empty,
    nothing is returned for anybody: the look up of the first cell raises. *)
Theorem user_times_all_or_nothing worksheet date_str :
  (forall times,
     SheetsService.get_user_times_for_date worksheet date_str = Ok times ->
     map fst times = ["Andrew"; "Anna"; "Audrey"; "Jonathan"; "Nathaniel"] /\
     forall user, In user (map fst times) -> worksheet user = None ->
                  In (user, fin_of_Z 0) times) /\
  (forall user rest,
     In user ["Andrew"; "Anna"; "Audrey"; "Jonathan"; "Nathaniel"] ->
     worksheet user = Some ([] :: rest) ->
     exists e,
       SheetsService.get_user_times_for_date worksheet date_str = Raise e).
Proof.
  unfold SheetsService.get_user_times_for_date. split.
  - intros times Hrun. apply user_times_names in Hrun.
    destruct Hrun as (Hn & Hz & _). split; [exact Hn|].
    intros user Hin. apply Hz. rewrite <- Hn. exact Hin.
  - intros user rest Hin Hw.
    apply (user_times_raises _ _ _ user rest); assumption.
Qed.

Lemma user_times_all_or_nothing_witness :
  let worksheet := fun user : string =>
    if String.eqb user "Audrey" then Some [[] : list string] else None in
  SheetsService.get_user_times_for_date worksheet "03/11/2026"
  = Raise (Exn OtherException "list index out of range").
Proof.
  intros worksheet.
  destruct (user_times_all_or_nothing worksheet "03/11/2026") as [_ Hraise].
  destruct (Hraise "Audrey" []) as [e He];
    [right; right; left; reflexivity | reflexivity |].
  rewrite He. vm_compute in He. congruence.
Defined.
